(** * worker-timer: timers relocated into a Web Worker

    A shallow embedding of [createWorker.ts] and [index.ts] and the
    verification of the correlation protocol between the main thread and
    the worker: identifier allocation, the two [idMap] registries, the
    message handlers on both sides, worker construction with its fallback,
    and the module-level default instance.

    [index.ts] is embedded in the version whose [setTimer] wraps the
    callback of a one-shot timer, so that the transaction is removed once
    the callback has run.

    Conventions of the embedding.
    - A JavaScript [number] used as an identifier, a native handle or a
      duration is an integer of [Z]; identifiers are only compared and
      incremented, and every integer the counter can practically reach is
      exact in a double (exhaustion of the numeric range is outside the
      protocol).
    - A [Map] is a finite map [gmap Z _].
    - Code that mutates closure state, calls the host and may throw is a
      [Task]: a state transformer that also yields the ordered trace of
      the operations it performed and either a value or a thrown error.
    - What the host or the user's code decides (whether a constructor
      throws, which handle the native scheduler hands out, what a user
      callback does when it is called) is an explicit argument. *)

From stdpp Require Import gmap list sorting.
From Stdlib Require Import ZArith Lia.

Local Open Scope Z_scope.

(** ** Tasks: state, trace and exceptions *)

(** Thrown values are opaque. *)
Definition Exn : Type := nat.

Inductive Outcome (A : Type) : Type :=
| Normal (a : A)
| Throws (e : Exn).
Arguments Normal {A} a.
Arguments Throws {A} e.

Definition Task (S E A : Type) : Type := S -> Outcome A * S * list E.

Definition ret {S E A : Type} (a : A) : Task S E A :=
  fun s => (Normal a, s, []).

Definition throw {S E A : Type} (e : Exn) : Task S E A :=
  fun s => (Throws e, s, []).

(** Sequencing: a throw skips everything after it; state and trace up to
    the throw are kept. *)
Definition bind {S E A B : Type} (m : Task S E A) (k : A -> Task S E B)
  : Task S E B :=
  fun s =>
    match m s with
    | (Normal a, s1, t1) => let '(r, s2, t2) := k a s1 in (r, s2, t1 ++ t2)
    | (Throws e, s1, t1) => (Throws e, s1, t1)
    end.

(** [try { m } catch (e) { h e }] *)
Definition try_catch {S E A : Type} (m : Task S E A) (h : Exn -> Task S E A)
  : Task S E A :=
  fun s =>
    match m s with
    | (Normal a, s1, t1) => (Normal a, s1, t1)
    | (Throws e, s1, t1) => let '(r, s2, t2) := h e s1 in (r, s2, t1 ++ t2)
    end.

Definition emit {S E : Type} (e : E) : Task S E unit :=
  fun s => (Normal tt, s, [e]).

Definition gets {S E A : Type} (f : S -> A) : Task S E A :=
  fun s => (Normal (f s), s, []).

Definition modify {S E : Type} (f : S -> S) : Task S E unit :=
  fun s => (Normal tt, f s, []).

Definition outcome_of {S E A : Type} (r : Outcome A * S * list E) : Outcome A :=
  r.1.1.
Definition state_of {S E A : Type} (r : Outcome A * S * list E) : S :=
  r.1.2.
Definition trace_of {S E A : Type} (r : Outcome A * S * list E) : list E :=
  r.2.

Declare Scope task_scope.
Delimit Scope task_scope with task.
Notation "x <- m ;; k" := (bind m (fun x => k))
  (at level 100, m at next level, right associativity) : task_scope.
Notation "m ;;; k" := (bind m (fun _ => k))
  (at level 100, right associativity) : task_scope.

(** Running a task whose events are of another kind. *)
Definition map_events {S E E' A : Type} (f : E -> E') (m : Task S E A)
  : Task S E' A :=
  fun s => let '(r, s1, t) := m s in (r, s1, f <$> t).

(** A host operation whose result the host decides. *)
Definition host_result {S E A : Type} (o : Outcome A) : Task S E A :=
  fun s => (o, s, []).

(** ** [createWorker.ts] *)

Module CreateWorker.

Local Open Scope task_scope.

(** A function to run in a worker, a script URL and a constructed
    [Worker] are opaque tokens. *)
Definition Fn : Type := nat.
Definition Url : Type := nat.
Definition WorkerRef : Type := nat.

(** The [options] argument: absent, or [{ type: 'module' }]. *)
Inductive WorkerOptions : Type := NoOptions | TypeModule.

(** What the host answers when asked: the evaluation of the data-URL
    template ([TextEncoder], [String.fromCharCode], [btoa]), of
    [URL.createObjectURL(new Blob(...))] and of [new Worker(url,
    options)]; each can throw. *)
Record Host : Type := MkHost {
  host_dataUrl : Fn -> Outcome Url;
  host_objectUrl : Fn -> Outcome Url;
  host_newWorker : Url -> option WorkerOptions -> Outcome WorkerRef
}.

(** The host operations performed, in program order. *)
Inductive HostCall : Type :=
| H_dataUrl (f : Fn)
| H_objectUrl (f : Fn)
| H_newWorker (url : Url) (options : option WorkerOptions)
| H_revokeObjectURL (url : Url).

Section WithHost.

Context {S : Type} (host : Host).

Definition functionToDataUrl (f : Fn) : Task S HostCall Url :=
  emit (H_dataUrl f) ;;; host_result (host_dataUrl host f).

Definition functionToObjectUrl (f : Fn) : Task S HostCall Url :=
  emit (H_objectUrl f) ;;; host_result (host_objectUrl host f).

Definition new_Worker (url : Url) (options : option WorkerOptions)
  : Task S HostCall WorkerRef :=
  emit (H_newWorker url options) ;;;
  host_result (host_newWorker host url options).

Definition revokeObjectURL (url : Url) : Task S HostCall unit :=
  emit (H_revokeObjectURL url).

Definition createWorkerWithDataUrl (f : Fn)
    (options : option WorkerOptions) : Task S HostCall WorkerRef :=
  url <- functionToDataUrl f ;;
  new_Worker url options.

Definition createWorkerWithBlob (f : Fn)
    (options : option WorkerOptions) : Task S HostCall WorkerRef :=
  url <- functionToObjectUrl f ;;
  w <- new_Worker url options ;;
  revokeObjectURL url ;;;
  ret w.

Definition createWorker (f : Fn) (options : option WorkerOptions)
  : Task S HostCall WorkerRef :=
  try_catch (createWorkerWithDataUrl f options)
            (fun e => createWorkerWithBlob f options).

End WithHost.

(** Whether the trace shows the blob strategy at work. *)
Definition is_blob_call (c : HostCall) : bool :=
  match c with
  | H_objectUrl _ => true
  | H_revokeObjectURL _ => true
  | _ => false
  end.

Definition uses_blob (t : list HostCall) : bool := existsb is_blob_call t.

End CreateWorker.

(** ** Shared vocabulary of [index.ts] *)

(** [type TimerId = number] *)
Definition TimerId : Type := Z.

(** The user's [TimerHandler] functions are opaque; a callback is named by
    a token, and what it does when called is supplied by a [UserRun]. *)
Definition TimerHandler : Type := nat.

(** The [unknown] values passed through as extra arguments. *)
Definition Value : Type := Z.

(** ['setTimeout' | 'setInterval'] *)
Inductive SetType : Type := T_setTimeout | T_setInterval.

(** ['clearTimeout' | 'clearInterval'] *)
Inductive ClearType : Type := T_clearTimeout | T_clearInterval.

(** [type MessageToWorker = SetTimerMessage | ClearTimerMessage] *)
Inductive MessageToWorker : Type :=
| SetTimerMessage (id : TimerId) (type : SetType) (duration : Z)
| ClearTimerMessage (id : TimerId) (type : ClearType).

(** The tags the main-side listener tests: ['invoke'] and ['clear']. *)
Inductive FromWorkerType : Type := T_invoke | T_clear.

(** A message from the worker: [{ id, type }]. *)
Record MessageFromWorker : Type := FromWorker {
  msg_id : TimerId;
  msg_type : FromWorkerType
}.

#[global] Instance SetType_eq_dec : EqDecision SetType.
Proof. solve_decision. Defined.
#[global] Instance ClearType_eq_dec : EqDecision ClearType.
Proof. solve_decision. Defined.
#[global] Instance FromWorkerType_eq_dec : EqDecision FromWorkerType.
Proof. solve_decision. Defined.
#[global] Instance MessageToWorker_eq_dec : EqDecision MessageToWorker.
Proof. solve_decision. Defined.
#[global] Instance MessageFromWorker_eq_dec : EqDecision MessageFromWorker.
Proof. solve_decision. Defined.

(** ** Main side: the closure of [createWorkerTimer] *)

Module MainSide.

Local Open Scope task_scope.

(** The function stored in a transaction. For ['setTimeout'] it is the
    wrapper [(...args) => { func(...args); idMap.delete(id) }], which
    captures [func] and [id]; for ['setInterval'] it is [func] itself. *)
Inductive InvokeFunc : Type :=
| Wrapper (func : TimerHandler) (id : TimerId)
| Plain (func : TimerHandler).

(** [type TimerTransaction = { id, type, func, duration, args }] *)
Record TimerTransaction : Type := Transaction {
  tx_id : TimerId;
  tx_type : SetType;
  tx_func : InvokeFunc;
  tx_duration : Z;
  tx_args : list Value
}.

(** The mutable state captured by the closure: [idMap] and the [seq]
    counter of [nextId]. *)
Record State : Type := MkState {
  idMap : gmap Z TimerTransaction;
  seq : Z
}.

(** The operations the main side performs, in program order. *)
Inductive Event : Type :=
| EvSet (id : TimerId) (t : TimerTransaction)  (* idMap.set(id, t) *)
| EvDelete (id : TimerId)                      (* idMap.delete(id) *)
| EvPost (m : MessageToWorker)                 (* worker.postMessage(m) *)
| EvTerminate                                  (* worker.terminate() *)
| EvCall (id : TimerId) (func : TimerHandler) (args : list Value)
    (* the user's function runs, on behalf of the transaction of [id] *)
| EvReturn (id : TimerId).                     (* setTimer returns id *)

Definition M (A : Type) : Type := Task State Event A.

(** [const idMap = new Map(); let seq = 0] *)
Definition initial : State := {| idMap := ∅; seq := 0 |}.

(** [() => seq++] *)
Definition nextId : M TimerId :=
  fun s => (Normal (seq s), {| idMap := idMap s; seq := seq s + 1 |}, []).

Definition idMap_get (id : TimerId) : M (option TimerTransaction) :=
  gets (fun s => idMap s !! id).

Definition idMap_set (id : TimerId) (t : TimerTransaction) : M unit :=
  emit (EvSet id t) ;;;
  modify (fun s => {| idMap := <[id := t]> (idMap s); seq := seq s |}).

Definition idMap_delete (id : TimerId) : M unit :=
  emit (EvDelete id) ;;;
  modify (fun s => {| idMap := delete id (idMap s); seq := seq s |}).

Definition postMessage (m : MessageToWorker) : M unit := emit (EvPost m).

(** [setTimer(type, func, duration = 0, ...args)]; an omitted
    [duration] is [None]. *)
Definition setTimer (type : SetType) (func : TimerHandler)
    (duration : option Z) (args : list Value) : M TimerId :=
  let duration := default 0 duration in
  id <- nextId ;;
  let invokeFunc :=
    match type with
    | T_setTimeout => Wrapper func id
    | T_setInterval => Plain func
    end in
  idMap_set id (Transaction id type invokeFunc duration args) ;;;
  postMessage (SetTimerMessage id type duration) ;;;
  emit (EvReturn id) ;;;
  ret id.

(** [clearTimer(type, id)] *)
Definition clearTimer (type : ClearType) (id : TimerId) : M unit :=
  postMessage (ClearTimerMessage id type) ;;;
  idMap_delete id.

(** The five methods of the returned [WorkerTimer] object. *)
Inductive ApiCall : Type :=
| Call_setTimeout (func : TimerHandler) (duration : option Z)
    (args : list Value)
| Call_setInterval (func : TimerHandler) (duration : option Z)
    (args : list Value)
| Call_clearTimeout (id : TimerId)
| Call_clearInterval (id : TimerId)
| Call_terminate.

(** One method call; a scheduling call yields the new id. *)
Definition call (c : ApiCall) : M (option TimerId) :=
  match c with
  | Call_setTimeout func duration args =>
      id <- setTimer T_setTimeout func duration args ;; ret (Some id)
  | Call_setInterval func duration args =>
      id <- setTimer T_setInterval func duration args ;; ret (Some id)
  | Call_clearTimeout id => clearTimer T_clearTimeout id ;;; ret None
  | Call_clearInterval id => clearTimer T_clearInterval id ;;; ret None
  | Call_terminate => emit EvTerminate ;;; ret None
  end.

Fixpoint calls (cs : list ApiCall) : M unit :=
  match cs with
  | [] => ret tt
  | c :: cs' => call c ;;; calls cs'
  end.

(** What one run of a user callback does: the calls it makes on this
    [WorkerTimer], and whether it then throws. *)
Record UserRun : Type := MkUserRun {
  ur_calls : list ApiCall;
  ur_throws : option Exn
}.

(** [func(...args)] for the user's [func]. *)
Definition call_user (u : UserRun) (id : TimerId) (func : TimerHandler)
    (args : list Value) : M unit :=
  emit (EvCall id func args) ;;;
  calls (ur_calls u) ;;;
  match ur_throws u with
  | Some e => throw e
  | None => ret tt
  end.

(** [transaction.func(...transaction.args)]: calling the stored
    function. [mid] is the id of the message being handled. *)
Definition invoke (u : UserRun) (mid : TimerId) (f : InvokeFunc)
    (args : list Value) : M unit :=
  match f with
  | Wrapper func id => call_user u mid func args ;;; idMap_delete id
  | Plain func => call_user u mid func args
  end.

(** The ['message'] listener registered on the worker. *)
Definition onmessage (u : UserRun) (message : MessageFromWorker) : M unit :=
  let id := msg_id message in
  let type := msg_type message in
  transaction <- idMap_get id ;;
  match transaction with
  | None => ret tt
  | Some transaction =>
      match type with
      | T_invoke => invoke u id (tx_func transaction) (tx_args transaction)
      | T_clear => idMap_delete id
      end
  end.

(** What the main thread can be asked to do: a method call from user
    code, or the delivery of a message from the worker. *)
Inductive Input : Type :=
| InCall (c : ApiCall)
| InMessage (u : UserRun) (message : MessageFromWorker).

Definition handle (i : Input) : M unit :=
  match i with
  | InCall c => call c ;;; ret tt
  | InMessage u message => onmessage u message
  end.

(** Running inputs one after the other. An exception thrown by a
    listener ends that turn only: it is reported to the host and the
    next input is handled from the state the turn left behind. *)
Fixpoint run (inputs : list Input) (s : State) : State * list Event :=
  match inputs with
  | [] => (s, [])
  | i :: inputs' =>
      let '(_, s1, t1) := handle i s in
      let '(s2, t2) := run inputs' s1 in
      (s2, t1 ++ t2)
  end.

(** The ids returned by scheduling calls, in call order. *)
Definition returned (t : list Event) : list TimerId :=
  omap (fun e => match e with EvReturn id => Some id | _ => None end) t.

(** The messages posted to the worker, in order. *)
Definition posted (t : list Event) : list MessageToWorker :=
  omap (fun e => match e with EvPost m => Some m | _ => None end) t.

(** Whether the user callback registered for [id] runs in the trace. *)
Definition called_for (id : TimerId) (e : Event) : bool :=
  match e with
  | EvCall id' _ _ => bool_decide (id' = id)
  | _ => false
  end.

End MainSide.

(** ** Worker side: the closure of [_timerWorker] *)

Module WorkerSide.

Local Open Scope task_scope.

(** The function handed to the native scheduler. For ['setTimeout'] it
    is [() => { invoke(); idMap.delete(id) }], for ['setInterval'] it
    is [invoke] itself, where [invoke] posts [{ id, type: 'invoke' }];
    both capture [id]. *)
Inductive Callback : Type :=
| InvokeAndDelete (id : TimerId)
| InvokeOnly (id : TimerId).

Definition callback_id (c : Callback) : TimerId :=
  match c with
  | InvokeAndDelete id => id
  | InvokeOnly id => id
  end.

(** An entry of the host's map of active timers. *)
Record NativeTimer : Type := MkNativeTimer {
  nt_type : SetType;
  nt_callback : Callback;
  nt_duration : Z
}.

(** The worker's [idMap] (timer id to native handle) and the host's map
    of active timers (native handle to timer). *)
Record State : Type := MkState {
  idMap : gmap Z Z;
  timers : gmap Z NativeTimer
}.

Inductive Event : Type :=
| EvNativeSet (type : SetType) (callback : Callback) (duration : Z)
    (nativeId : Z)                         (* self[type](callback, duration) *)
| EvNativeClear (type : ClearType) (nativeId : option Z)
                                           (* self[type](idMap.get(id)) *)
| EvSet (id : TimerId) (nativeId : Z)      (* idMap.set(id, nativeId) *)
| EvDelete (id : TimerId)                  (* idMap.delete(id) *)
| EvPost (m : MessageFromWorker).          (* self.postMessage(m) *)

Definition M (A : Type) : Type := Task State Event A.

(** [const idMap = new Map()], no timer active. *)
Definition initial : State := {| idMap := ∅; timers := ∅ |}.

Definition idMap_get (id : TimerId) : M (option Z) :=
  gets (fun s => idMap s !! id).

Definition idMap_set (id : TimerId) (nativeId : Z) : M unit :=
  emit (EvSet id nativeId) ;;;
  modify (fun s => {| idMap := <[id := nativeId]> (idMap s);
                      timers := timers s |}).

Definition idMap_delete (id : TimerId) : M unit :=
  emit (EvDelete id) ;;;
  modify (fun s => {| idMap := delete id (idMap s); timers := timers s |}).

Definition postMessage (m : MessageFromWorker) : M unit := emit (EvPost m).

(** The host's [self.setTimeout] / [self.setInterval]: registers the
    callback under the handle [h] the host picks and returns [h]. *)
Definition native_set (h : Z) (type : SetType) (callback : Callback)
    (duration : Z) : M Z :=
  emit (EvNativeSet type callback duration h) ;;;
  modify (fun s => {| idMap := idMap s;
                      timers := <[h := MkNativeTimer type callback duration]>
                                  (timers s) |}) ;;;
  ret h.

(** The host's [self.clearTimeout] / [self.clearInterval]. Both act on
    the one map of active timers (they are interchangeable in the HTML
    standard); [undefined] names no timer. *)
Definition native_clear (type : ClearType) (nativeId : option Z) : M unit :=
  emit (EvNativeClear type nativeId) ;;;
  match nativeId with
  | Some h =>
      modify (fun s => {| idMap := idMap s; timers := delete h (timers s) |})
  | None => ret tt
  end.

(** [const invoke = () => self.postMessage({ id, type: 'invoke' })] *)
Definition invoke (id : TimerId) : M unit :=
  postMessage (FromWorker id T_invoke).

Definition run_callback (c : Callback) : M unit :=
  match c with
  | InvokeAndDelete id => invoke id ;;; idMap_delete id
  | InvokeOnly id => invoke id
  end.

(** The ['message'] listener of the worker; [h] is the handle the host
    returns if the listener asks for a timer. *)
Definition onmessage (h : Z) (event : MessageToWorker) : M unit :=
  match event with
  | SetTimerMessage id type duration =>
      let callback :=
        match type with
        | T_setTimeout => InvokeAndDelete id
        | T_setInterval => InvokeOnly id
        end in
      nativeId <- native_set h type callback duration ;;
      idMap_set id nativeId
  | ClearTimerMessage id type =>
      nativeId <- idMap_get id ;;
      native_clear type nativeId ;;;
      idMap_delete id
  end.

(** The host fires the active timer [h]: it runs the callback, and a
    one-shot timer leaves the map of active timers. *)
Definition fire (h : Z) : M unit :=
  t <- gets (fun s => timers s !! h) ;;
  match t with
  | None => ret tt
  | Some t =>
      run_callback (nt_callback t) ;;;
      match nt_type t with
      | T_setTimeout =>
          modify (fun s => {| idMap := idMap s;
                              timers := delete h (timers s) |})
      | T_setInterval => ret tt
      end
  end.

Definition posted (t : list Event) : list MessageFromWorker :=
  omap (fun e => match e with EvPost m => Some m | _ => None end) t.

(** The handles of the active native timers whose callback carries
    [id]. *)
Definition handles_for (id : TimerId) (s : State) : list Z :=
  (map_to_list (filter (fun kv => callback_id (nt_callback kv.2) = id)
                       (timers s))).*1.

End WorkerSide.

(** ** The two sides and the channel between them *)

Module Protocol.

(** One [WorkerTimer] with its worker. The two queues are the message
    channel: ordered, reliable, oldest message first. *)
Record System : Type := MkSystem {
  main : MainSide.State;
  worker : WorkerSide.State;
  to_worker : list MessageToWorker;
  to_main : list MessageFromWorker;
  terminated : bool
}.

(** [createWorkerTimer()] once the worker exists. *)
Definition initial : System :=
  {| main := MainSide.initial; worker := WorkerSide.initial;
     to_worker := []; to_main := []; terminated := false |}.

(** Anything that can happen next. *)
Inductive Label : Type :=
| L_call (c : MainSide.ApiCall)
    (* user code calls a method of the WorkerTimer *)
| L_worker_receive (h : Z)
    (* the worker's listener runs on the oldest message to the worker;
       h is the handle the host has ready for a new timer *)
| L_fire (h : Z)
    (* the host fires native timer h in the worker *)
| L_main_receive (u : MainSide.UserRun).
    (* the main listener runs on the oldest message to the main side *)

(** Whether handling the message asks the host for a new timer. *)
Definition asks_for_timer (event : MessageToWorker) : bool :=
  match event with
  | SetTimerMessage _ _ _ => true
  | ClearTimerMessage _ _ => false
  end.

Definition has_terminate (t : list MainSide.Event) : bool :=
  existsb (fun e => match e with MainSide.EvTerminate => true | _ => false end) t.

(** The system after a main-side turn that ended with state [m] and
    trace [t]: what was posted joins the queue; [worker.terminate()]
    stops the worker and discards the messages on their way to the main
    side. *)
Definition after_main (s : System) (m : MainSide.State)
    (t : list MainSide.Event) : System :=
  {| main := m;
     worker := worker s;
     to_worker := to_worker s ++ MainSide.posted t;
     to_main := if has_terminate t then [] else to_main s;
     terminated := terminated s || has_terminate t |}.

Definition after_worker (s : System) (q : list MessageToWorker)
    (w : WorkerSide.State) (t : list WorkerSide.Event) : System :=
  {| main := main s;
     worker := w;
     to_worker := q;
     to_main := to_main s ++ WorkerSide.posted t;
     terminated := terminated s |}.

(** One step, with the main-side trace of that step; [None] when the
    step cannot happen in [s]: nothing to deliver, no such timer, a
    terminated worker, or, for a message that asks for a timer, a handle
    the host would not hand out because an active timer has it. *)
Definition step (l : Label) (s : System)
  : option (System * list MainSide.Event) :=
  match l with
  | L_call c =>
      let '(_, m, t) := MainSide.call c (main s) in
      Some (after_main s m t, t)
  | L_worker_receive h =>
      if terminated s then None else
      match to_worker s with
      | [] => None
      | event :: q =>
          if asks_for_timer event
             && bool_decide (is_Some (WorkerSide.timers (worker s) !! h))
          then None
          else
            let '(_, w, t) := WorkerSide.onmessage h event (worker s) in
            Some (after_worker s q w t, [])
      end
  | L_fire h =>
      if terminated s then None else
      match WorkerSide.timers (worker s) !! h with
      | None => None
      | Some _ =>
          let '(_, w, t) := WorkerSide.fire h (worker s) in
          Some (after_worker s (to_worker s) w t, [])
      end
  | L_main_receive u =>
      if terminated s then None else
      match to_main s with
      | [] => None
      | message :: q =>
          let '(_, m, t) := MainSide.onmessage u message (main s) in
          Some (after_main
                  {| main := main s; worker := worker s;
                     to_worker := to_worker s; to_main := q;
                     terminated := terminated s |} m t, t)
      end
  end.

(** Running a schedule of steps; the result carries the whole main-side
    trace. *)
Fixpoint steps (ls : list Label) (s : System)
  : option (System * list MainSide.Event) :=
  match ls with
  | [] => Some (s, [])
  | l :: ls' =>
      match step l s with
      | None => None
      | Some (s1, t1) =>
          match steps ls' s1 with
          | None => None
          | Some (s2, t2) => Some (s2, t1 ++ t2)
          end
      end
  end.

Definition reachable (s : System) : Prop :=
  exists ls t, steps ls initial = Some (s, t).

End Protocol.

(** ** The module level of [index.ts]: the default instance *)

Module Index.

Local Open Scope task_scope.

(** The function [_timerWorker] handed to [createWorker]; its behaviour
    is [WorkerSide]. *)
Definition _timerWorker : CreateWorker.Fn := 0%nat.

(** A [WorkerTimer] object: the worker it closes over and the protocol
    state of the pair. *)
Record WorkerTimer : Type := MkWorkerTimer {
  wt_worker : CreateWorker.WorkerRef;
  wt_system : Protocol.System
}.

(** The module variable [defaultWorkerTimer] (a reference into the
    objects created so far, or [null]) and those objects. *)
Record State : Type := MkState {
  defaultWorkerTimer : option nat;
  objects : list WorkerTimer
}.

Inductive Event : Type :=
| EvHost (c : CreateWorker.HostCall)      (* inside createWorker *)
| EvCreated (r : nat) (w : CreateWorker.WorkerRef)
    (* createWorkerTimer returns object r, built around worker w *)
| EvDefault (r : nat)                     (* defaultWorkerTimer = r *)
| EvOn (r : nat) (e : MainSide.Event).    (* object r performs e *)

Definition M (A : Type) : Type := Task State Event A.

(** [let defaultWorkerTimer = null], before anything was created. *)
Definition initial : State := {| defaultWorkerTimer := None; objects := [] |}.

(** [createWorkerTimer()]: the worker is created first; the registry,
    the counter and the listener exist only if that returned. *)
Definition createWorkerTimer (host : CreateWorker.Host) : M nat :=
  worker <- map_events EvHost
              (CreateWorker.createWorker host _timerWorker
                 (Some CreateWorker.TypeModule)) ;;
  r <- gets (fun s => length (objects s)) ;;
  modify (fun s => {| defaultWorkerTimer := defaultWorkerTimer s;
                      objects := objects s ++
                                 [MkWorkerTimer worker Protocol.initial] |}) ;;;
  emit (EvCreated r worker) ;;;
  ret r.

(** [getWorkerTimer()] *)
Definition getWorkerTimer (host : CreateWorker.Host) : M nat :=
  d <- gets defaultWorkerTimer ;;
  match d with
  | None =>
      r <- createWorkerTimer host ;;
      modify (fun s => {| defaultWorkerTimer := Some r;
                          objects := objects s |}) ;;;
      emit (EvDefault r) ;;;
      ret r
  | Some r => ret r
  end.

(** A method call on object [r]; a reference that names no object does
    not arise, [createWorkerTimer] being the only source of references. *)
Definition method (r : nat) (c : MainSide.ApiCall) : M (option TimerId) :=
  fun s =>
    match objects s !! r with
    | None => (Normal None, s, [])
    | Some o =>
        let '(res, m, t) := MainSide.call c (Protocol.main (wt_system o)) in
        (res,
         {| defaultWorkerTimer := defaultWorkerTimer s;
            objects := <[r := MkWorkerTimer (wt_worker o)
                                 (Protocol.after_main (wt_system o) m t)]>
                         (objects s) |},
         EvOn r <$> t)
    end.

(** The five bare functions exported by the module. *)
Definition setInterval (host : CreateWorker.Host) (func : TimerHandler)
    (duration : option Z) (args : list Value) : M (option TimerId) :=
  r <- getWorkerTimer host ;;
  method r (MainSide.Call_setInterval func duration args).

Definition setTimeout (host : CreateWorker.Host) (func : TimerHandler)
    (duration : option Z) (args : list Value) : M (option TimerId) :=
  r <- getWorkerTimer host ;;
  method r (MainSide.Call_setTimeout func duration args).

Definition clearInterval (host : CreateWorker.Host) (id : TimerId)
  : M (option TimerId) :=
  r <- getWorkerTimer host ;;
  method r (MainSide.Call_clearInterval id).

Definition clearTimeout (host : CreateWorker.Host) (id : TimerId)
  : M (option TimerId) :=
  r <- getWorkerTimer host ;;
  method r (MainSide.Call_clearTimeout id).

Definition terminate (host : CreateWorker.Host) : M (option TimerId) :=
  r <- getWorkerTimer host ;;
  method r MainSide.Call_terminate.

(** A call of one of the five bare functions. *)
Definition bare (host : CreateWorker.Host) (c : MainSide.ApiCall)
  : M (option TimerId) :=
  match c with
  | MainSide.Call_setTimeout func duration args =>
      setTimeout host func duration args
  | MainSide.Call_setInterval func duration args =>
      setInterval host func duration args
  | MainSide.Call_clearTimeout id => clearTimeout host id
  | MainSide.Call_clearInterval id => clearInterval host id
  | MainSide.Call_terminate => terminate host
  end.

(** A protocol step of object [r] (a delivery, a native fire, a method
    call on the object itself). *)
Definition object_step (r : nat) (l : Protocol.Label) : M unit :=
  fun s =>
    match objects s !! r with
    | None => (Normal tt, s, [])
    | Some o =>
        match Protocol.step l (wt_system o) with
        | None => (Normal tt, s, [])
        | Some (sys, t) =>
            (Normal tt,
             {| defaultWorkerTimer := defaultWorkerTimer s;
                objects := <[r := MkWorkerTimer (wt_worker o) sys]>
                             (objects s) |},
             EvOn r <$> t)
        end
    end.

(** What can happen to the module: a bare call, an explicit
    [createWorkerTimer()], a step of one of the objects. [host] is how
    the host answers during that call. *)
Inductive Input : Type :=
| InBare (host : CreateWorker.Host) (c : MainSide.ApiCall)
| InCreate (host : CreateWorker.Host)
| InObject (r : nat) (l : Protocol.Label).

Definition handle (i : Input) : M unit :=
  match i with
  | InBare host c => bare host c ;;; ret tt
  | InCreate host => createWorkerTimer host ;;; ret tt
  | InObject r l => object_step r l
  end.

Fixpoint run (inputs : list Input) (s : State) : State * list Event :=
  match inputs with
  | [] => (s, [])
  | i :: inputs' =>
      let '(_, s1, t1) := handle i s in
      let '(s2, t2) := run inputs' s1 in
      (s2, t1 ++ t2)
  end.

(** How often [defaultWorkerTimer] was assigned. *)
Definition is_default (e : Event) : bool :=
  match e with EvDefault _ => true | _ => false end.

Definition default_assignments (t : list Event) : nat :=
  length (List.filter is_default t).

End Index.

(** ** Reading main-side traces *)

Module MainTrace.

Import MainSide.

(** The user's function inside a stored function. *)
Definition user_func (f : InvokeFunc) : TimerHandler :=
  match f with
  | Wrapper func _ => func
  | Plain func => func
  end.

(** The stored function is the one [setTimer] builds for the type: the
    wrapper that deletes the transaction's own id for ['setTimeout'],
    the plain function for ['setInterval']. *)
Definition func_matches (t : TimerTransaction) : Prop :=
  match tx_type t, tx_func t with
  | T_setTimeout, Wrapper _ id => id = tx_id t
  | T_setInterval, Plain _ => True
  | _, _ => False
  end.

#[global] Instance func_matches_dec (t : TimerTransaction) :
  Decision (func_matches t).
Proof.
  unfold func_matches.
  destruct (tx_type t), (tx_func t); apply _.
Defined.

(** Well-formed registry: the counter is not negative, and every
    transaction sits under its own id, below the counter, with the
    stored function of its type. *)
Definition wf (m : State) : Prop :=
  0 <= seq m /\
  forall k t, idMap m !! k = Some t ->
              0 <= k < seq m /\ tx_id t = k /\ func_matches t.

(** Where the main side is inside a call: not in one, inside
    [setTimer] after the store, inside [setTimer] after the post,
    inside [clearTimer] after the post. *)
Inductive Pending : Type :=
| Idle
| SetStored (id : TimerId) (type : SetType) (duration : Z)
| SetPosted (id : TimerId)
| ClearPosted (id : TimerId).

(** The effect of one operation on the state, and whether the operation
    can be the next one at all. *)
Definition observe (e : Event) (x : State * Pending)
  : option (State * Pending) :=
  let '(m, p) := x in
  match p, e with
  | Idle, EvSet id t =>
      if decide (id = seq m /\ tx_id t = id /\ func_matches t)
      then Some (MkState (<[id := t]> (idMap m)) (id + 1),
                 SetStored id (tx_type t) (tx_duration t))
      else None
  | SetStored id type duration, EvPost msg =>
      if decide (msg = SetTimerMessage id type duration)
      then Some (m, SetPosted id) else None
  | SetPosted id, EvReturn id' =>
      if decide (id' = id) then Some (m, Idle) else None
  | Idle, EvPost (ClearTimerMessage id _) => Some (m, ClearPosted id)
  | ClearPosted id, EvDelete id' =>
      if decide (id' = id)
      then Some (MkState (delete id (idMap m)) (seq m), Idle) else None
  | Idle, EvDelete id => Some (MkState (delete id (idMap m)) (seq m), Idle)
  | Idle, EvTerminate => Some (m, Idle)
  | Idle, EvCall id func args =>
      match idMap m !! id with
      | Some t =>
          if decide (func = user_func (tx_func t) /\ args = tx_args t)
          then Some (m, Idle) else None
      | None => None
      end
  | _, _ => None
  end.

Fixpoint replay (T : list Event) (x : State * Pending)
  : option (State * Pending) :=
  match T with
  | [] => Some x
  | e :: T' =>
      match observe e x with
      | Some y => replay T' y
      | None => None
      end
  end.

(** A task is sound when its trace replays, from any state and outside
    any call, to the state the task ends in. *)
Definition sound {A : Type} (f : M A) : Prop :=
  forall m, replay (trace_of (f m)) (m, Idle) = Some (state_of (f m), Idle).

Definition wfp (x : State * Pending) : Prop :=
  wf x.1 /\
  match x.2 with
  | SetStored id _ _ => id + 1 = seq x.1
  | SetPosted id => id + 1 = seq x.1
  | _ => True
  end.

(** The next id a scheduling call will return: the one being returned
    inside [setTimer], the counter otherwise. *)
Definition next_return (x : State * Pending) : Z :=
  match x.2 with
  | SetStored id _ _ => id
  | SetPosted id => id
  | _ => seq x.1
  end.

(** The next id a [SetTimerMessage] will carry. *)
Definition next_post (x : State * Pending) : Z :=
  match x.2 with
  | SetStored id _ _ => id
  | _ => seq x.1
  end.

(** The ids [a, a+1, ..., a+n-1]. *)
Fixpoint ids_from (a : Z) (n : nat) : list Z :=
  match n with
  | O => []
  | Datatypes.S n' => a :: ids_from (a + 1) n'
  end.

(** The ids of the [SetTimerMessage]s among messages. *)
Definition set_ids (q : list MessageToWorker) : list TimerId :=
  omap (fun m => match m with
                 | SetTimerMessage id _ _ => Some id
                 | ClearTimerMessage _ _ => None
                 end) q.

(** The transactions in the registry whose [id] field is [id]. *)
Definition transactions_for (id : TimerId) (m : State)
  : list (Z * TimerTransaction) :=
  map_to_list (filter (fun kv => tx_id kv.2 = id) (idMap m)).

(** An id that was handed out and has no transaction. *)
Definition retired (id : TimerId) (x : State * Pending) : Prop :=
  idMap x.1 !! id = None /\ id < seq x.1.

Definition never_called (id : TimerId) (T : list Event) : Prop :=
  Forall (fun e => called_for id e = false) T.

End MainTrace.

(** Case analysis on one observed operation. *)
Ltac observe_inv H :=
  match type of H with
  | MainTrace.observe ?e (?m, ?p) = Some _ =>
      destruct p; first [is_var e; destruct e | idtac];
      cbn [MainTrace.observe] in H; try discriminate H;
      repeat match type of H with
        | context [decide ?P] => destruct (decide P); try discriminate H
        | context [match ?o with Some _ => _ | None => _ end] =>
            let Hl := fresh "Hlook" in
            destruct o eqn:Hl; try discriminate H
        | context [match ?msg with SetTimerMessage _ _ _ => _
                                 | ClearTimerMessage _ _ => _ end] =>
            destruct msg; try discriminate H
        end;
      try (injection H as <-)
  end.


(** Hosts used as examples: one on which every strategy throws, one on
    which only the data-URL strategy does, one on which nothing throws. *)
Definition host_all_throw : CreateWorker.Host :=
  CreateWorker.MkHost (fun _ => Normal 1%nat) (fun _ => Normal 2%nat)
    (fun url _ => Throws url).

Definition host_data_url_blocked : CreateWorker.Host :=
  CreateWorker.MkHost (fun _ => Throws 7%nat) (fun _ => Normal 2%nat)
    (fun url _ => Normal (10 + url)%nat).

Definition host_ok : CreateWorker.Host :=
  CreateWorker.MkHost (fun _ => Normal 1%nat) (fun _ => Normal 2%nat)
    (fun url _ => Normal (10 + url)%nat).

(** ** Method calls and what they return *)

(** Whether a method call is a scheduling call. *)
Definition is_scheduling (c : MainSide.ApiCall) : bool :=
  match c with
  | MainSide.Call_setTimeout _ _ _ => true
  | MainSide.Call_setInterval _ _ _ => true
  | _ => false
  end.

(** What each of a sequence of method calls returns to its caller: the
    id for a scheduling call, nothing for the others. *)
Fixpoint results (cs : list MainSide.ApiCall) (s : MainSide.State)
  : list (option TimerId) :=
  match cs with
  | [] => []
  | c :: cs' =>
      let '(r, s1, _) := MainSide.call c s in
      match r with
      | Normal v => v
      | Throws _ => None
      end :: results cs' s1
  end.

(** The scheduling calls of a sequence numbered from [n] on, in call
    order. *)
Fixpoint numbered (cs : list MainSide.ApiCall) (n : Z)
  : list (option TimerId) :=
  match cs with
  | [] => []
  | c :: cs' =>
      if is_scheduling c then Some n :: numbered cs' (n + 1)
      else None :: numbered cs' n
  end.

(** Whether a method call is a cancel call for [id]. *)
Definition clears (id : TimerId) (c : MainSide.ApiCall) : bool :=
  match c with
  | MainSide.Call_clearTimeout i => bool_decide (i = id)
  | MainSide.Call_clearInterval i => bool_decide (i = id)
  | _ => false
  end.

(** A user callback that makes no call and throws, and one that makes no
    call and returns. *)
Definition user_throws : MainSide.UserRun := MainSide.MkUserRun [] (Some 1%nat).
Definition user_returns : MainSide.UserRun := MainSide.MkUserRun [] None.

(** The main side after [setTimeout(f7)] on a new WorkerTimer, and after
    [setInterval(f7)] on a new WorkerTimer. *)
Definition one_timeout : MainSide.State :=
  state_of (MainSide.setTimer T_setTimeout 7%nat None [] MainSide.initial).
Definition one_interval : MainSide.State :=
  state_of (MainSide.setTimer T_setInterval 7%nat None [] MainSide.initial).

(** A race: the timer is scheduled, the worker starts it and it fires,
    the main side cancels it while the invoke message is on its way, and
    only then are the invoke message and the cancel message delivered. *)
Definition race : list Protocol.Label :=
  [Protocol.L_call (MainSide.Call_setTimeout 7%nat (Some 0) []);
   Protocol.L_worker_receive 1;
   Protocol.L_fire 1;
   Protocol.L_call (MainSide.Call_clearTimeout 0);
   Protocol.L_main_receive user_returns;
   Protocol.L_worker_receive 2].

(** ** The invariant of the pair *)

Module Lockstep.

(** The callback the worker's listener builds for a message. *)
Definition callback_for (type : SetType) (id : TimerId) : WorkerSide.Callback :=
  match type with
  | T_setTimeout => WorkerSide.InvokeAndDelete id
  | T_setInterval => WorkerSide.InvokeOnly id
  end.

(** The worker's [idMap] and the host's active timers describe each
    other: an entry [id -> h] names an active timer whose callback
    carries [id], and an active timer [h] whose callback carries [id] is
    the entry of [id]; every callback is the one built for the timer's
    type. *)
Definition worker_wf (w : WorkerSide.State) : Prop :=
  (forall id h, WorkerSide.idMap w !! id = Some h ->
     exists nt, WorkerSide.timers w !! h = Some nt
                /\ WorkerSide.callback_id (WorkerSide.nt_callback nt) = id)
  /\ (forall h nt, WorkerSide.timers w !! h = Some nt ->
        WorkerSide.idMap w !! WorkerSide.callback_id (WorkerSide.nt_callback nt)
        = Some h
        /\ WorkerSide.nt_callback nt
           = callback_for (WorkerSide.nt_type nt)
               (WorkerSide.callback_id (WorkerSide.nt_callback nt))).

(** The ids the worker holds timers for. *)
Definition timer_ids_below (w : WorkerSide.State) (bound : Z) : Prop :=
  forall h nt, WorkerSide.timers w !! h = Some nt ->
               WorkerSide.callback_id (WorkerSide.nt_callback nt) < bound.

(** What holds in every reachable state: both registries are well
    formed; the scheduling requests still in the queue carry strictly
    increasing ids, all handed out already, and all above every id the
    worker has a timer for. *)
Definition invariant (s : Protocol.System) : Prop :=
  MainTrace.wf (Protocol.main s)
  /\ worker_wf (Protocol.worker s)
  /\ StronglySorted Z.lt (MainTrace.set_ids (Protocol.to_worker s))
  /\ Forall (fun id => id < MainSide.seq (Protocol.main s))
            (MainTrace.set_ids (Protocol.to_worker s))
  /\ timer_ids_below (Protocol.worker s) (MainSide.seq (Protocol.main s))
  /\ Forall (fun id => timer_ids_below (Protocol.worker s) id)
            (MainTrace.set_ids (Protocol.to_worker s)).

End Lockstep.

(** [setInterval(f7, 1000)] reaches the worker and fires once. *)
Definition interval_running : list Protocol.Label :=
  [Protocol.L_call (MainSide.Call_setInterval 7%nat (Some 1000) []);
   Protocol.L_worker_receive 1;
   Protocol.L_fire 1].

(** ** Reading module-level traces *)

Module IndexTrace.

(** The objects of [ms] are still there in [ms'], each around the worker
    it was created with. *)
Definition extends (ms ms' : Index.State) : Prop :=
  (length (Index.objects ms) <= length (Index.objects ms'))%nat
  /\ forall r o, Index.objects ms !! r = Some o ->
       exists o', Index.objects ms' !! r = Some o'
                  /\ Index.wt_worker o' = Index.wt_worker o.

(** The default instance, when set, is one of the objects. *)
Definition default_valid (ms : Index.State) : Prop :=
  forall r, Index.defaultWorkerTimer ms = Some r ->
            (r < length (Index.objects ms))%nat.

(** What one task does to the module variable. *)
Definition keeps_default {A : Type} (f : Index.M A) : Prop :=
  forall ms,
    default_valid ms ->
    let ms' := state_of (f ms) in
    let n := Index.default_assignments (trace_of (f ms)) in
    extends ms ms' /\ default_valid ms'
    /\ (forall r, Index.defaultWorkerTimer ms = Some r ->
          Index.defaultWorkerTimer ms' = Some r /\ n = 0%nat)
    /\ (Index.defaultWorkerTimer ms = None ->
        (Index.defaultWorkerTimer ms' = None /\ n = 0%nat)
        \/ (exists r, Index.defaultWorkerTimer ms' = Some r /\ n = 1%nat)).

(** Whether the default instance is terminated. *)
Definition default_terminated (ms : Index.State) : option bool :=
  match Index.defaultWorkerTimer ms with
  | Some r =>
      match Index.objects ms !! r with
      | Some o => Some (Protocol.terminated (Index.wt_system o))
      | None => None
      end
  | None => None
  end.

End IndexTrace.

(** ** [createWorker.ts]: the shared-worker constructors *)

Module CreateSharedWorker.

Local Open Scope task_scope.

(** [sameSiteCookies?: "all" | "none"] *)
Inductive SameSiteCookies : Type := SameSite_all | SameSite_none.

(** [interface SharedWorkerOptions extends WorkerOptions] *)
Record SharedWorkerOptions : Type := MkSharedWorkerOptions {
  swo_worker : CreateWorker.WorkerOptions;
  swo_sameSiteCookies : option SameSiteCookies
}.

(** The host as the shared-worker functions see it: the two URL
    operations of [CreateWorker.Host], and [new SharedWorker(url,
    options)]. *)
Record Host : Type := MkHost {
  host_urls : CreateWorker.Host;
  host_newSharedWorker :
    CreateWorker.Url -> option SharedWorkerOptions ->
    Outcome CreateWorker.WorkerRef
}.

Inductive HostCall : Type :=
| H_url (c : CreateWorker.HostCall)
    (* functionToDataUrl, functionToObjectUrl, URL.revokeObjectURL *)
| H_newSharedWorker (url : CreateWorker.Url)
    (options : option SharedWorkerOptions).

Section WithHost.

Context {S : Type} (host : Host).

Definition new_SharedWorker (url : CreateWorker.Url)
    (options : option SharedWorkerOptions)
  : Task S HostCall CreateWorker.WorkerRef :=
  emit (H_newSharedWorker url options) ;;;
  host_result (host_newSharedWorker host url options).

Definition createSharedWorkerWithDataUrl (f : CreateWorker.Fn)
    (options : option SharedWorkerOptions)
  : Task S HostCall CreateWorker.WorkerRef :=
  url <- map_events H_url
           (CreateWorker.functionToDataUrl (host_urls host) f) ;;
  new_SharedWorker url options.

Definition createSharedWorkerWithBlob (f : CreateWorker.Fn)
    (options : option SharedWorkerOptions)
  : Task S HostCall CreateWorker.WorkerRef :=
  url <- map_events H_url
           (CreateWorker.functionToObjectUrl (host_urls host) f) ;;
  w <- new_SharedWorker url options ;;
  map_events H_url (CreateWorker.revokeObjectURL url) ;;;
  ret w.

Definition createSharedWorker (f : CreateWorker.Fn)
    (options : option SharedWorkerOptions)
  : Task S HostCall CreateWorker.WorkerRef :=
  try_catch (createSharedWorkerWithDataUrl f options)
            (fun e => createSharedWorkerWithBlob f options).

End WithHost.

(** The constructor calls in a trace, and the object URLs revoked. *)
Definition constructed (t : list HostCall) : list CreateWorker.Url :=
  omap (fun c => match c with
                 | H_newSharedWorker url _ => Some url
                 | _ => None
                 end) t.

Definition revoked (t : list HostCall) : list CreateWorker.Url :=
  omap (fun c => match c with
                 | H_url (CreateWorker.H_revokeObjectURL url) => Some url
                 | _ => None
                 end) t.

Definition uses_blob (t : list HostCall) : bool :=
  existsb (fun c => match c with
                    | H_url c' => CreateWorker.is_blob_call c'
                    | _ => false
                    end) t.

End CreateSharedWorker.

(** The constructor calls and revocations of [createWorker]'s trace. *)
Definition worker_constructed (t : list CreateWorker.HostCall)
  : list CreateWorker.Url :=
  omap (fun c => match c with
                 | CreateWorker.H_newWorker url _ => Some url
                 | _ => None
                 end) t.

Definition worker_revoked (t : list CreateWorker.HostCall)
  : list CreateWorker.Url :=
  omap (fun c => match c with
                 | CreateWorker.H_revokeObjectURL url => Some url
                 | _ => None
                 end) t.

(** A host for shared workers whose constructor accepts only the object
    URL. *)
Definition shared_host_blob_only : CreateSharedWorker.Host :=
  CreateSharedWorker.MkHost host_ok
    (fun url _ => if Nat.eqb url 2 then Normal 20%nat else Throws 9%nat).

(** A host whose data-URL encoding fails and whose constructor rejects
    the object URL. *)
Definition host_blob_rejected : CreateWorker.Host :=
  CreateWorker.MkHost (fun _ => Throws 7%nat) (fun _ => Normal 2%nat)
    (fun url _ => Throws 8%nat).


(** ** Reading whole runs *)

Module History.

(** The scheduling requests a trace stores: for each [idMap.set(id, t)],
    the message that announces [t]. *)
Definition announced (T : list MainSide.Event) : list MessageToWorker :=
  omap (fun e => match e with
                 | MainSide.EvSet id t =>
                     Some (SetTimerMessage id (MainSide.tx_type t)
                             (MainSide.tx_duration t))
                 | _ => None
                 end) T.

(** The transactions a trace stores, with the ids they are stored
    under. *)
Definition sets (T : list MainSide.Event)
  : list (TimerId * MainSide.TimerTransaction) :=
  omap (fun e => match e with
                 | MainSide.EvSet id t => Some (id, t)
                 | _ => None
                 end) T.

(** The [SetTimerMessage]s among messages. *)
Definition set_messages (q : list MessageToWorker) : list MessageToWorker :=
  List.filter Protocol.asks_for_timer q.

(** The message [setTimer] still has to post. *)
Definition unposted (p : MainTrace.Pending) : list MessageToWorker :=
  match p with
  | MainTrace.SetStored id type duration => [SetTimerMessage id type duration]
  | _ => []
  end.

(** How often the callback of [id] is called in a trace. *)
Definition calls (id : TimerId) (T : list MainSide.Event) : nat :=
  length (List.filter (MainSide.called_for id) T).

End History.


(** An interval that fires twice and is cancelled while the second
    invoke message is on its way. *)
Definition interval_cancelled : list Protocol.Label :=
  [Protocol.L_call (MainSide.Call_setInterval 7%nat (Some 1000) [3]);
   Protocol.L_worker_receive 1;
   Protocol.L_fire 1;
   Protocol.L_main_receive user_returns;
   Protocol.L_fire 1;
   Protocol.L_call (MainSide.Call_clearInterval 0);
   Protocol.L_main_receive user_returns].

Definition interval_cancelled_trace : list MainSide.Event :=
  [MainSide.EvSet 0 (MainSide.Transaction 0 T_setInterval
                       (MainSide.Plain 7%nat) 1000 [3]);
   MainSide.EvPost (SetTimerMessage 0 T_setInterval 1000);
   MainSide.EvReturn 0;
   MainSide.EvCall 0 7%nat [3];
   MainSide.EvPost (ClearTimerMessage 0 T_clearInterval);
   MainSide.EvDelete 0].

Definition interval_cancelled_state : Protocol.System :=
  Protocol.MkSystem (MainSide.MkState ∅ 1)
    (WorkerSide.MkState
       {[ 0 := 1 ]}
       {[ 1 := WorkerSide.MkNativeTimer T_setInterval
                 (WorkerSide.InvokeOnly 0) 1000 ]})
    [ClearTimerMessage 0 T_clearInterval] [] false.


(** The same run followed by a new [setTimeout]. *)
Definition interval_cancelled_then_timeout_trace : list MainSide.Event :=
  [MainSide.EvSet 1 (MainSide.Transaction 1 T_setTimeout
                       (MainSide.Wrapper 8%nat 1) 5 []);
   MainSide.EvPost (SetTimerMessage 1 T_setTimeout 5);
   MainSide.EvReturn 1].

Definition interval_cancelled_then_timeout_state : Protocol.System :=
  Protocol.MkSystem
    (MainSide.MkState
       {[ 1 := MainSide.Transaction 1 T_setTimeout
                 (MainSide.Wrapper 8%nat 1) 5 [] ]} 2)
    (WorkerSide.MkState
       {[ 0 := 1 ]}
       {[ 1 := WorkerSide.MkNativeTimer T_setInterval
                 (WorkerSide.InvokeOnly 0) 1000 ]})
    [ClearTimerMessage 0 T_clearInterval; SetTimerMessage 1 T_setTimeout 5]
    [] false.


(** ** Accounting of one-shot timers *)

Module Delivery.

(** How many scheduling requests for [id] a queue holds. *)
Definition count_sets (id : TimerId) (q : list MessageToWorker) : nat :=
  length (List.filter (Z.eqb id) (MainTrace.set_ids q)).

(** 1 when the worker's [idMap] has an entry for [id]. *)
Definition holds (id : TimerId) (w : WorkerSide.State) : nat :=
  match WorkerSide.idMap w !! id with
  | Some _ => 1
  | None => 0
  end.

(** How many notifications for [id] a queue holds. *)
Definition invokes (id : TimerId) (q : list MessageFromWorker) : nat :=
  length (List.filter (fun m => Z.eqb (msg_id m) id) q).

(** What is under way for [id]: requests not yet received by the worker,
    the worker's entry, notifications not yet received by the main
    side. *)
Definition pending (id : TimerId) (s : Protocol.System) : nat :=
  (count_sets id (Protocol.to_worker s)
   + holds id (Protocol.worker s)
   + invokes id (Protocol.to_main s))%nat.

(** Every scheduling request for [id] among [P] is a ['setTimeout']. *)
Definition one_shot (id : TimerId) (P : list MessageToWorker) : Prop :=
  forall type duration,
    SetTimerMessage id type duration ∈ P -> type = T_setTimeout.

(** The scheduling request a native timer was made for. *)
Definition request_of (nt : WorkerSide.NativeTimer) : MessageToWorker :=
  SetTimerMessage (WorkerSide.callback_id (WorkerSide.nt_callback nt))
    (WorkerSide.nt_type nt) (WorkerSide.nt_duration nt).

(** What holds of a state [s] reached with main-side trace [T]:
    everything in the queue to the worker was posted; every native timer
    was made for a posted request; every notification is an invoke for
    an id that was requested; and for a one-shot id, what is under way
    plus the calls made so far never exceeds the requests posted. *)
Definition invariant (s : Protocol.System) (T : list MainSide.Event) : Prop :=
  (forall m, m ∈ Protocol.to_worker s -> m ∈ MainSide.posted T)
  /\ (forall h nt, WorkerSide.timers (Protocol.worker s) !! h = Some nt ->
        request_of nt ∈ MainSide.posted T)
  /\ (forall m, m ∈ Protocol.to_main s ->
        msg_type m = T_invoke
        /\ exists type duration,
             SetTimerMessage (msg_id m) type duration ∈ MainSide.posted T)
  /\ (forall id, one_shot id (MainSide.posted T) ->
        (pending id s + History.calls id T
         <= count_sets id (MainSide.posted T))%nat).

End Delivery.

(** An interval that has fired twice, with one notification handled. *)
Definition interval_fired_twice : list Protocol.Label :=
  [Protocol.L_call (MainSide.Call_setInterval 7%nat (Some 1000) [3]);
   Protocol.L_worker_receive 1;
   Protocol.L_fire 1;
   Protocol.L_main_receive user_returns;
   Protocol.L_fire 1].

Definition interval_fired_twice_trace : list MainSide.Event :=
  [MainSide.EvSet 0 (MainSide.Transaction 0 T_setInterval
                       (MainSide.Plain 7%nat) 1000 [3]);
   MainSide.EvPost (SetTimerMessage 0 T_setInterval 1000);
   MainSide.EvReturn 0;
   MainSide.EvCall 0 7%nat [3]].

Definition interval_fired_twice_state : Protocol.System :=
  Protocol.MkSystem
    (MainSide.MkState
       {[ 0 := MainSide.Transaction 0 T_setInterval
                 (MainSide.Plain 7%nat) 1000 [3] ]} 1)
    (WorkerSide.MkState
       {[ 0 := 1 ]}
       {[ 1 := WorkerSide.MkNativeTimer T_setInterval
                 (WorkerSide.InvokeOnly 0) 1000 ]})
    [] [FromWorker 0 T_invoke] false.

(** A timeout whose callback throws when it is called. *)
Definition timeout_throws : list Protocol.Label :=
  [Protocol.L_call (MainSide.Call_setTimeout 7%nat None []);
   Protocol.L_worker_receive 1;
   Protocol.L_fire 1;
   Protocol.L_main_receive (MainSide.MkUserRun [] (Some 13%nat))].

Definition timeout_throws_trace : list MainSide.Event :=
  [MainSide.EvSet 0 (MainSide.Transaction 0 T_setTimeout
                       (MainSide.Wrapper 7%nat 0) 0 []);
   MainSide.EvPost (SetTimerMessage 0 T_setTimeout 0);
   MainSide.EvReturn 0;
   MainSide.EvCall 0 7%nat []].

Definition timeout_throws_state : Protocol.System :=
  Protocol.MkSystem
    (MainSide.MkState
       {[ 0 := MainSide.Transaction 0 T_setTimeout
                 (MainSide.Wrapper 7%nat 0) 0 [] ]} 1)
    WorkerSide.initial [] [] false.


(** ** The objects of the module, one by one *)

Module Objects.

(** What object [r] does in a trace of the module. *)
Definition on (r : nat) (T : list Index.Event) : list MainSide.Event :=
  omap (fun e => match e with
                 | Index.EvOn r' e' => if Nat.eqb r' r then Some e' else None
                 | _ => None
                 end) T.

(** Every object of [ms] is in a state its own protocol reaches from the
    initial state, with the main-side trace that [T] records for it; [T]
    records nothing for objects that do not exist yet. *)
Definition tracked (ms : Index.State) (T : list Index.Event) : Prop :=
  (forall r o, Index.objects ms !! r = Some o ->
     exists ls, Protocol.steps ls Protocol.initial
                = Some (Index.wt_system o, on r T))
  /\ (forall r, (length (Index.objects ms) <= r)%nat -> on r T = []).

(** A task of the module keeps that. *)
Definition tracks {A : Type} (f : Index.M A) : Prop :=
  forall ms T, tracked ms T ->
               tracked (state_of (f ms)) (T ++ trace_of (f ms)).

End Objects.

(** Two WorkerTimers created explicitly; each schedules one timer. *)
Definition two_objects : list Index.Input :=
  [Index.InCreate host_ok;
   Index.InCreate host_ok;
   Index.InObject 0
     (Protocol.L_call (MainSide.Call_setTimeout 7%nat None []));
   Index.InObject 1
     (Protocol.L_call (MainSide.Call_setInterval 8%nat (Some 5) []))].


(** ** The earlier [createWorkerTimer] *)

(** The earlier version of the main side: [setTimer] stores the user's
    function itself for both types and takes a required [duration];
    [clearTimer] takes [(id, type)]; the listener is the same. *)
Module Legacy.

Local Open Scope task_scope.

(** [type TimerTransaction = { id, type, func, duration, args }], with
    the user's function as [func]. *)
Record TimerTransaction : Type := Transaction {
  tx_id : TimerId;
  tx_type : SetType;
  tx_func : TimerHandler;
  tx_duration : Z;
  tx_args : list Value
}.

Record State : Type := MkState {
  idMap : gmap Z TimerTransaction;
  seq : Z
}.

Inductive Event : Type :=
| EvSet (id : TimerId) (t : TimerTransaction)  (* idMap.set(id, t) *)
| EvDelete (id : TimerId)                      (* idMap.delete(id) *)
| EvPost (m : MessageToWorker)                 (* worker.postMessage(m) *)
| EvTerminate                                  (* worker.terminate() *)
| EvCall (id : TimerId) (func : TimerHandler) (args : list Value)
| EvReturn (id : TimerId).                     (* setTimer returns id *)

Definition M (A : Type) : Type := Task State Event A.

Definition initial : State := {| idMap := ∅; seq := 0 |}.

(** [() => seq++] *)
Definition nextId : M TimerId :=
  fun s => (Normal (seq s), {| idMap := idMap s; seq := seq s + 1 |}, []).

Definition idMap_get (id : TimerId) : M (option TimerTransaction) :=
  gets (fun s => idMap s !! id).

Definition idMap_set (id : TimerId) (t : TimerTransaction) : M unit :=
  emit (EvSet id t) ;;;
  modify (fun s => {| idMap := <[id := t]> (idMap s); seq := seq s |}).

Definition idMap_delete (id : TimerId) : M unit :=
  emit (EvDelete id) ;;;
  modify (fun s => {| idMap := delete id (idMap s); seq := seq s |}).

Definition postMessage (m : MessageToWorker) : M unit := emit (EvPost m).

(** [setTimer(type, func, duration, ...args)] *)
Definition setTimer (type : SetType) (func : TimerHandler) (duration : Z)
    (args : list Value) : M TimerId :=
  id <- nextId ;;
  idMap_set id (Transaction id type func duration args) ;;;
  postMessage (SetTimerMessage id type duration) ;;;
  emit (EvReturn id) ;;;
  ret id.

(** [clearTimer(id, type)] *)
Definition clearTimer (id : TimerId) (type : ClearType) : M unit :=
  postMessage (ClearTimerMessage id type) ;;;
  idMap_delete id.

Inductive ApiCall : Type :=
| Call_setTimeout (func : TimerHandler) (duration : Z) (args : list Value)
| Call_setInterval (func : TimerHandler) (duration : Z) (args : list Value)
| Call_clearTimeout (id : TimerId)
| Call_clearInterval (id : TimerId)
| Call_terminate.

Definition call (c : ApiCall) : M (option TimerId) :=
  match c with
  | Call_setTimeout func duration args =>
      id <- setTimer T_setTimeout func duration args ;; ret (Some id)
  | Call_setInterval func duration args =>
      id <- setTimer T_setInterval func duration args ;; ret (Some id)
  | Call_clearTimeout id => clearTimer id T_clearTimeout ;;; ret None
  | Call_clearInterval id => clearTimer id T_clearInterval ;;; ret None
  | Call_terminate => emit EvTerminate ;;; ret None
  end.

Fixpoint calls (cs : list ApiCall) : M unit :=
  match cs with
  | [] => ret tt
  | c :: cs' => call c ;;; calls cs'
  end.

(** What one run of a user callback does: the calls it makes on this
    [WorkerTimer], and whether it then throws. *)
Record UserRun : Type := MkUserRun {
  ur_calls : list ApiCall;
  ur_throws : option Exn
}.

(** [transaction.func(...transaction.args)] *)
Definition call_user (u : UserRun) (id : TimerId) (func : TimerHandler)
    (args : list Value) : M unit :=
  emit (EvCall id func args) ;;;
  calls (ur_calls u) ;;;
  match ur_throws u with
  | Some e => throw e
  | None => ret tt
  end.

(** The ['message'] listener registered on the worker. *)
Definition onmessage (u : UserRun) (message : MessageFromWorker) : M unit :=
  let id := msg_id message in
  let type := msg_type message in
  transaction <- idMap_get id ;;
  match transaction with
  | None => ret tt
  | Some transaction =>
      match type with
      | T_invoke => call_user u id (tx_func transaction) (tx_args transaction)
      | T_clear => idMap_delete id
      end
  end.

Inductive Input : Type :=
| InCall (c : ApiCall)
| InMessage (u : UserRun) (message : MessageFromWorker).

Definition handle (i : Input) : M unit :=
  match i with
  | InCall c => call c ;;; ret tt
  | InMessage u message => onmessage u message
  end.

(** Running inputs one after the other; an exception ends its turn
    only. *)
Fixpoint run (inputs : list Input) (s : State) : State * list Event :=
  match inputs with
  | [] => (s, [])
  | i :: inputs' =>
      let '(_, s1, t1) := handle i s in
      let '(s2, t2) := run inputs' s1 in
      (s2, t1 ++ t2)
  end.

Definition returned (t : list Event) : list TimerId :=
  omap (fun e => match e with EvReturn id => Some id | _ => None end) t.

Definition called_for (id : TimerId) (e : Event) : bool :=
  match e with
  | EvCall id' _ _ => bool_decide (id' = id)
  | _ => false
  end.

(** A call that is not a cancel. *)
Definition no_cancel (c : ApiCall) : bool :=
  match c with
  | Call_clearTimeout _ | Call_clearInterval _ => false
  | _ => true
  end.

(** An input in which nothing is cancelled: a call that is not a cancel,
    or the delivery of an ['invoke'] notification (the only kind the
    worker sends) to a callback that cancels nothing. *)
Definition grows_only (i : Input) : bool :=
  match i with
  | InCall c => no_cancel c
  | InMessage u message =>
      forallb no_cancel (ur_calls u)
      && match msg_type message with T_invoke => true | T_clear => false end
  end.

(** Every id handed out so far has its transaction. *)
Definition keeps (m : State) : Prop :=
  0 <= seq m
  /\ forall id, 0 <= id < seq m ->
       exists t, idMap m !! id = Some t /\ tx_id t = id.

(** From [m], the trace [t] leads to [m'], which keeps every
    transaction; the ids returned on the way are the next ones. *)
Definition grown (m : State) (t : list Event) (m' : State) : Prop :=
  keeps m'
  /\ seq m' = seq m + Z.of_nat (length (returned t))
  /\ returned t = MainTrace.ids_from (seq m) (length (returned t)).

End Legacy.

(** A timeout of the earlier version whose notification is delivered
    twice. *)
Definition legacy_timeout_fired : list Legacy.Input :=
  [Legacy.InCall (Legacy.Call_setTimeout 7%nat 0 []);
   Legacy.InMessage (Legacy.MkUserRun [] None) (FromWorker 0 T_invoke);
   Legacy.InMessage (Legacy.MkUserRun [] None) (FromWorker 0 T_invoke)].


(** A timeout scheduled and received by the worker, then [terminate()],
    then [clearTimeout(0)]: the cancel is queued for a worker that
    handles nothing any more. *)
Definition terminated_then_cancelled : list Protocol.Label :=
  [Protocol.L_call (MainSide.Call_setTimeout 7%nat (Some 50) []);
   Protocol.L_worker_receive 1;
   Protocol.L_call MainSide.Call_terminate;
   Protocol.L_call (MainSide.Call_clearTimeout 0)].

Definition terminated_then_cancelled_trace : list MainSide.Event :=
  [MainSide.EvSet 0 (MainSide.Transaction 0 T_setTimeout
                       (MainSide.Wrapper 7%nat 0) 50 []);
   MainSide.EvPost (SetTimerMessage 0 T_setTimeout 50);
   MainSide.EvReturn 0;
   MainSide.EvTerminate;
   MainSide.EvPost (ClearTimerMessage 0 T_clearTimeout);
   MainSide.EvDelete 0].

Definition terminated_then_cancelled_state : Protocol.System :=
  Protocol.MkSystem (MainSide.MkState ∅ 1)
    (WorkerSide.MkState
       {[ 0 := 1 ]}
       {[ 1 := WorkerSide.MkNativeTimer T_setTimeout
                 (WorkerSide.InvokeAndDelete 0) 50 ]})
    [ClearTimerMessage 0 T_clearTimeout] [] true.


(** ** Sanity checks *)

Example setTimer_first :
  MainSide.setTimer T_setTimeout 7%nat None [] MainSide.initial
  = (Normal 0,
     MainSide.MkState
       {[ 0 := MainSide.Transaction 0 T_setTimeout (MainSide.Wrapper 7%nat 0) 0 [] ]} 1,
     [MainSide.EvSet 0 (MainSide.Transaction 0 T_setTimeout (MainSide.Wrapper 7%nat 0) 0 []);
      MainSide.EvPost (SetTimerMessage 0 T_setTimeout 0);
      MainSide.EvReturn 0]).
Proof. reflexivity. Qed.

Example interval_survives_invoke :
  MainSide.onmessage user_returns (FromWorker 0 T_invoke) one_interval
  = (Normal tt, one_interval, [MainSide.EvCall 0 7%nat []]).
Proof. reflexivity. Qed.

Example interval_cancelled_by_its_callback :
  MainSide.onmessage
    (MainSide.MkUserRun [MainSide.Call_clearInterval 0] None)
    (FromWorker 0 T_invoke) one_interval
  = (Normal tt, MainSide.MkState ∅ 1,
     [MainSide.EvCall 0 7%nat [];
      MainSide.EvPost (ClearTimerMessage 0 T_clearInterval);
      MainSide.EvDelete 0]).
Proof. reflexivity. Qed.

Example timeout_removed_after_invoke :
  MainSide.onmessage user_returns (FromWorker 0 T_invoke) one_timeout
  = (Normal tt, MainSide.MkState ∅ 1,
     [MainSide.EvCall 0 7%nat []; MainSide.EvDelete 0]).
Proof. reflexivity. Qed.

Example blob_fallback :
  CreateWorker.createWorker host_data_url_blocked Index._timerWorker
    (Some CreateWorker.TypeModule) tt
  = (Normal 12%nat, tt,
     [CreateWorker.H_dataUrl 0%nat;
      CreateWorker.H_objectUrl 0%nat;
      CreateWorker.H_newWorker 2%nat (Some CreateWorker.TypeModule);
      CreateWorker.H_revokeObjectURL 2%nat]).
Proof. reflexivity. Qed.

Example race_outcome :
  Protocol.steps race Protocol.initial
  = Some (Protocol.MkSystem (MainSide.MkState ∅ 1) WorkerSide.initial
            [] [] false,
          [MainSide.EvSet 0 (MainSide.Transaction 0 T_setTimeout
                               (MainSide.Wrapper 7%nat 0) 0 []);
           MainSide.EvPost (SetTimerMessage 0 T_setTimeout 0);
           MainSide.EvReturn 0;
           MainSide.EvPost (ClearTimerMessage 0 T_clearTimeout);
           MainSide.EvDelete 0]).
Proof. vm_compute. reflexivity. Qed.

Example interval_running_outcome :
  Protocol.steps interval_running Protocol.initial
  = Some (Protocol.MkSystem
            (MainSide.MkState
               {[ 0 := MainSide.Transaction 0 T_setInterval
                         (MainSide.Plain 7%nat) 1000 [] ]} 1)
            (WorkerSide.MkState
               {[ 0 := 1 ]}
               {[ 1 := WorkerSide.MkNativeTimer T_setInterval
                         (WorkerSide.InvokeOnly 0) 1000 ]})
            [] [FromWorker 0 T_invoke] false,
          [MainSide.EvSet 0 (MainSide.Transaction 0 T_setInterval
                               (MainSide.Plain 7%nat) 1000 []);
           MainSide.EvPost (SetTimerMessage 0 T_setInterval 1000);
           MainSide.EvReturn 0]).
Proof. vm_compute. reflexivity. Qed.

Example results_of_five_calls :
  results [MainSide.Call_setInterval 7%nat (Some 1000) [];
           MainSide.Call_setTimeout 8%nat None [5];
           MainSide.Call_clearInterval 0;
           MainSide.Call_clearTimeout 9;
           MainSide.Call_setTimeout 8%nat (Some 0) []] MainSide.initial
  = [Some 0; Some 1; None; None; Some 2].
Proof. reflexivity. Qed.

(** ** Handlers and calls, one at a time *)

Lemma onmessage_absent (u : MainSide.UserRun) (message : MessageFromWorker)
    (m : MainSide.State) :
  MainSide.idMap m !! msg_id message = None ->
  MainSide.onmessage u message m = (Normal tt, m, []).
Proof.
  intros Hnone.
  unfold MainSide.onmessage, MainSide.idMap_get, gets, bind.
  rewrite Hnone. reflexivity.
Qed.

(** C7. A notification whose id has no transaction in the registry is
    dropped: the listener returns normally, performs no operation at all
    (no callback is called, nothing is posted) and leaves the state as it
    was, whatever the tag of the message and whatever the user's code
    would have done. *)
Theorem onmessage_unknown_id_dropped :
  forall (u : MainSide.UserRun) (message : MessageFromWorker)
         (m : MainSide.State),
    MainSide.idMap m !! msg_id message = None ->
    MainSide.onmessage u message m = (Normal tt, m, []).
Proof. intros u message m Hnone. by apply onmessage_absent. Qed.

Lemma onmessage_unknown_id_dropped_witness :
  MainSide.onmessage (MainSide.MkUserRun [] (Some 1%nat))
    (FromWorker 5 T_invoke) MainSide.initial
  = (Normal tt, MainSide.initial, []).
Proof.
  apply (onmessage_unknown_id_dropped
           (MainSide.MkUserRun [] (Some 1%nat)) (FromWorker 5 T_invoke)
           MainSide.initial).
  reflexivity.
Defined.

Lemma main_state_eq (m : MainSide.State) (im : gmap Z MainSide.TimerTransaction) :
  im = MainSide.idMap m -> MainSide.MkState im (MainSide.seq m) = m.
Proof. intros ->. by destruct m. Qed.

Lemma clearTimer_eq (type : ClearType) (id : TimerId) (m : MainSide.State) :
  MainSide.clearTimer type id m
  = (Normal tt,
     MainSide.MkState (delete id (MainSide.idMap m)) (MainSide.seq m),
     [MainSide.EvPost (ClearTimerMessage id type); MainSide.EvDelete id]).
Proof. reflexivity. Qed.

Lemma worker_clear_eq (h : Z) (type : ClearType) (id : TimerId)
    (w : WorkerSide.State) :
  WorkerSide.onmessage h (ClearTimerMessage id type) w
  = (Normal tt,
     WorkerSide.MkState
       (delete id (WorkerSide.idMap w))
       (match WorkerSide.idMap w !! id with
        | Some n => delete n (WorkerSide.timers w)
        | None => WorkerSide.timers w
        end),
     [WorkerSide.EvNativeClear type (WorkerSide.idMap w !! id);
      WorkerSide.EvDelete id]).
Proof.
  unfold WorkerSide.onmessage, WorkerSide.idMap_get, gets, bind.
  destruct (WorkerSide.idMap w !! id); reflexivity.
Qed.

(** C6. On a [SetTimerMessage] the worker calls the native primitive
    named by the message's type, once, with the message's duration and a
    callback for the message's id, and stores the handle it gets under
    that id. Running the callback posts exactly the invoke message of
    that id; it deletes the worker's entry of the id exactly when the
    type is ['setTimeout'], and otherwise leaves the worker's [idMap]
    alone. *)
Theorem worker_onmessage_set :
  forall (h : Z) (id : TimerId) (type : SetType) (duration : Z)
         (w : WorkerSide.State),
    let callback :=
      match type with
      | T_setTimeout => WorkerSide.InvokeAndDelete id
      | T_setInterval => WorkerSide.InvokeOnly id
      end in
    WorkerSide.onmessage h (SetTimerMessage id type duration) w
    = (Normal tt,
       WorkerSide.MkState
         (<[id := h]> (WorkerSide.idMap w))
         (<[h := WorkerSide.MkNativeTimer type callback duration]>
            (WorkerSide.timers w)),
       [WorkerSide.EvNativeSet type callback duration h;
        WorkerSide.EvSet id h])
    /\ (forall w' : WorkerSide.State,
          outcome_of (WorkerSide.run_callback callback w') = Normal tt
          /\ WorkerSide.posted (trace_of (WorkerSide.run_callback callback w'))
             = [FromWorker id T_invoke]
          /\ (In (WorkerSide.EvDelete id)
                 (trace_of (WorkerSide.run_callback callback w'))
              <-> type = T_setTimeout)
          /\ WorkerSide.idMap (state_of (WorkerSide.run_callback callback w'))
             = match type with
               | T_setTimeout => delete id (WorkerSide.idMap w')
               | T_setInterval => WorkerSide.idMap w'
               end
          /\ WorkerSide.timers (state_of (WorkerSide.run_callback callback w'))
             = WorkerSide.timers w').
Proof.
  intros h id type duration w callback. split.
  - subst callback. destruct type; reflexivity.
  - intros w'. subst callback.
    destruct type; simpl; (split; [reflexivity |]); (split; [reflexivity |]);
      (split; [| split; reflexivity]).
    + split; [done | intros _; right; by left].
    + split; [| done]. intros [H | []]. discriminate H.
Qed.

(** ** Worker construction *)

Section CreateWorkerFacts.

Context {S : Type} (host : CreateWorker.Host).

Lemma createWorkerWithDataUrl_eq (f : CreateWorker.Fn)
    (options : option CreateWorker.WorkerOptions) (s : S) :
  CreateWorker.createWorkerWithDataUrl host f options s
  = match CreateWorker.host_dataUrl host f with
    | Normal url =>
        (CreateWorker.host_newWorker host url options, s,
         [CreateWorker.H_dataUrl f; CreateWorker.H_newWorker url options])
    | Throws e => (Throws e, s, [CreateWorker.H_dataUrl f])
    end.
Proof.
  unfold CreateWorker.createWorkerWithDataUrl, CreateWorker.functionToDataUrl,
    CreateWorker.new_Worker, host_result, emit, bind.
  destruct (CreateWorker.host_dataUrl host f) as [url | e]; [| reflexivity].
  destruct (CreateWorker.host_newWorker host url options); reflexivity.
Qed.

Lemma createWorkerWithBlob_eq (f : CreateWorker.Fn)
    (options : option CreateWorker.WorkerOptions) (s : S) :
  CreateWorker.createWorkerWithBlob host f options s
  = match CreateWorker.host_objectUrl host f with
    | Normal url =>
        match CreateWorker.host_newWorker host url options with
        | Normal w =>
            (Normal w, s,
             [CreateWorker.H_objectUrl f;
              CreateWorker.H_newWorker url options;
              CreateWorker.H_revokeObjectURL url])
        | Throws e =>
            (Throws e, s,
             [CreateWorker.H_objectUrl f;
              CreateWorker.H_newWorker url options])
        end
    | Throws e => (Throws e, s, [CreateWorker.H_objectUrl f])
    end.
Proof.
  unfold CreateWorker.createWorkerWithBlob, CreateWorker.functionToObjectUrl,
    CreateWorker.new_Worker, CreateWorker.revokeObjectURL, host_result, emit,
    ret, bind.
  destruct (CreateWorker.host_objectUrl host f) as [url | e]; [| reflexivity].
  destruct (CreateWorker.host_newWorker host url options); reflexivity.
Qed.

Lemma createWorkerWithDataUrl_state (f : CreateWorker.Fn)
    (options : option CreateWorker.WorkerOptions) (s : S) :
  state_of (CreateWorker.createWorkerWithDataUrl host f options s) = s.
Proof.
  rewrite createWorkerWithDataUrl_eq.
  destruct (CreateWorker.host_dataUrl host f); reflexivity.
Qed.

Lemma createWorkerWithDataUrl_no_blob (f : CreateWorker.Fn)
    (options : option CreateWorker.WorkerOptions) (s : S) :
  CreateWorker.uses_blob
    (trace_of (CreateWorker.createWorkerWithDataUrl host f options s))
  = false.
Proof.
  rewrite createWorkerWithDataUrl_eq.
  destruct (CreateWorker.host_dataUrl host f); reflexivity.
Qed.

Lemma createWorkerWithBlob_uses_blob (f : CreateWorker.Fn)
    (options : option CreateWorker.WorkerOptions) (s : S) :
  CreateWorker.uses_blob
    (trace_of (CreateWorker.createWorkerWithBlob host f options s))
  = true.
Proof.
  rewrite createWorkerWithBlob_eq.
  destruct (CreateWorker.host_objectUrl host f) as [url | e]; [| reflexivity].
  destruct (CreateWorker.host_newWorker host url options); reflexivity.
Qed.

(** [createWorker] in terms of its two strategies. *)
Lemma createWorker_cases (f : CreateWorker.Fn)
    (options : option CreateWorker.WorkerOptions) (s : S) :
  let A := CreateWorker.createWorkerWithDataUrl host f options s in
  let B := CreateWorker.createWorkerWithBlob host f options s in
  CreateWorker.createWorker host f options s
  = match outcome_of A with
    | Normal w => A
    | Throws _ => (outcome_of B, state_of B, trace_of A ++ trace_of B)
    end.
Proof.
  intros A B.
  pose proof (createWorkerWithDataUrl_state f options s) as Hst.
  fold A in Hst. unfold CreateWorker.createWorker, try_catch.
  fold A. destruct A as [[[w | e] s1] t1]; [reflexivity |].
  unfold state_of in Hst; cbn [fst snd] in Hst. subst s1. fold B.
  destruct B as [[r s2] t2]. reflexivity.
Qed.

End CreateWorkerFacts.

Lemma existsb_app_false {A : Type} (p : A -> bool) (l1 l2 : list A) :
  existsb p l1 = false -> existsb p (l1 ++ l2) = existsb p l2.
Proof. intros H. by rewrite existsb_app, H. Qed.

Lemma createWorker_state {S : Type} (host : CreateWorker.Host)
    (f : CreateWorker.Fn) (options : option CreateWorker.WorkerOptions)
    (s : S) :
  state_of (CreateWorker.createWorker host f options s) = s.
Proof.
  rewrite createWorker_cases.
  pose proof (createWorkerWithDataUrl_state host f options s) as HA.
  destruct (outcome_of (CreateWorker.createWorkerWithDataUrl host f options s));
    [exact HA |].
  unfold state_of at 1; cbn [fst snd]. rewrite createWorkerWithBlob_eq.
  destruct (CreateWorker.host_objectUrl host f) as [url | e']; [| reflexivity].
  destruct (CreateWorker.host_newWorker host url options); reflexivity.
Qed.

(** [createWorkerTimer] in terms of [createWorker]: an object is made
    only once the worker exists. *)
Lemma createWorkerTimer_eq (host : CreateWorker.Host) (ms : Index.State) :
  let W := CreateWorker.createWorker host Index._timerWorker
             (Some CreateWorker.TypeModule) ms in
  Index.createWorkerTimer host ms
  = match outcome_of W with
    | Normal w =>
        (Normal (length (Index.objects ms)),
         Index.MkState (Index.defaultWorkerTimer ms)
           (Index.objects ms ++ [Index.MkWorkerTimer w Protocol.initial]),
         (Index.EvHost <$> trace_of W)
           ++ [Index.EvCreated (length (Index.objects ms)) w])
    | Throws e => (Throws e, ms, Index.EvHost <$> trace_of W)
    end.
Proof.
  intros W. pose proof (createWorker_state host Index._timerWorker
                          (Some CreateWorker.TypeModule) ms) as Hst.
  fold W in Hst. unfold Index.createWorkerTimer, map_events, bind.
  fold W. destruct W as [[[w | e] s1] t1];
    unfold state_of in Hst; cbn [fst snd] in Hst; subst s1; reflexivity.
Qed.

Lemma getWorkerTimer_eq (host : CreateWorker.Host) (ms : Index.State) :
  Index.getWorkerTimer host ms
  = match Index.defaultWorkerTimer ms with
    | Some r => (Normal r, ms, [])
    | None =>
        match Index.createWorkerTimer host ms with
        | (Normal r, ms1, t) =>
            (Normal r, Index.MkState (Some r) (Index.objects ms1),
             t ++ [Index.EvDefault r])
        | (Throws e, ms1, t) => (Throws e, ms1, t)
        end
    end.
Proof.
  unfold Index.getWorkerTimer, gets, bind at 1.
  destruct (Index.defaultWorkerTimer ms) as [r |]; [reflexivity |].
  unfold bind, modify, emit, ret.
  destruct (Index.createWorkerTimer host ms) as [[[r | e] ms1] t];
    reflexivity.
Qed.

Lemma bare_eq (host : CreateWorker.Host) (c : MainSide.ApiCall)
    (ms : Index.State) :
  Index.bare host c ms
  = match Index.getWorkerTimer host ms with
    | (Normal r, ms1, t1) =>
        let '(res, ms2, t2) := Index.method r c ms1 in (res, ms2, t1 ++ t2)
    | (Throws e, ms1, t1) => (Throws e, ms1, t1)
    end.
Proof. destruct c; reflexivity. Qed.

(** C9. [createWorker] first runs the data-URL strategy. The blob
    strategy runs if and only if the data-URL strategy throws, and then
    the result is the blob strategy's. When both throw, the error of the
    blob strategy is what [createWorker] throws, and [createWorkerTimer]
    and the bare functions that reach it let the error through: they
    throw the same error, create no object and leave the module state as
    it was. *)
Theorem createWorker_fallback :
  forall (S : Type) (host : CreateWorker.Host) (f : CreateWorker.Fn)
         (options : option CreateWorker.WorkerOptions) (s : S),
    let A := CreateWorker.createWorkerWithDataUrl host f options s in
    let B := CreateWorker.createWorkerWithBlob host f options s in
    let R := CreateWorker.createWorker host f options s in
    (exists rest, trace_of R = trace_of A ++ rest)
    /\ (CreateWorker.uses_blob (trace_of R) = true
        <-> exists e, outcome_of A = Throws e)
    /\ (forall w, outcome_of A = Normal w -> R = A)
    /\ (forall e, outcome_of A = Throws e ->
          outcome_of R = outcome_of B
          /\ trace_of R = trace_of A ++ trace_of B)
    /\ (forall e1 e2,
          outcome_of A = Throws e1 -> outcome_of B = Throws e2 ->
          outcome_of R = Throws e2)
    /\ (forall (ms : Index.State) e2,
          outcome_of (CreateWorker.createWorker host Index._timerWorker
                        (Some CreateWorker.TypeModule) ms) = Throws e2 ->
          outcome_of (Index.createWorkerTimer host ms) = Throws e2
          /\ state_of (Index.createWorkerTimer host ms) = ms
          /\ forall c : MainSide.ApiCall,
               Index.defaultWorkerTimer ms = None ->
               outcome_of (Index.bare host c ms) = Throws e2
               /\ state_of (Index.bare host c ms) = ms).
Proof.
  intros S host f options s A B R.
  pose proof (createWorker_cases host f options s) as HR.
  cbv zeta in HR. fold A B R in HR.
  pose proof (createWorkerWithDataUrl_no_blob host f options s) as HA.
  pose proof (createWorkerWithBlob_uses_blob host f options s) as HB.
  fold A in HA. fold B in HB.
  assert (Hmod : forall (ms : Index.State) e2,
    outcome_of (CreateWorker.createWorker host Index._timerWorker
                  (Some CreateWorker.TypeModule) ms) = Throws e2 ->
    outcome_of (Index.createWorkerTimer host ms) = Throws e2
    /\ state_of (Index.createWorkerTimer host ms) = ms
    /\ forall c : MainSide.ApiCall,
         Index.defaultWorkerTimer ms = None ->
         outcome_of (Index.bare host c ms) = Throws e2
         /\ state_of (Index.bare host c ms) = ms).
  { intros ms e2 Hthrow.
    pose proof (createWorkerTimer_eq host ms) as Hc. cbv zeta in Hc.
    rewrite Hthrow in Hc. split; [by rewrite Hc | split; [by rewrite Hc |]].
    intros c Hnone. rewrite bare_eq, getWorkerTimer_eq, Hnone, Hc. done. }
  destruct (outcome_of A) as [w | e] eqn:HoA.
  - rewrite HR. split; [exists []; by rewrite app_nil_r |].
    split; [| split; [done | split; [| split]]];
      [| intros; discriminate | intros; discriminate | exact Hmod].
    rewrite HA. split; [discriminate | intros [e He]; discriminate].
  - rewrite HR. unfold trace_of at 1 3 5, outcome_of at 1 3; cbn [fst snd].
    split; [by eexists |].
    split; [| split; [intros; discriminate | split; [| split]]];
      [| | | exact Hmod].
    + unfold CreateWorker.uses_blob in *.
      rewrite existsb_app_false by exact HA. rewrite HB. split; eauto.
    + intros e' _. split; reflexivity.
    + intros e1 e2 _ HoB. exact HoB.
Qed.

Lemma createWorker_fallback_witness :
  outcome_of (Index.bare host_all_throw MainSide.Call_terminate Index.initial)
  = Throws 2%nat
  /\ state_of (Index.bare host_all_throw MainSide.Call_terminate Index.initial)
     = Index.initial.
Proof.
  destruct (createWorker_fallback Index.State host_all_throw
              Index._timerWorker (Some CreateWorker.TypeModule) Index.initial)
    as (_ & _ & _ & _ & _ & Hmod).
  destruct (Hmod Index.initial 2%nat eq_refl) as (_ & _ & Hbare).
  apply Hbare. reflexivity.
Defined.

(** ** Main-side traces replay *)

Section MainSound.

Import MainSide MainTrace.

Lemma replay_app (T1 T2 : list Event) (x : State * Pending) :
  replay (T1 ++ T2) x
  = match replay T1 x with
    | Some y => replay T2 y
    | None => None
    end.
Proof.
  revert x. induction T1 as [| e T1 IH]; intros x; simpl; [reflexivity |].
  destruct (observe e x); [apply IH | reflexivity].
Qed.

Lemma sound_ret {A : Type} (a : A) : sound (ret a).
Proof. intros m. reflexivity. Qed.

Lemma sound_throw {A : Type} (e : Exn) : sound (@throw State Event A e).
Proof. intros m. reflexivity. Qed.

Lemma sound_bind {A B : Type} (f : M A) (k : A -> M B) :
  sound f -> (forall a, sound (k a)) -> sound (bind f k).
Proof.
  intros Hf Hk m. specialize (Hf m). unfold bind.
  destruct (f m) as [[[a | e] s1] t1]; unfold trace_of, state_of in *;
    cbn [fst snd] in *; [| exact Hf].
  specialize (Hk a s1).
  destruct (k a s1) as [[r s2] t2]; unfold trace_of, state_of in *;
    cbn [fst snd] in *.
  rewrite replay_app, Hf. exact Hk.
Qed.

Lemma setTimer_eq (type : SetType) (func : TimerHandler)
    (duration : option Z) (args : list Value) (m : State) :
  let id := seq m in
  let t := Transaction id type
             (match type with
              | T_setTimeout => Wrapper func id
              | T_setInterval => Plain func
              end) (default 0 duration) args in
  setTimer type func duration args m
  = (Normal id, MkState (<[id := t]> (idMap m)) (id + 1),
     [EvSet id t; EvPost (SetTimerMessage id type (default 0 duration));
      EvReturn id]).
Proof. destruct type; reflexivity. Qed.

Lemma setTimer_sound type func duration args :
  sound (setTimer type func duration args).
Proof.
  intros m. rewrite setTimer_eq. unfold trace_of, state_of; cbn [fst snd].
  cbn [replay observe]. rewrite decide_True.
  - cbn [replay observe tx_type tx_duration].
    rewrite decide_True by reflexivity. cbn [replay observe].
    rewrite decide_True by reflexivity. reflexivity.
  - cbn [tx_id]. split; [reflexivity | split; [reflexivity |]].
    unfold func_matches. destruct type; reflexivity.
Qed.

Lemma idMap_delete_sound id : sound (idMap_delete id).
Proof. intros m. reflexivity. Qed.

Lemma clearTimer_sound type id : sound (clearTimer type id).
Proof.
  intros m. rewrite clearTimer_eq. unfold trace_of, state_of; cbn [fst snd].
  cbn [replay observe]. rewrite decide_True by reflexivity. reflexivity.
Qed.

Lemma call_sound c : sound (call c).
Proof.
  destruct c; cbn [call].
  - apply sound_bind; [apply setTimer_sound | intros; apply sound_ret].
  - apply sound_bind; [apply setTimer_sound | intros; apply sound_ret].
  - apply sound_bind; [apply clearTimer_sound | intros; apply sound_ret].
  - apply sound_bind; [apply clearTimer_sound | intros; apply sound_ret].
  - apply sound_bind; [| intros; apply sound_ret]. intros m. reflexivity.
Qed.

Lemma calls_sound cs : sound (calls cs).
Proof.
  induction cs as [| c cs IH]; cbn [calls]; [apply sound_ret |].
  apply sound_bind; [apply call_sound | intros _; exact IH].
Qed.

(** What a run of the user's function leaves behind. *)
Lemma call_user_eq u id func args m :
  call_user u id func args m
  = (match outcome_of (calls (ur_calls u) m), ur_throws u with
     | Normal _, Some e => Throws e
     | Normal _, None => Normal tt
     | Throws e, _ => Throws e
     end,
     state_of (calls (ur_calls u) m),
     EvCall id func args :: trace_of (calls (ur_calls u) m)).
Proof.
  unfold call_user, bind, emit.
  destruct (calls (ur_calls u) m) as [[[[] | e] s1] t1];
    unfold outcome_of, state_of, trace_of; cbn [fst snd].
  - destruct (ur_throws u); cbn; by rewrite app_nil_r.
  - reflexivity.
Qed.

(** The calls of the WorkerTimer never throw. *)
Lemma call_normal c m : exists r, outcome_of (call c m) = Normal r.
Proof.
  destruct c; cbn [call]; unfold bind; try rewrite setTimer_eq; eauto.
Qed.

Lemma calls_normal cs m : outcome_of (calls cs m) = Normal tt.
Proof.
  revert m. induction cs as [| c cs IH]; intros m; [reflexivity |].
  cbn [calls]. unfold bind. destruct (call_normal c m) as [r Hr].
  destruct (call c m) as [[o s1] t1]. unfold outcome_of in Hr.
  cbn [fst snd] in Hr. subst o. specialize (IH s1).
  destruct (calls cs s1) as [[o2 s2] t2]. exact IH.
Qed.

Lemma call_user_replay u id func args m t :
  idMap m !! id = Some t ->
  func = user_func (tx_func t) -> args = tx_args t ->
  replay (trace_of (call_user u id func args m)) (m, Idle)
  = Some (state_of (call_user u id func args m), Idle).
Proof.
  intros Hlook Hf Ha. rewrite call_user_eq.
  unfold trace_of at 1, state_of at 1; cbn [fst snd].
  cbn [replay observe]. rewrite Hlook. rewrite decide_True by done.
  apply calls_sound.
Qed.

Lemma onmessage_eq u message m :
  onmessage u message m
  = match idMap m !! msg_id message with
    | None => (Normal tt, m, [])
    | Some t =>
        match msg_type message with
        | T_invoke => invoke u (msg_id message) (tx_func t) (tx_args t) m
        | T_clear => idMap_delete (msg_id message) m
        end
    end.
Proof.
  unfold onmessage, idMap_get, gets, bind at 1.
  destruct (idMap m !! msg_id message) as [t |]; [| reflexivity].
  destruct (msg_type message).
  - destruct (invoke u (msg_id message) (tx_func t) (tx_args t) m)
      as [[r s1] t1]. reflexivity.
  - reflexivity.
Qed.

Lemma invoke_eq u mid f args m :
  invoke u mid f args m
  = match f with
    | Wrapper func id =>
        match call_user u mid func args m with
        | (Normal _, s1, t1) =>
            (Normal tt, MkState (delete id (idMap s1)) (seq s1),
             t1 ++ [EvDelete id])
        | (Throws e, s1, t1) => (Throws e, s1, t1)
        end
    | Plain func => call_user u mid func args m
    end.
Proof.
  destruct f as [func id | func]; [| reflexivity].
  unfold invoke, bind at 1.
  destruct (call_user u mid func args m) as [[[[] | e] s1] t1]; reflexivity.
Qed.

Lemma onmessage_sound u message : sound (onmessage u message).
Proof.
  intros m. rewrite onmessage_eq.
  destruct (idMap m !! msg_id message) as [t |] eqn:Hlook; [| reflexivity].
  destruct (msg_type message); [| apply idMap_delete_sound].
  rewrite invoke_eq.
  pose proof (call_user_replay u (msg_id message)
                (user_func (tx_func t)) (tx_args t) m t
                Hlook eq_refl eq_refl) as Hcu.
  destruct (tx_func t) as [func id' | func] eqn:Hfunc;
    cbn [user_func] in Hcu; [| exact Hcu].
  destruct (call_user u (msg_id message) func (tx_args t) m)
    as [[[[] | e] s1] t1];
    unfold trace_of, state_of in *; cbn [fst snd] in *; [| exact Hcu].
  rewrite replay_app, Hcu. reflexivity.
Qed.

Lemma handle_sound i : sound (handle i).
Proof.
  destruct i as [c | u message]; cbn [handle].
  - apply sound_bind; [apply call_sound | intros; apply sound_ret].
  - apply onmessage_sound.
Qed.

Lemma run_replay inputs m :
  replay (run inputs m).2 (m, Idle) = Some ((run inputs m).1, Idle).
Proof.
  revert m. induction inputs as [| i inputs IH]; intros m; [reflexivity |].
  cbn [run]. pose proof (handle_sound i m) as Hi.
  destruct (handle i m) as [[o s1] t1].
  unfold trace_of, state_of in Hi; cbn [fst snd] in Hi.
  specialize (IH s1). destruct (run inputs s1) as [s2 t2].
  cbn [fst snd] in *. rewrite replay_app, Hi. exact IH.
Qed.

End MainSound.

(** ** What every main-side trace satisfies *)

Section MainTraceFacts.

Import MainSide MainTrace.

Lemma wf_initial : wf initial.
Proof. split; [done |]. intros k t Hk. cbn in Hk. by rewrite lookup_empty in Hk. Qed.

Lemma wf_delete m id :
  wf m -> wf (MkState (delete id (idMap m)) (seq m)).
Proof.
  intros [Hseq Hwf]. split; [exact Hseq |]. intros k t Hk. cbn in *.
  apply lookup_delete_Some in Hk as [_ Hk]. by apply Hwf.
Qed.

Lemma observe_wfp e x y : wfp x -> observe e x = Some y -> wfp y.
Proof.
  destruct x as [m p]. intros [Hwf Hp] H. cbn [fst snd] in *.
  observe_inv H; subst; unfold wfp; cbn [fst snd seq idMap];
    try (split; [by (exact Hwf || apply wf_delete) | done]).
  destruct Hwf as [Hseq Hwf].
  destruct a as (-> & Htid & Hfm).
  split; [| reflexivity]. split; [cbn; lia |]. cbn [seq idMap].
  intros k t' Hk. destruct (decide (seq m = k)) as [<- | Hne].
  - rewrite lookup_insert_eq in Hk. injection Hk as <-.
    split; [lia | done].
  - rewrite lookup_insert_ne in Hk by done.
    destruct (Hwf k t' Hk) as (Hr & ? & ?). split; [lia | done].
Qed.

Lemma replay_wfp T x y : wfp x -> replay T x = Some y -> wfp y.
Proof.
  revert x. induction T as [| e T IH]; intros x Hx H; cbn in H.
  - by injection H as <-.
  - destruct (observe e x) as [z |] eqn:Hz; [| discriminate].
    eapply IH; [| exact H]. eapply observe_wfp; eauto.
Qed.

Lemma wfp_idle m : wf m -> wfp (m, Idle).
Proof. by split. Qed.

Lemma ids_from_elem a n x : x ∈ ids_from a n <-> a <= x < a + Z.of_nat n.
Proof.
  revert a. induction n as [| n IH]; intros a; cbn [ids_from].
  - rewrite elem_of_nil. lia.
  - rewrite elem_of_cons, IH. lia.
Qed.

Lemma ids_from_sorted a n : StronglySorted Z.lt (ids_from a n).
Proof.
  revert a. induction n as [| n IH]; intros a; cbn [ids_from];
    constructor; [apply IH |].
  apply Forall_forall. intros x Hx. apply ids_from_elem in Hx. lia.
Qed.

Lemma ids_from_NoDup a n : NoDup (ids_from a n).
Proof.
  revert a. induction n as [| n IH]; intros a; cbn [ids_from];
    constructor; [| apply IH].
  rewrite ids_from_elem. lia.
Qed.

(** The ids returned along a trace are consecutive, starting at the
    next id to return. *)
Lemma replay_returned T x y :
  wfp x -> replay T x = Some y ->
  returned T = ids_from (next_return x) (length (returned T))
  /\ next_return y = next_return x + Z.of_nat (length (returned T)).
Proof.
  revert x. induction T as [| e T IH]; intros x Hx H; cbn in H.
  - injection H as <-. cbn. split; [done | lia].
  - destruct (observe e x) as [z |] eqn:Hz; [| discriminate].
    pose proof (observe_wfp _ _ _ Hx Hz) as Hwz.
    destruct (IH z Hwz H) as [IH1 IH2]. clear IH.
    destruct x as [m p]. destruct Hx as [Hwf Hp]. cbn [fst snd] in Hp.
    observe_inv Hz; subst; unfold returned in *;
      cbn [omap option_bind list_omap mbind length ids_from] in *;
      unfold next_return in *; cbn [fst snd seq] in *;
      try (split; [exact IH1 | exact IH2]).
    + destruct a as (-> & _ & _). split; [exact IH1 | exact IH2].
    + split; [| lia]. f_equal. rewrite Hp. exact IH1.
Qed.

Lemma replay_set_ids T x y :
  wfp x -> replay T x = Some y ->
  set_ids (posted T) = ids_from (next_post x) (length (set_ids (posted T)))
  /\ next_post y = next_post x + Z.of_nat (length (set_ids (posted T))).
Proof.
  revert x. induction T as [| e T IH]; intros x Hx H; cbn in H.
  - injection H as <-. cbn. split; [done | lia].
  - destruct (observe e x) as [z |] eqn:Hz; [| discriminate].
    pose proof (observe_wfp _ _ _ Hx Hz) as Hwz.
    destruct (IH z Hwz H) as [IH1 IH2]. clear IH.
    destruct x as [m p]. destruct Hx as [Hwf Hp]. cbn [fst snd] in Hp.
    observe_inv Hz; subst; unfold set_ids, posted in *;
      cbn [omap option_bind list_omap mbind length ids_from] in *;
      unfold next_post in *; cbn [fst snd seq] in *;
      try (split; [exact IH1 | exact IH2]).
    + destruct a as (-> & _ & _). split; [exact IH1 | exact IH2].
    + split; [| lia]. f_equal. rewrite Hp. exact IH1.
Qed.

End MainTraceFacts.

(** ** The main side inside the system *)

Section SystemMain.

Import MainSide MainTrace.

Lemma step_main l s s' t :
  Protocol.step l s = Some (s', t) ->
  (Protocol.main s' = Protocol.main s /\ t = [])
  \/ exists i, state_of (handle i (Protocol.main s)) = Protocol.main s'
               /\ trace_of (handle i (Protocol.main s)) = t.
Proof.
  destruct l as [c | h | h | u]; cbn [Protocol.step]; intros H.
  - right. exists (InCall c). cbn [handle]. unfold bind, ret.
    destruct (call c (Protocol.main s)) as [[r m] t0] eqn:Hc.
    injection H as <- <-. destruct r; cbn; rewrite ?app_nil_r; done.
  - left. destruct (Protocol.terminated s); [discriminate |].
    destruct (Protocol.to_worker s) as [| event q]; [discriminate |].
    destruct (Protocol.asks_for_timer event && _); [discriminate |].
    destruct (WorkerSide.onmessage h event (Protocol.worker s))
      as [[r w] t0].
    by injection H as <- <-.
  - left. destruct (Protocol.terminated s); [discriminate |].
    destruct (WorkerSide.timers (Protocol.worker s) !! h); [| discriminate].
    destruct (WorkerSide.fire h (Protocol.worker s)) as [[r w] t0].
    by injection H as <- <-.
  - right. destruct (Protocol.terminated s); [discriminate |].
    destruct (Protocol.to_main s) as [| message q]; [discriminate |].
    exists (InMessage u message). cbn [handle].
    destruct (onmessage u message (Protocol.main s)) as [[r m] t0].
    by injection H as <- <-.
Qed.

(** The main side of a run of the system is a run of the main side on
    some inputs. *)
Lemma steps_main_run ls s s' T :
  Protocol.steps ls s = Some (s', T) ->
  exists inputs, run inputs (Protocol.main s) = (Protocol.main s', T).
Proof.
  revert s T. induction ls as [| l ls IH]; intros s T H; cbn in H.
  - injection H as <- <-. by exists [].
  - destruct (Protocol.step l s) as [[s1 t1] |] eqn:Hstep; [| discriminate].
    destruct (Protocol.steps ls s1) as [[s2 t2] |] eqn:Hrest;
      [| discriminate].
    injection H as <- <-. destruct (IH _ _ Hrest) as [inputs Hrun].
    destruct (step_main _ _ _ _ Hstep) as [[Hm ->] | (i & Hst & Htr)].
    + exists inputs. by rewrite <- Hm.
    + exists (i :: inputs). cbn [run].
      destruct (handle i (Protocol.main s)) as [[r m] t0].
      unfold state_of, trace_of in *; cbn [fst snd] in *. subst.
      by rewrite Hrun.
Qed.

Lemma run_wf inputs m : wf m -> wf (run inputs m).1.
Proof.
  intros Hwf. pose proof (run_replay inputs m) as Hr.
  apply replay_wfp in Hr; [apply Hr | by apply wfp_idle].
Qed.

Lemma steps_wf ls s s' T :
  Protocol.steps ls s = Some (s', T) ->
  wf (Protocol.main s) -> wf (Protocol.main s').
Proof.
  intros H Hwf. destruct (steps_main_run _ _ _ _ H) as [inputs Hrun].
  pose proof (run_wf inputs _ Hwf) as Hw. by rewrite Hrun in Hw.
Qed.

End SystemMain.

(** ** Identifiers *)

Lemma run_returned_ids (inputs : list MainSide.Input) :
  let ids := MainSide.returned (MainSide.run inputs MainSide.initial).2 in
  ids = MainTrace.ids_from 0 (length ids)
  /\ MainSide.seq (MainSide.run inputs MainSide.initial).1
     = Z.of_nat (length ids).
Proof.
  intros ids.
  pose proof (run_replay inputs MainSide.initial) as Hr.
  apply replay_returned in Hr; [| apply wfp_idle, wf_initial].
  destruct Hr as [Hids Hnext]. cbn in Hnext. done.
Qed.

Lemma results_numbered (cs : list MainSide.ApiCall) (m : MainSide.State) :
  results cs m = numbered cs (MainSide.seq m).
Proof.
  revert m. induction cs as [| c cs IH]; intros m; [reflexivity |].
  cbn [results numbered].
  destruct c as [f d a | f d a | i | i |]; cbn [MainSide.call is_scheduling];
    unfold bind; rewrite ?setTimer_eq, ?clearTimer_eq; cbn;
    by rewrite IH.
Qed.

(** C2. The scheduling calls of any sequence of method calls on a new
    WorkerTimer return 0, 1, 2, ... in call order, the other calls
    return nothing. More generally, over any sequence of inputs to one
    WorkerTimer (method calls from user code, messages handled, the calls
    user callbacks make while they run), the ids returned by the
    scheduling calls are, in call order, exactly 0, 1, 2, ...:
    consecutive from 0, strictly increasing, and no id is returned twice,
    whatever was removed from the registry in between. The counter
    always equals the number of ids handed out. *)
Theorem returned_ids_consecutive :
  forall (cs : list MainSide.ApiCall) (inputs : list MainSide.Input),
    let ids := MainSide.returned (MainSide.run inputs MainSide.initial).2 in
    results cs MainSide.initial = numbered cs 0
    /\ ids = MainTrace.ids_from 0 (length ids)
    /\ ids = Z.of_nat <$> seq 0 (length ids)
    /\ StronglySorted Z.lt ids
    /\ NoDup ids
    /\ MainSide.seq (MainSide.run inputs MainSide.initial).1
       = Z.of_nat (length ids).
Proof.
  intros cs inputs ids. split; [apply results_numbered |].
  destruct (run_returned_ids inputs) as [Hids Hnext].
  fold ids in Hids, Hnext.
  assert (Hseq : forall a n,
             MainTrace.ids_from a n
             = (fun i => a + Z.of_nat i) <$> seq 0 n).
  { intros a n. revert a. induction n as [| n IH]; intros a; [done |].
    cbn [MainTrace.ids_from seq fmap list_fmap]. rewrite IH. f_equal.
    - lia.
    - rewrite <- fmap_S_seq, <- list_fmap_compose.
      apply list_fmap_ext. intros _ i _. cbn. lia. }
  split; [exact Hids |]. split; [| split; [| split]].
  - rewrite Hids at 1. rewrite Hseq. by apply list_fmap_ext.
  - rewrite Hids. apply ids_from_sorted.
  - rewrite Hids. apply ids_from_NoDup.
  - exact Hnext.
Qed.

(** C5. In every reachable state of the system, a scheduling call takes
    the current value of the counter as its id; that id is fresh (no
    earlier call returned it and the registry holds nothing under it);
    the call stores the transaction under the id, then posts exactly one
    [SetTimerMessage] with that id, the type and the duration (0 when the
    duration is omitted), and returns the id. The call can always be
    made and completes on the main side's state alone: the worker is not
    consulted, and the only change outside the main side is the one
    message appended to the queue to the worker. *)
Theorem setTimer_stores_posts_returns :
  forall (ls : list Protocol.Label) (sys : Protocol.System)
         (T : list MainSide.Event) (type : SetType) (func : TimerHandler)
         (duration : option Z) (args : list Value),
    Protocol.steps ls Protocol.initial = Some (sys, T) ->
    let m := Protocol.main sys in
    let id := MainSide.seq m in
    let t := MainSide.Transaction id type
               (match type with
                | T_setTimeout => MainSide.Wrapper func id
                | T_setInterval => MainSide.Plain func
                end) (default 0 duration) args in
    let c := match type with
             | T_setTimeout => MainSide.Call_setTimeout func duration args
             | T_setInterval => MainSide.Call_setInterval func duration args
             end in
    let trace := [MainSide.EvSet id t;
                  MainSide.EvPost
                    (SetTimerMessage id type (default 0 duration));
                  MainSide.EvReturn id] in
    MainSide.idMap m !! id = None
    /\ (id ∉ MainSide.returned T)
    /\ MainSide.setTimer type func duration args m
       = (Normal id,
          MainSide.MkState (<[id := t]> (MainSide.idMap m)) (id + 1),
          trace)
    /\ MainSide.call c m
       = (Normal (Some id),
          MainSide.MkState (<[id := t]> (MainSide.idMap m)) (id + 1),
          trace)
    /\ Protocol.step (Protocol.L_call c) sys
       = Some (Protocol.MkSystem
                 (MainSide.MkState (<[id := t]> (MainSide.idMap m)) (id + 1))
                 (Protocol.worker sys)
                 (Protocol.to_worker sys
                    ++ [SetTimerMessage id type (default 0 duration)])
                 (Protocol.to_main sys)
                 (Protocol.terminated sys),
               trace).
Proof.
  intros ls sys T type func duration args Hsteps m id t c trace.
  destruct (steps_main_run _ _ _ _ Hsteps) as [inputs Hrun].
  pose proof (run_returned_ids inputs) as (Hids & Hseq).
  cbn in Hrun. rewrite Hrun in Hids, Hseq. cbn [fst snd] in Hids, Hseq.
  pose proof (steps_wf _ _ _ _ Hsteps wf_initial) as [_ Hwf].
  assert (Hset : MainSide.setTimer type func duration args m
                 = (Normal id,
                    MainSide.MkState (<[id := t]> (MainSide.idMap m)) (id + 1),
                    trace)) by apply setTimer_eq.
  assert (Hcall : MainSide.call c m
                  = (Normal (Some id),
                     MainSide.MkState (<[id := t]> (MainSide.idMap m)) (id + 1),
                     trace)).
  { subst c. destruct type; cbn [MainSide.call]; unfold bind;
      rewrite Hset; reflexivity. }
  split; [| split; [| split; [exact Hset | split; [exact Hcall |]]]].
  - destruct (MainSide.idMap m !! id) as [t' |] eqn:Hlook; [| done].
    destruct (Hwf id t' Hlook) as [Hlt _]. subst id m. lia.
  - rewrite Hids, ids_from_elem. subst id m. lia.
  - cbn [Protocol.step]. fold m. rewrite Hcall.
    unfold Protocol.after_main. subst trace. cbn. by rewrite orb_false_r.
Qed.

Lemma setTimer_stores_posts_returns_witness :
  Protocol.step (Protocol.L_call (MainSide.Call_setTimeout 7%nat None [4]))
    Protocol.initial
  = Some (Protocol.MkSystem
            (MainSide.MkState
               {[ 0 := MainSide.Transaction 0 T_setTimeout
                         (MainSide.Wrapper 7%nat 0) 0 [4] ]} 1)
            WorkerSide.initial [SetTimerMessage 0 T_setTimeout 0] [] false,
          [MainSide.EvSet 0 (MainSide.Transaction 0 T_setTimeout
                               (MainSide.Wrapper 7%nat 0) 0 [4]);
           MainSide.EvPost (SetTimerMessage 0 T_setTimeout 0);
           MainSide.EvReturn 0]).
Proof.
  destruct (setTimer_stores_posts_returns [] Protocol.initial []
              T_setTimeout 7%nat None [4] eq_refl)
    as (_ & _ & _ & _ & Hstep).
  exact Hstep.
Defined.

(** ** Handling an invoke notification *)

Section InvokeFacts.

Import MainSide MainTrace.

Lemma call_eq (c : ApiCall) (m : State) :
  call c m
  = match c with
    | Call_setTimeout func duration args =>
        let '(r, s, t) := setTimer T_setTimeout func duration args m in
        (match r with Normal id => Normal (Some id) | Throws e => Throws e end,
         s, t)
    | Call_setInterval func duration args =>
        let '(r, s, t) := setTimer T_setInterval func duration args m in
        (match r with Normal id => Normal (Some id) | Throws e => Throws e end,
         s, t)
    | Call_clearTimeout id =>
        (Normal None, MkState (delete id (idMap m)) (seq m),
         [EvPost (ClearTimerMessage id T_clearTimeout); EvDelete id])
    | Call_clearInterval id =>
        (Normal None, MkState (delete id (idMap m)) (seq m),
         [EvPost (ClearTimerMessage id T_clearInterval); EvDelete id])
    | Call_terminate => (Normal None, m, [EvTerminate])
    end.
Proof.
  destruct c; cbn [call]; unfold bind; rewrite ?setTimer_eq; reflexivity.
Qed.

Lemma call_keeps (c : ApiCall) (m : State) (id : TimerId)
    (t : TimerTransaction) :
  wf m -> idMap m !! id = Some t -> clears id c = false ->
  idMap (state_of (call c m)) !! id = Some t.
Proof.
  intros [_ Hwf] Hlook Hc. destruct (Hwf _ _ Hlook) as [Hlt _].
  rewrite call_eq. destruct c as [f d a | f d a | i | i |];
    rewrite ?setTimer_eq; unfold state_of; cbn [fst snd idMap];
    cbn [clears] in Hc.
  - rewrite lookup_insert_ne by lia. exact Hlook.
  - rewrite lookup_insert_ne by lia. exact Hlook.
  - apply bool_decide_eq_false in Hc. by rewrite lookup_delete_ne.
  - apply bool_decide_eq_false in Hc. by rewrite lookup_delete_ne.
  - exact Hlook.
Qed.

Lemma call_wf (c : ApiCall) (m : State) : wf m -> wf (state_of (call c m)).
Proof.
  intros Hwf. pose proof (call_sound c m) as Hr.
  apply replay_wfp in Hr; [apply Hr | by apply wfp_idle].
Qed.

Lemma calls_keep (cs : list ApiCall) (m : State) (id : TimerId)
    (t : TimerTransaction) :
  wf m -> idMap m !! id = Some t -> forallb (fun c => negb (clears id c)) cs = true ->
  idMap (state_of (calls cs m)) !! id = Some t.
Proof.
  revert m. induction cs as [| c cs IH]; intros m Hwf Hlook Hcs;
    [exact Hlook |].
  cbn [forallb] in Hcs. apply andb_true_iff in Hcs as [Hc Hcs].
  apply negb_true_iff in Hc.
  pose proof (call_keeps c m id t Hwf Hlook Hc) as Hk.
  pose proof (call_wf c m Hwf) as Hw.
  pose proof (call_normal c m) as [r Hr].
  cbn [calls]. unfold bind.
  destruct (call c m) as [[o s1] t1]. unfold outcome_of, state_of in *.
  cbn [fst snd] in *. subst o. specialize (IH s1 Hw Hk Hcs).
  destruct (calls cs s1) as [[o2 s2] t2]. exact IH.
Qed.

End InvokeFacts.

(** ** Cancelling *)

(** A ['setTimeout'] transaction is gone once its invoke notification was
    handled and the callback returned. *)
Lemma onmessage_oneshot_removed (u : MainSide.UserRun) (id : TimerId)
    (func : TimerHandler) (t : MainSide.TimerTransaction)
    (m : MainSide.State) :
  MainSide.idMap m !! id = Some t ->
  MainSide.tx_func t = MainSide.Wrapper func id ->
  MainSide.ur_throws u = None ->
  MainSide.idMap
    (state_of (MainSide.onmessage u (FromWorker id T_invoke) m)) !! id = None.
Proof.
  intros Hlook Hfunc Hnone. rewrite onmessage_eq. cbn [msg_id msg_type].
  rewrite Hlook, invoke_eq, Hfunc, call_user_eq, Hnone.
  rewrite (calls_normal (MainSide.ur_calls u) m).
  unfold state_of at 1; cbn [fst snd MainSide.idMap]. apply lookup_delete_eq.
Qed.

(** What [clearTimer] does, whatever the registry holds. It always
    returns normally, posts exactly one [ClearTimerMessage] with the id
    and kind it was given, and removes the transaction of the id. For an
    id the registry does not hold, the state is left as it was; so it is
    for the id of a ['setTimeout'] timer whose invoke notification was
    handled and whose callback returned. A second call with the same id
    leaves the state the first call produced, and on the worker a second
    [ClearTimerMessage] for the same id changes nothing either. *)
Theorem clearTimer_posts_removes_idempotent :
  forall (type : ClearType) (id : TimerId) (m : MainSide.State),
    MainSide.clearTimer type id m
    = (Normal tt,
       MainSide.MkState (delete id (MainSide.idMap m)) (MainSide.seq m),
       [MainSide.EvPost (ClearTimerMessage id type); MainSide.EvDelete id])
    /\ (MainSide.idMap m !! id = None ->
        state_of (MainSide.clearTimer type id m) = m)
    /\ (forall (u : MainSide.UserRun) (func : TimerHandler)
               (t : MainSide.TimerTransaction),
          MainSide.idMap m !! id = Some t ->
          MainSide.tx_func t = MainSide.Wrapper func id ->
          MainSide.ur_throws u = None ->
          let fired := state_of (MainSide.onmessage u (FromWorker id T_invoke) m) in
          state_of (MainSide.clearTimer type id fired) = fired)
    /\ (forall type' : ClearType,
          state_of (MainSide.clearTimer type' id
                      (state_of (MainSide.clearTimer type id m)))
          = state_of (MainSide.clearTimer type id m))
    /\ (forall (type' : ClearType) (h h' : Z) (w : WorkerSide.State),
          state_of (WorkerSide.onmessage h' (ClearTimerMessage id type')
                      (state_of (WorkerSide.onmessage h
                                   (ClearTimerMessage id type) w)))
          = state_of (WorkerSide.onmessage h (ClearTimerMessage id type) w)).
Proof.
  intros type id m.
  assert (Hunknown : forall m' : MainSide.State,
             MainSide.idMap m' !! id = None ->
             state_of (MainSide.clearTimer type id m') = m').
  { intros m' Hnone. rewrite clearTimer_eq. unfold state_of; cbn [fst snd].
    apply main_state_eq. by apply delete_id. }
  split; [reflexivity |]. split; [apply Hunknown |]. split; [| split].
  - intros u func t Hlook Hfunc Hnone fired. apply Hunknown.
    by eapply onmessage_oneshot_removed.
  - intros type'. rewrite !clearTimer_eq. unfold state_of; cbn [fst snd].
    cbn [MainSide.idMap MainSide.seq]. by rewrite delete_delete_eq.
  - intros type' h h' w. rewrite (worker_clear_eq h type id w).
    unfold state_of; cbn [fst snd]. rewrite worker_clear_eq.
    cbn [fst snd WorkerSide.idMap WorkerSide.timers].
    rewrite lookup_delete_eq. by rewrite delete_delete_eq.
Qed.

Lemma clearTimer_posts_removes_idempotent_witness :
  state_of (MainSide.clearTimer T_clearTimeout 3 MainSide.initial)
  = MainSide.initial
  /\ state_of (MainSide.clearTimer T_clearTimeout 0
                 (state_of (MainSide.onmessage user_returns
                              (FromWorker 0 T_invoke) one_timeout)))
     = state_of (MainSide.onmessage user_returns (FromWorker 0 T_invoke)
                   one_timeout).
Proof.
  split.
  - destruct (clearTimer_posts_removes_idempotent
                T_clearTimeout 3 MainSide.initial) as (_ & Hunknown & _).
    apply Hunknown. reflexivity.
  - destruct (clearTimer_posts_removes_idempotent
                T_clearTimeout 0 one_timeout) as (_ & _ & Hfired & _).
    apply (Hfired user_returns 7%nat
             (MainSide.Transaction 0 T_setTimeout (MainSide.Wrapper 7%nat 0)
                0 [])); reflexivity.
Defined.

(** C8. The code at the input where it leaves the claim: [setTimeout(f7)]
    on a new WorkerTimer, the invoke notification of id 0 delivered to a
    callback that throws, then [clearTimeout(0)]. The timer has fired,
    its callback was called once, and the wrapper was left before its
    [idMap.delete(id)]; the transaction is still in the registry, and the
    cancel of this already-fired id is no no-op: it returns normally and
    removes the transaction, so the registry is not what it was. *)
Lemma clearTimeout_of_fired_throwing_timeout_changes_registry :
  let handled := MainSide.onmessage user_throws (FromWorker 0 T_invoke)
                   one_timeout in
  let fired := state_of handled in
  let r := MainSide.clearTimer T_clearTimeout 0 fired in
  (MainSide.tx_type <$> MainSide.idMap one_timeout !! 0) = Some T_setTimeout
  /\ History.calls 0 (trace_of handled) = 1%nat
  /\ outcome_of handled = Throws 1%nat
  /\ MainSide.idMap fired !! 0
     = Some (MainSide.Transaction 0 T_setTimeout (MainSide.Wrapper 7%nat 0)
               0 [])
  /\ outcome_of r = Normal tt
  /\ MainSide.idMap (state_of r) !! 0 = None
  /\ state_of r <> fired.
Proof.
  cbv zeta. repeat split; try reflexivity.
  intros H. apply (f_equal (fun m => MainSide.idMap m !! 0)) in H.
  vm_compute in H. discriminate H.
Qed.

(** What the listener does with an invoke notification, as far as the
    code goes. When the listener handles an invoke
    notification for an id whose transaction is in the registry, it calls
    the stored user function at once, in that same turn, with the stored
    arguments. For a ['setTimeout'] transaction whose callback returns
    normally, the listener then removes the transaction, and nothing
    else. For a ['setInterval'] transaction the listener does nothing
    besides the call: the state it leaves is the one the callback's own
    method calls produced, so the transaction is still there unless the
    callback itself cancelled it. *)
Theorem onmessage_invoke :
  forall (inputs : list MainSide.Input) (u : MainSide.UserRun)
         (id : TimerId) (t : MainSide.TimerTransaction),
    let m := (MainSide.run inputs MainSide.initial).1 in
    let r := MainSide.onmessage u (FromWorker id T_invoke) m in
    let user := MainSide.calls (MainSide.ur_calls u) m in
    let called := MainSide.EvCall id (MainTrace.user_func (MainSide.tx_func t))
                    (MainSide.tx_args t) in
    MainSide.idMap m !! id = Some t ->
    (exists rest, trace_of r = called :: trace_of user ++ rest)
    /\ (MainSide.tx_type t = T_setTimeout -> MainSide.ur_throws u = None ->
        outcome_of r = Normal tt
        /\ trace_of r = called :: trace_of user ++ [MainSide.EvDelete id]
        /\ state_of r
           = MainSide.MkState (delete id (MainSide.idMap (state_of user)))
               (MainSide.seq (state_of user))
        /\ MainSide.idMap (state_of r) !! id = None)
    /\ (MainSide.tx_type t = T_setInterval ->
        trace_of r = called :: trace_of user
        /\ state_of r = state_of user
        /\ (forallb (fun c => negb (clears id c)) (MainSide.ur_calls u) = true ->
            MainSide.idMap (state_of r) !! id = Some t)).
Proof.
  intros inputs u id t m r user called Hlook.
  pose proof (run_wf inputs MainSide.initial wf_initial) as Hwf. fold m in Hwf.
  destruct (proj2 Hwf id t Hlook) as (_ & Htid & Hfm).
  pose proof (calls_normal (MainSide.ur_calls u) m) as Hnormal. fold user in Hnormal.
  assert (Hr : r = MainSide.invoke u id (MainSide.tx_func t)
                     (MainSide.tx_args t) m).
  { subst r. rewrite onmessage_eq. cbn [msg_id msg_type]. by rewrite Hlook. }
  rewrite invoke_eq in Hr. unfold MainTrace.func_matches in Hfm.
  destruct (MainSide.tx_type t) eqn:Htype,
           (MainSide.tx_func t) as [func id' | func] eqn:Hfunc;
    try contradiction; rewrite call_user_eq in Hr; fold user in Hr;
    rewrite Hnormal in Hr; subst called; cbn [MainTrace.user_func].
  - subst id'. rewrite Htid in Hr.
    split; [| split; [| intros; discriminate]].
    + rewrite Hr. destruct (MainSide.ur_throws u);
        unfold trace_of at 1; cbn [fst snd]; [exists [] | eexists];
        [by rewrite app_nil_r | reflexivity].
    + intros _ Hnone. rewrite Hnone in Hr. rewrite Hr.
      unfold outcome_of, trace_of at 1, state_of at 1 3; cbn [fst snd].
      repeat split. cbn [MainSide.idMap]. apply lookup_delete_eq.
  - split; [| split; [intros; discriminate |]].
    + exists []. rewrite Hr. by rewrite app_nil_r.
    + intros _. rewrite Hr. unfold trace_of at 1, state_of at 1 3; cbn [fst snd].
      repeat split. intros Hcs. subst user. by apply calls_keep.
Qed.

Lemma onmessage_invoke_witness :
  MainSide.idMap
    (state_of (MainSide.onmessage user_returns (FromWorker 0 T_invoke)
                 one_timeout)) !! 0 = None.
Proof.
  destruct (onmessage_invoke
              [MainSide.InCall (MainSide.Call_setTimeout 7%nat None [])]
              user_returns 0
              (MainSide.Transaction 0 T_setTimeout (MainSide.Wrapper 7%nat 0)
                 0 [])
              eq_refl) as (_ & Honeshot & _).
  destruct (Honeshot eq_refl eq_refl) as (_ & _ & _ & Hgone).
  exact Hgone.
Defined.

(** C3. The code at the input where it leaves the claim: [setTimeout(f7)]
    on a new WorkerTimer, then the invoke notification of id 0 delivered
    to a callback that throws. The listener calls the user's function,
    the exception leaves the wrapper [func(...args); idMap.delete(id)]
    before its delete, the turn ends with the error, and the
    ['setTimeout'] transaction is still in the registry: it was not
    removed afterward. *)
Lemma oneshot_callback_throws_not_removed :
  let m := one_timeout in
  let r := MainSide.onmessage user_throws (FromWorker 0 T_invoke) m in
  (MainSide.tx_type <$> MainSide.idMap m !! 0) = Some T_setTimeout
  /\ outcome_of r = Throws 1%nat
  /\ trace_of r = [MainSide.EvCall 0 7%nat []]
  /\ MainSide.idMap (state_of r) !! 0
     = Some (MainSide.Transaction 0 T_setTimeout (MainSide.Wrapper 7%nat 0)
               0 [])
  /\ MainSide.idMap (state_of r) !! 0 <> None.
Proof. vm_compute. repeat split; discriminate. Qed.

(** ** Cancelling right after scheduling *)

Section CancelFacts.

Import MainSide MainTrace.

Lemma retired_stays id T x y :
  retired id x -> replay T x = Some y ->
  never_called id T /\ retired id y.
Proof.
  revert x. induction T as [| e T IH]; intros x Hx H; cbn in H.
  - injection H as <-. split; [constructor | exact Hx].
  - destruct (observe e x) as [z |] eqn:Hz; [| discriminate].
    assert (called_for id e = false /\ retired id z) as [He Hrz].
    { destruct x as [m p]. destruct Hx as [Hnone Hlt].
      cbn [fst snd] in Hnone, Hlt.
      observe_inv Hz; subst; unfold retired;
        cbn [fst snd idMap seq called_for];
        try (split; [reflexivity | split; [exact Hnone | lia]]).
      - destruct a as (-> & _ & _). split; [reflexivity |].
        split; [| lia]. rewrite lookup_insert_ne by lia. exact Hnone.
      - split; [reflexivity |]. split; [| lia].
        rewrite lookup_delete_None. by right.
      - split; [| by split].
        apply bool_decide_eq_false. intros ->. congruence.
      - split; [reflexivity |]. split; [| lia].
        rewrite lookup_delete_None. by right. }
    destruct (IH z Hrz H) as [Hnc Hry].
    split; [by constructor | exact Hry].
Qed.

Lemma next_return_mono T x y :
  wfp x -> replay T x = Some y -> next_return x <= next_return y.
Proof.
  intros Hx H. destruct (replay_returned T x y Hx H) as [_ Hn]. lia.
Qed.

Lemma returned_ge T x y id :
  wfp x -> replay T x = Some y -> id ∈ returned T -> next_return x <= id.
Proof.
  intros Hx H Hin. destruct (replay_returned T x y Hx H) as [Hr _].
  rewrite Hr in Hin. apply ids_from_elem in Hin. lia.
Qed.

Lemma returned_app T1 T2 : returned (T1 ++ T2) = returned T1 ++ returned T2.
Proof. unfold returned. apply omap_app. Qed.

(** Before its id is returned, a callback is not called. *)
Lemma not_called_before_return id T1 R x y :
  wfp x -> next_return x <= id ->
  replay (T1 ++ EvReturn id :: R) x = Some y ->
  never_called id T1.
Proof.
  revert x. induction T1 as [| e T1 IH]; intros x Hx Hle H;
    [constructor |].
  cbn in H. destruct (observe e x) as [z |] eqn:Hz; [| discriminate].
  pose proof (observe_wfp _ _ _ Hx Hz) as Hwz.
  assert (Hin : id ∈ returned (T1 ++ EvReturn id :: R)).
  { rewrite returned_app. apply elem_of_app. right. cbn. left. }
  pose proof (returned_ge _ _ _ _ Hwz H Hin) as Hge.
  assert (He : called_for id e = false).
  { destruct x as [m p]. destruct Hx as [[_ Hwf] Hp].
    unfold next_return in Hle. cbn [fst snd] in Hwf, Hp, Hle.
    observe_inv Hz; cbn [called_for]; try reflexivity.
    apply bool_decide_eq_false. intros ->.
    destruct (Hwf _ _ Hlook) as [Hlt _]. lia. }
  constructor; [exact He |]. eapply IH; [exact Hwz | exact Hge | exact H].
Qed.

(** [clearTimer] deletes right after it posts. *)
Lemma clear_post_then_delete id k T x y :
  replay (EvPost (ClearTimerMessage id k) :: T) x = Some y ->
  y.2 = Idle ->
  exists T', T = EvDelete id :: T'
             /\ x.2 = Idle
             /\ replay T' (MkState (delete id (idMap x.1)) (seq x.1), Idle)
                = Some y.
Proof.
  intros H Hy. cbn [replay] in H.
  destruct (observe _ x) as [z |] eqn:Hz; [| discriminate].
  destruct x as [m p].
  destruct p; cbn [observe] in Hz; try discriminate Hz;
    try (case_decide; discriminate Hz).
  injection Hz as <-.
  destruct T as [| e T']; cbn [replay] in H.
  { injection H as <-. discriminate Hy. }
  destruct (observe e _) as [z |] eqn:Hz; [| discriminate].
  destruct e; cbn [observe] in Hz; try discriminate Hz.
  case_decide; [| discriminate Hz]. injection Hz as <-.
  subst. exists T'. done.
Qed.

Lemma never_called_app id T1 T2 :
  never_called id (T1 ++ T2) <-> never_called id T1 /\ never_called id T2.
Proof. apply Forall_app. Qed.

(** The trace property behind C4, for any replayable trace. *)
Lemma cancel_after_return_replay id k T1 T2 T3 m y :
  wf m ->
  replay (T1 ++ EvReturn id :: T2 ++ EvPost (ClearTimerMessage id k) :: T3)
    (m, Idle) = Some y ->
  y.2 = Idle ->
  never_called id T2 ->
  never_called id
    (T1 ++ EvReturn id :: T2 ++ EvPost (ClearTimerMessage id k) :: T3)
  /\ idMap y.1 !! id = None.
Proof.
  intros Hwf H Hy Hmid.
  assert (Hx0 : wfp (m, Idle)) by by apply wfp_idle.
  assert (Hin : id ∈ returned
            (T1 ++ EvReturn id :: T2 ++ EvPost (ClearTimerMessage id k) :: T3)).
  { rewrite returned_app. apply elem_of_app. right. cbn. left. }
  pose proof (returned_ge _ _ _ _ Hx0 H Hin) as Hge.
  pose proof (not_called_before_return _ _ _ _ _ Hx0 Hge H) as Hbefore.
  rewrite replay_app in H.
  destruct (replay T1 (m, Idle)) as [x1 |] eqn:H1; [| discriminate].
  pose proof (replay_wfp _ _ _ Hx0 H1) as Hw1.
  cbn [replay] in H.
  destruct (observe (EvReturn id) x1) as [x2 |] eqn:H2; [| discriminate].
  pose proof (observe_wfp _ _ _ Hw1 H2) as Hw2.
  rewrite replay_app in H.
  destruct (replay T2 x2) as [x3 |] eqn:H3; [| discriminate].
  pose proof (replay_wfp _ _ _ Hw2 H3) as Hw3.
  pose proof (next_return_mono _ _ _ Hw2 H3) as Hmono.
  assert (Hn2 : next_return x2 = id + 1).
  { destruct x1 as [m1 p1]. destruct Hw1 as [_ Hp1]. cbn [fst snd] in Hp1.
    observe_inv H2. subst. unfold next_return. cbn [fst snd]. lia. }
  destruct (clear_post_then_delete _ _ _ _ _ H Hy) as (T3' & -> & Hidle & H4).
  destruct x3 as [m3 p3]. cbn [fst snd] in Hidle, H4. subst p3.
  rewrite Hn2 in Hmono. unfold next_return in Hmono. cbn [fst snd] in Hmono.
  assert (Hret : retired id (MkState (delete id (idMap m3)) (seq m3), Idle)).
  { split; cbn [fst snd idMap].
    - apply lookup_delete_eq.
    - cbn [seq]. lia. }
  destruct (retired_stays _ _ _ _ Hret H4) as [Hafter [Hnone _]].
  split; [| exact Hnone].
  apply never_called_app. split; [exact Hbefore |].
  constructor; [reflexivity |].
  apply never_called_app. split; [exact Hmid |].
  constructor; [reflexivity |]. constructor; [reflexivity | exact Hafter].
Qed.

End CancelFacts.

Lemma steps_replay ls s s' T :
  Protocol.steps ls s = Some (s', T) ->
  MainTrace.replay T (Protocol.main s, MainTrace.Idle)
  = Some (Protocol.main s', MainTrace.Idle).
Proof.
  intros H. destruct (steps_main_run _ _ _ _ H) as [inputs Hrun].
  pose proof (run_replay inputs (Protocol.main s)) as Hr.
  by rewrite Hrun in Hr.
Qed.

(** C4. Take any run of the system (any schedule of method calls,
    deliveries in either direction and native fires, with whatever the
    user callbacks do), and in it a scheduling call that returned [id]
    and a later cancel call for [id], with no call of the callback of
    [id] between the two. Then the callback of [id] is never called in
    that run, neither before nor after; at the end the registry has no
    transaction for [id], and a notification for [id] delivered then is
    dropped. *)
Theorem cancel_after_schedule_never_called :
  forall (ls : list Protocol.Label) (sys : Protocol.System)
         (T T1 T2 T3 : list MainSide.Event) (id : TimerId) (k : ClearType),
    Protocol.steps ls Protocol.initial = Some (sys, T) ->
    T = T1 ++ MainSide.EvReturn id
           :: T2 ++ MainSide.EvPost (ClearTimerMessage id k) :: T3 ->
    MainTrace.never_called id T2 ->
    MainTrace.never_called id T
    /\ MainSide.idMap (Protocol.main sys) !! id = None
    /\ forall (u : MainSide.UserRun) (type : FromWorkerType),
         MainSide.onmessage u (FromWorker id type) (Protocol.main sys)
         = (Normal tt, Protocol.main sys, []).
Proof.
  intros ls sys T T1 T2 T3 id k Hsteps -> Hmid.
  pose proof (steps_replay _ _ _ _ Hsteps) as Hr.
  destruct (cancel_after_return_replay id k T1 T2 T3 _ _ wf_initial Hr
              eq_refl Hmid) as [Hnever Hnone].
  split; [exact Hnever | split; [exact Hnone |]].
  intros u type. by apply onmessage_absent.
Qed.

Lemma cancel_after_schedule_never_called_witness :
  MainTrace.never_called 0
    [MainSide.EvSet 0 (MainSide.Transaction 0 T_setTimeout
                         (MainSide.Wrapper 7%nat 0) 0 []);
     MainSide.EvPost (SetTimerMessage 0 T_setTimeout 0);
     MainSide.EvReturn 0;
     MainSide.EvPost (ClearTimerMessage 0 T_clearTimeout);
     MainSide.EvDelete 0].
Proof.
  refine (proj1
            (cancel_after_schedule_never_called race
               (Protocol.MkSystem (MainSide.MkState ∅ 1) WorkerSide.initial
                  [] [] false)
               _
               [MainSide.EvSet 0 (MainSide.Transaction 0 T_setTimeout
                                    (MainSide.Wrapper 7%nat 0) 0 []);
                MainSide.EvPost (SetTimerMessage 0 T_setTimeout 0)]
               [] [MainSide.EvDelete 0] 0 T_clearTimeout _ _ _)).
  - vm_compute. reflexivity.
  - reflexivity.
  - constructor.
Defined.

(** ** The two registries in lockstep *)

Section LockstepFacts.

Import Lockstep.

Lemma set_ids_app q1 q2 :
  MainTrace.set_ids (q1 ++ q2) = MainTrace.set_ids q1 ++ MainTrace.set_ids q2.
Proof. unfold MainTrace.set_ids. apply omap_app. Qed.

Lemma invariant_initial : invariant Protocol.initial.
Proof.
  split; [exact wf_initial |]. split; [| split; [| split; [| split]]].
  - split.
    + intros id h H. cbn in H. by rewrite lookup_empty in H.
    + intros h nt H. cbn in H. by rewrite lookup_empty in H.
  - constructor.
  - constructor.
  - intros h nt H. cbn in H. by rewrite lookup_empty in H.
  - constructor.
Qed.

(** A main-side turn keeps the invariant. *)
Lemma after_main_invariant s q m t :
  invariant s ->
  MainTrace.replay t (Protocol.main s, MainTrace.Idle)
  = Some (m, MainTrace.Idle) ->
  invariant
    (Protocol.after_main
       (Protocol.MkSystem (Protocol.main s) (Protocol.worker s)
          (Protocol.to_worker s) q (Protocol.terminated s)) m t).
Proof.
  intros (Hwf & Hw & Hsorted & Hbelow & Htimers & Hqueue) Hr.
  pose proof (wfp_idle _ Hwf) as Hx.
  pose proof (replay_wfp _ _ _ Hx Hr) as [Hwf' _].
  destruct (replay_set_ids _ _ _ Hx Hr) as [Hids Hnext].
  unfold MainTrace.next_post in Hnext, Hids. cbn [fst snd] in Hnext, Hids, Hwf'.
  unfold Protocol.after_main, invariant.
  cbn [Protocol.main Protocol.worker Protocol.to_worker].
  rewrite set_ids_app, Hids.
  set (n := length (MainTrace.set_ids (MainSide.posted t))) in *.
  split; [exact Hwf' |]. split; [exact Hw |].
  split; [| split; [| split]].
  - apply StronglySorted_app. split; [| split; [exact Hsorted |]].
    + intros x1 x2 H1 H2. rewrite Forall_forall in Hbelow.
      specialize (Hbelow _ H1). apply ids_from_elem in H2. lia.
    + apply ids_from_sorted.
  - apply Forall_app. split.
    + eapply Forall_impl; [exact Hbelow |]. cbn. intros; lia.
    + apply Forall_forall. intros x Hx'. apply ids_from_elem in Hx'. lia.
  - intros h nt Hh. specialize (Htimers h nt Hh). lia.
  - apply Forall_app. split; [exact Hqueue |].
    apply Forall_forall. intros x Hx' h nt Hh.
    apply ids_from_elem in Hx'. specialize (Htimers h nt Hh). lia.
Qed.

Lemma worker_set_eq h id type duration w :
  WorkerSide.onmessage h (SetTimerMessage id type duration) w
  = (Normal tt,
     WorkerSide.MkState
       (<[id := h]> (WorkerSide.idMap w))
       (<[h := WorkerSide.MkNativeTimer type (callback_for type id) duration]>
          (WorkerSide.timers w)),
     [WorkerSide.EvNativeSet type (callback_for type id) duration h;
      WorkerSide.EvSet id h]).
Proof. destruct type; reflexivity. Qed.

Lemma callback_for_id type id :
  WorkerSide.callback_id (callback_for type id) = id.
Proof. by destruct type. Qed.

(** Handling a scheduling request for an id the worker has no timer for,
    with a handle that names no active timer. *)
Lemma worker_set_wf h id type duration w :
  worker_wf w -> timer_ids_below w id ->
  WorkerSide.timers w !! h = None ->
  worker_wf (state_of (WorkerSide.onmessage h
                         (SetTimerMessage id type duration) w)).
Proof.
  intros [W1 W2] Hbelow Hfresh. rewrite worker_set_eq.
  unfold state_of; cbn [fst snd]. split;
    cbn [WorkerSide.idMap WorkerSide.timers].
  - intros id' h' H. destruct (decide (id = id')) as [<- | Hne].
    + rewrite lookup_insert_eq in H. injection H as <-.
      rewrite lookup_insert_eq. eexists. split; [reflexivity |].
      cbn. apply callback_for_id.
    + rewrite lookup_insert_ne in H by done.
      destruct (W1 _ _ H) as (nt & Hnt & Hid).
      exists nt. split; [| exact Hid].
      rewrite lookup_insert_ne; [exact Hnt |]. intros ->. congruence.
  - intros h' nt H. destruct (decide (h = h')) as [<- | Hne].
    + rewrite lookup_insert_eq in H. injection H as <-. cbn.
      rewrite callback_for_id, lookup_insert_eq. done.
    + rewrite lookup_insert_ne in H by done.
      destruct (W2 _ _ H) as [Hid Hcb]. split; [| exact Hcb].
      specialize (Hbelow _ _ H).
      rewrite lookup_insert_ne by lia. exact Hid.
Qed.

(** Removing the entry of [id] together with the timer it names. *)
Lemma worker_remove_wf id w :
  worker_wf w ->
  worker_wf
    (WorkerSide.MkState
       (delete id (WorkerSide.idMap w))
       (match WorkerSide.idMap w !! id with
        | Some n => delete n (WorkerSide.timers w)
        | None => WorkerSide.timers w
        end)).
Proof.
  intros [W1 W2]. split; cbn [WorkerSide.idMap WorkerSide.timers].
  - intros id' h' H. apply lookup_delete_Some in H as [Hne H].
    destruct (W1 _ _ H) as (nt & Hnt & Hid). exists nt.
    split; [| exact Hid].
    destruct (WorkerSide.idMap w !! id) as [n |] eqn:Hn; [| exact Hnt].
    rewrite lookup_delete_ne; [exact Hnt |]. intros ->.
    destruct (W1 _ _ Hn) as (nt' & Hnt' & Hid'). congruence.
  - intros h' nt H.
    assert (Hold : WorkerSide.timers w !! h' = Some nt
                   /\ WorkerSide.idMap w !! id <> Some h').
    { destruct (WorkerSide.idMap w !! id) as [n |] eqn:Hn.
      - apply lookup_delete_Some in H as [Hne H]. split; [exact H |].
        congruence.
      - split; [exact H | discriminate]. }
    destruct Hold as [Hnt Hne]. destruct (W2 _ _ Hnt) as [Hid Hcb].
    split; [| exact Hcb]. rewrite lookup_delete_ne; [exact Hid |].
    intros ->. exact (Hne Hid).
Qed.

Lemma timer_ids_below_remove id w bound :
  timer_ids_below w bound ->
  timer_ids_below
    (WorkerSide.MkState
       (delete id (WorkerSide.idMap w))
       (match WorkerSide.idMap w !! id with
        | Some n => delete n (WorkerSide.timers w)
        | None => WorkerSide.timers w
        end)) bound.
Proof.
  intros Hb h nt H. cbn [WorkerSide.timers] in H.
  destruct (WorkerSide.idMap w !! id) as [n |].
  - apply lookup_delete_Some in H as [_ H]. by eapply Hb.
  - by eapply Hb.
Qed.

(** What a native fire does, for a well-formed worker. *)
Lemma fire_eq h w nt :
  worker_wf w -> WorkerSide.timers w !! h = Some nt ->
  let id := WorkerSide.callback_id (WorkerSide.nt_callback nt) in
  WorkerSide.fire h w
  = match WorkerSide.nt_type nt with
    | T_setTimeout =>
        (Normal tt,
         WorkerSide.MkState
           (delete id (WorkerSide.idMap w))
           (match WorkerSide.idMap w !! id with
            | Some n => delete n (WorkerSide.timers w)
            | None => WorkerSide.timers w
            end),
         [WorkerSide.EvPost (FromWorker id T_invoke); WorkerSide.EvDelete id])
    | T_setInterval =>
        (Normal tt, w, [WorkerSide.EvPost (FromWorker id T_invoke)])
    end.
Proof.
  intros [_ W2] Hnt id. destruct (W2 _ _ Hnt) as [Hid Hcb]. fold id in Hid, Hcb.
  unfold WorkerSide.fire, gets, bind at 1. rewrite Hnt.
  rewrite Hcb, Hid. destruct (WorkerSide.nt_type nt); reflexivity.
Qed.

End LockstepFacts.

Section LockstepSteps.

Import Lockstep.

Lemma timer_ids_below_set h id type duration w bound :
  timer_ids_below w bound -> id < bound ->
  timer_ids_below
    (state_of (WorkerSide.onmessage h (SetTimerMessage id type duration) w))
    bound.
Proof.
  intros Hb Hid h' nt H. rewrite worker_set_eq in H.
  unfold state_of in H; cbn [fst snd WorkerSide.timers] in H.
  apply lookup_insert_Some in H as [[_ <-] | [_ H]].
  - cbn. by rewrite callback_for_id.
  - by eapply Hb.
Qed.

Lemma system_eta s :
  Protocol.MkSystem (Protocol.main s) (Protocol.worker s)
    (Protocol.to_worker s) (Protocol.to_main s) (Protocol.terminated s) = s.
Proof. by destruct s. Qed.

Lemma step_invariant l s s' t :
  invariant s -> Protocol.step l s = Some (s', t) -> invariant s'.
Proof.
  intros Hinv H. destruct l as [c | h | h | u]; cbn [Protocol.step] in H.
  - pose proof (call_sound c (Protocol.main s)) as Hr.
    destruct (MainSide.call c (Protocol.main s)) as [[r m] t0].
    injection H as <- <-. unfold trace_of, state_of in Hr; cbn [fst snd] in Hr.
    pose proof (after_main_invariant s (Protocol.to_main s) m t0 Hinv Hr) as Ha.
    by rewrite system_eta in Ha.
  - destruct (Protocol.terminated s); [discriminate |].
    destruct (Protocol.to_worker s) as [| event q] eqn:Hq; [discriminate |].
    destruct (Protocol.asks_for_timer event && _) eqn:Hfree; [discriminate |].
    destruct Hinv as (Hwf & Hw & Hsorted & Hbelow & Htimers & Hqueue).
    rewrite Hq in Hsorted, Hbelow, Hqueue.
    destruct event as [id type duration | id type].
    + cbn [Protocol.asks_for_timer andb] in Hfree.
      apply bool_decide_eq_false in Hfree.
      apply eq_None_not_Some in Hfree as Hfresh.
      pose proof (worker_set_wf h id type duration (Protocol.worker s)) as Hset.
      pose proof (timer_ids_below_set h id type duration (Protocol.worker s))
        as Hbs.
      destruct (WorkerSide.onmessage h (SetTimerMessage id type duration)
                  (Protocol.worker s)) as [[r w] t0].
      injection H as <- <-. unfold state_of in Hset, Hbs; cbn [fst snd] in *.
      change (MainTrace.set_ids (SetTimerMessage id type duration :: q))
        with (id :: MainTrace.set_ids q) in *.
      apply StronglySorted_cons in Hsorted as [Hhead Hsorted].
      apply Forall_cons in Hbelow as [Hid Hbelow].
      apply Forall_cons in Hqueue as [Hwid Hqueue].
      unfold invariant, Protocol.after_worker.
      cbn [Protocol.main Protocol.worker Protocol.to_worker].
      split; [exact Hwf |]. split; [by apply Hset |].
      split; [exact Hsorted |]. split; [exact Hbelow |].
      split; [by apply Hbs |].
      apply Forall_forall. intros x Hx.
      rewrite Forall_forall in Hhead, Hqueue.
      apply Hbs; [by apply Hqueue | by apply Hhead].
    + rewrite worker_clear_eq in H. injection H as <- <-.
      change (MainTrace.set_ids (ClearTimerMessage id type :: q))
        with (MainTrace.set_ids q) in *.
      unfold invariant, Protocol.after_worker.
      cbn [Protocol.main Protocol.worker Protocol.to_worker].
      split; [exact Hwf |]. split; [by apply worker_remove_wf |].
      split; [exact Hsorted |]. split; [exact Hbelow |].
      split; [by apply timer_ids_below_remove |].
      eapply Forall_impl; [exact Hqueue |]. cbn.
      intros x Hx. by apply timer_ids_below_remove.
  - destruct (Protocol.terminated s); [discriminate |].
    destruct (WorkerSide.timers (Protocol.worker s) !! h) as [nt |] eqn:Hnt;
      [| discriminate].
    destruct Hinv as (Hwf & Hw & Hsorted & Hbelow & Htimers & Hqueue).
    pose proof (fire_eq h (Protocol.worker s) nt Hw Hnt) as Hfire.
    cbv zeta in Hfire. rewrite Hfire in H.
    destruct (WorkerSide.nt_type nt); injection H as <- <-;
      unfold invariant, Protocol.after_worker;
      cbn [Protocol.main Protocol.worker Protocol.to_worker].
    + split; [exact Hwf |]. split; [by apply worker_remove_wf |].
      split; [exact Hsorted |]. split; [exact Hbelow |].
      split; [by apply timer_ids_below_remove |].
      eapply Forall_impl; [exact Hqueue |]. cbn.
      intros x Hx. by apply timer_ids_below_remove.
    + done.
  - destruct (Protocol.terminated s); [discriminate |].
    destruct (Protocol.to_main s) as [| message q]; [discriminate |].
    pose proof (onmessage_sound u message (Protocol.main s)) as Hr.
    destruct (MainSide.onmessage u message (Protocol.main s)) as [[r m] t0].
    injection H as <- <-. unfold trace_of, state_of in Hr; cbn [fst snd] in Hr.
    exact (after_main_invariant s q m t0 Hinv Hr).
Qed.

Lemma steps_invariant ls s s' T :
  invariant s -> Protocol.steps ls s = Some (s', T) -> invariant s'.
Proof.
  revert s T. induction ls as [| l ls IH]; intros s T Hinv H; cbn in H.
  - by injection H as <- <-.
  - destruct (Protocol.step l s) as [[s1 t1] |] eqn:Hstep; [| discriminate].
    destruct (Protocol.steps ls s1) as [[s2 t2] |] eqn:Hrest; [| discriminate].
    injection H as <- <-.
    eapply IH; [| exact Hrest]. eapply step_invariant; eauto.
Qed.

(** A duplicate-free list whose elements are all equal has at most one
    element. *)
Lemma NoDup_all_equal_length {A : Type} (l : list A) :
  NoDup l -> (forall x y, x ∈ l -> y ∈ l -> x = y) -> (length l <= 1)%nat.
Proof.
  intros Hnd Heq. destruct l as [| a [| b l]]; cbn; [lia | lia |].
  exfalso. apply NoDup_cons in Hnd as [Hnotin _]. apply Hnotin.
  rewrite (Heq a b); [left | left | right; left].
Qed.

Lemma handles_for_elem id w h :
  h ∈ WorkerSide.handles_for id w
  <-> exists nt, WorkerSide.timers w !! h = Some nt
                 /\ WorkerSide.callback_id (WorkerSide.nt_callback nt) = id.
Proof.
  unfold WorkerSide.handles_for. rewrite list_elem_of_fmap. split.
  - intros ([h' nt] & -> & Hin). apply elem_of_map_to_list in Hin.
    apply map_lookup_filter_Some in Hin as [Hnt Hid]. by exists nt.
  - intros (nt & Hnt & Hid). exists (h, nt). split; [done |].
    apply elem_of_map_to_list. by apply map_lookup_filter_Some.
Qed.

Lemma handles_for_NoDup id w : NoDup (WorkerSide.handles_for id w).
Proof. apply NoDup_fst_map_to_list. Qed.

Lemma transactions_for_elem id m k t :
  (k, t) ∈ MainTrace.transactions_for id m
  <-> MainSide.idMap m !! k = Some t /\ MainSide.tx_id t = id.
Proof.
  unfold MainTrace.transactions_for.
  rewrite elem_of_map_to_list. apply map_lookup_filter_Some.
Qed.

Lemma transactions_for_length id m :
  MainTrace.wf m -> (length (MainTrace.transactions_for id m) <= 1)%nat.
Proof.
  intros [_ Hwf]. apply NoDup_all_equal_length.
  - apply NoDup_map_to_list.
  - intros [k1 t1] [k2 t2] H1 H2.
    apply transactions_for_elem in H1 as [H1 Hid1].
    apply transactions_for_elem in H2 as [H2 Hid2].
    destruct (Hwf _ _ H1) as (_ & Hk1 & _).
    destruct (Hwf _ _ H2) as (_ & Hk2 & _).
    assert (k1 = k2) as -> by congruence. congruence.
Qed.

Lemma handles_for_length id w :
  worker_wf w -> (length (WorkerSide.handles_for id w) <= 1)%nat.
Proof.
  intros [_ W2]. apply NoDup_all_equal_length; [apply handles_for_NoDup |].
  intros h1 h2 H1 H2.
  apply handles_for_elem in H1 as (nt1 & H1 & Hid1).
  apply handles_for_elem in H2 as (nt2 & H2 & Hid2).
  destruct (W2 _ _ H1) as [Hm1 _]. destruct (W2 _ _ H2) as [Hm2 _].
  congruence.
Qed.

End LockstepSteps.

Lemma length_le_1_elem {A : Type} (l : list A) (a : A) :
  (length l <= 1)%nat -> a ∈ l -> l = [a].
Proof.
  intros Hlen Hin. destruct l as [| b [| c l]]; cbn in Hlen; [| | lia].
  - by apply elem_of_nil in Hin.
  - apply list_elem_of_singleton in Hin. by subst.
Qed.

(** C1. In every state the system can reach, and for every timer id: at
    most one active native timer of the worker carries the id, and the
    worker's [idMap] has an entry for the id exactly when there is such a
    timer, naming its handle; at most one transaction of the main side
    carries the id, and it is the one stored under the id. This holds in
    particular for the ids that have a transaction on the main side, and
    for those that have a handle on the worker side. Each step changes
    one side only, and the new state of that side is computed from its
    own old state and the message it received: a method call or a
    delivery to the main side leaves the worker's state as it was, a
    delivery to the worker or a native fire leaves the main side's state
    as it was. *)
Theorem registries_in_lockstep :
  forall s : Protocol.System,
    Protocol.reachable s ->
    (forall id : TimerId,
        (length (WorkerSide.handles_for id (Protocol.worker s)) <= 1)%nat
        /\ (length (MainTrace.transactions_for id (Protocol.main s)) <= 1)%nat
        /\ (forall h,
              WorkerSide.idMap (Protocol.worker s) !! id = Some h
              <-> WorkerSide.handles_for id (Protocol.worker s) = [h])
        /\ (forall t,
              MainSide.idMap (Protocol.main s) !! id = Some t
              <-> MainTrace.transactions_for id (Protocol.main s) = [(id, t)]))
    /\ (forall (l : Protocol.Label) (s' : Protocol.System)
               (t : list MainSide.Event),
          Protocol.step l s = Some (s', t) ->
          match l with
          | Protocol.L_call c =>
              Protocol.worker s' = Protocol.worker s
              /\ Protocol.main s'
                 = state_of (MainSide.call c (Protocol.main s))
          | Protocol.L_main_receive u =>
              Protocol.worker s' = Protocol.worker s
              /\ exists message q,
                   Protocol.to_main s = message :: q
                   /\ Protocol.main s'
                      = state_of (MainSide.onmessage u message
                                    (Protocol.main s))
          | Protocol.L_worker_receive h =>
              Protocol.main s' = Protocol.main s
              /\ exists event q,
                   Protocol.to_worker s = event :: q
                   /\ Protocol.worker s'
                      = state_of (WorkerSide.onmessage h event
                                    (Protocol.worker s))
          | Protocol.L_fire h =>
              Protocol.main s' = Protocol.main s
              /\ Protocol.worker s'
                 = state_of (WorkerSide.fire h (Protocol.worker s))
          end).
Proof.
  intros s (ls & T & Hsteps).
  pose proof (steps_invariant _ _ _ _ invariant_initial Hsteps)
    as (Hwf & Hw & _).
  split.
  - intros id.
    pose proof (handles_for_length id _ Hw) as Hlen_w.
    pose proof (transactions_for_length id _ Hwf) as Hlen_m.
    split; [exact Hlen_w |]. split; [exact Hlen_m |]. split.
    + intros h. split.
      * intros Hh. apply length_le_1_elem; [exact Hlen_w |].
        apply handles_for_elem. by apply (proj1 Hw).
      * intros Hl. assert (Hin : h ∈ WorkerSide.handles_for id
                                       (Protocol.worker s)).
        { rewrite Hl. left. }
        apply handles_for_elem in Hin as (nt & Hnt & <-).
        by apply (proj2 Hw).
    + intros t. split.
      * intros Ht. apply length_le_1_elem; [exact Hlen_m |].
        apply transactions_for_elem. split; [exact Ht |].
        by destruct (proj2 Hwf _ _ Ht) as (_ & ? & _).
      * intros Hl. assert (Hin : (id, t) ∈ MainTrace.transactions_for id
                                           (Protocol.main s)).
        { rewrite Hl. left. }
        by apply transactions_for_elem in Hin as [Ht _].
  - intros l s' t Hstep.
    destruct l as [c | h | h | u]; cbn [Protocol.step] in Hstep.
    + destruct (MainSide.call c (Protocol.main s)) as [[r m] t0].
      by injection Hstep as <- <-.
    + destruct (Protocol.terminated s); [discriminate |].
      destruct (Protocol.to_worker s) as [| event q]; [discriminate |].
      destruct (Protocol.asks_for_timer event && _); [discriminate |].
      split; [| exists event, q; split; [reflexivity |]];
        destruct (WorkerSide.onmessage h event (Protocol.worker s))
          as [[r w] t0]; by injection Hstep as <- <-.
    + destruct (Protocol.terminated s); [discriminate |].
      destruct (WorkerSide.timers (Protocol.worker s) !! h); [| discriminate].
      destruct (WorkerSide.fire h (Protocol.worker s)) as [[r w] t0].
      by injection Hstep as <- <-.
    + destruct (Protocol.terminated s); [discriminate |].
      destruct (Protocol.to_main s) as [| message q]; [discriminate |].
      split; [| exists message, q; split; [reflexivity |]];
        destruct (MainSide.onmessage u message (Protocol.main s))
          as [[r m] t0]; by injection Hstep as <- <-.
Qed.

Lemma registries_in_lockstep_witness :
  let s := Protocol.MkSystem
             (MainSide.MkState
                {[ 0 := MainSide.Transaction 0 T_setInterval
                          (MainSide.Plain 7%nat) 1000 [] ]} 1)
             (WorkerSide.MkState
                {[ 0 := 1 ]}
                {[ 1 := WorkerSide.MkNativeTimer T_setInterval
                          (WorkerSide.InvokeOnly 0) 1000 ]})
             [] [FromWorker 0 T_invoke] false in
  (length (WorkerSide.handles_for 0%Z (Protocol.worker s)) <= 1)%nat
  /\ (length (MainTrace.transactions_for 0%Z (Protocol.main s)) <= 1)%nat
  /\ WorkerSide.handles_for 0 (Protocol.worker s) = [1].
Proof.
  intros s.
  assert (Hreach : Protocol.reachable s).
  { exists interval_running. eexists. vm_compute. reflexivity. }
  destruct (registries_in_lockstep s Hreach) as [Hids _].
  destruct (Hids 0%Z) as (Hworker & Hmain & Hentry & _).
  split; [exact Hworker |]. split; [exact Hmain |].
  apply Hentry. reflexivity.
Defined.

(** ** The default instance *)

Section IndexFacts.

Import IndexTrace.

Lemma default_assignments_app t1 t2 :
  Index.default_assignments (t1 ++ t2)
  = (Index.default_assignments t1 + Index.default_assignments t2)%nat.
Proof.
  unfold Index.default_assignments. by rewrite List.filter_app, length_app.
Qed.

Lemma default_assignments_on r (t : list MainSide.Event) :
  Index.default_assignments (Index.EvOn r <$> t) = 0%nat.
Proof. induction t as [| e t IH]; [done | exact IH]. Qed.

Lemma default_assignments_host (t : list CreateWorker.HostCall) :
  Index.default_assignments (Index.EvHost <$> t) = 0%nat.
Proof. induction t as [| e t IH]; [done | exact IH]. Qed.

Lemma extends_refl ms : extends ms ms.
Proof. split; [lia | eauto]. Qed.

Lemma extends_trans ms1 ms2 ms3 :
  extends ms1 ms2 -> extends ms2 ms3 -> extends ms1 ms3.
Proof.
  intros [Hl1 H1] [Hl2 H2]. split; [lia |]. intros r o Ho.
  destruct (H1 _ _ Ho) as (o1 & Ho1 & Hw1).
  destruct (H2 _ _ Ho1) as (o2 & Ho2 & Hw2).
  exists o2. split; [exact Ho2 | congruence].
Qed.

Lemma extends_insert d d' (objs : list Index.WorkerTimer) r o sys :
  objs !! r = Some o ->
  extends (Index.MkState d objs)
    (Index.MkState d' (<[r := Index.MkWorkerTimer (Index.wt_worker o) sys]> objs)).
Proof.
  intros Ho. split; cbn [Index.objects]; [by rewrite length_insert |].
  intros r' o' Ho'. destruct (decide (r = r')) as [<- | Hne].
  - rewrite list_lookup_insert_eq by by eapply lookup_lt_Some.
    eexists. split; [reflexivity |]. cbn. congruence.
  - rewrite list_lookup_insert_ne by done. eauto.
Qed.

Lemma state_eta (ms : Index.State) :
  Index.MkState (Index.defaultWorkerTimer ms) (Index.objects ms) = ms.
Proof. by destruct ms. Qed.

(** A method call on an object: the module variable is not touched. *)
Lemma method_facts r c ms :
  Index.defaultWorkerTimer (state_of (Index.method r c ms))
  = Index.defaultWorkerTimer ms
  /\ extends ms (state_of (Index.method r c ms))
  /\ Index.default_assignments (trace_of (Index.method r c ms)) = 0%nat.
Proof.
  unfold Index.method.
  destruct (Index.objects ms !! r) as [o |] eqn:Ho.
  - destruct (MainSide.call c (Protocol.main (Index.wt_system o)))
      as [[res m] t].
    unfold state_of, trace_of; cbn [fst snd Index.defaultWorkerTimer].
    split; [reflexivity |]. split; [| apply default_assignments_on].
    rewrite <- (state_eta ms) at 1. by apply extends_insert.
  - unfold state_of, trace_of; cbn [fst snd].
    split; [reflexivity |]. split; [apply extends_refl | reflexivity].
Qed.

Lemma object_step_facts r l ms :
  Index.defaultWorkerTimer (state_of (Index.object_step r l ms))
  = Index.defaultWorkerTimer ms
  /\ extends ms (state_of (Index.object_step r l ms))
  /\ Index.default_assignments (trace_of (Index.object_step r l ms)) = 0%nat.
Proof.
  unfold Index.object_step.
  destruct (Index.objects ms !! r) as [o |] eqn:Ho.
  - destruct (Protocol.step l (Index.wt_system o)) as [[sys t] |].
    + unfold state_of, trace_of; cbn [fst snd Index.defaultWorkerTimer].
      split; [reflexivity |]. split; [| apply default_assignments_on].
      rewrite <- (state_eta ms) at 1. by apply extends_insert.
    + unfold state_of, trace_of; cbn [fst snd].
      split; [reflexivity |]. split; [apply extends_refl | reflexivity].
  - unfold state_of, trace_of; cbn [fst snd].
    split; [reflexivity |]. split; [apply extends_refl | reflexivity].
Qed.

Lemma extends_append d (objs : list Index.WorkerTimer) o :
  extends (Index.MkState d objs) (Index.MkState d (objs ++ [o])).
Proof.
  split; cbn [Index.objects]; [rewrite length_app; lia |].
  intros r o' Ho'. exists o'. split; [| reflexivity].
  by apply lookup_app_l_Some.
Qed.

(** An explicit [createWorkerTimer()]: the module variable is not
    touched either. *)
Lemma createWorkerTimer_facts host ms :
  Index.defaultWorkerTimer (state_of (Index.createWorkerTimer host ms))
  = Index.defaultWorkerTimer ms
  /\ extends ms (state_of (Index.createWorkerTimer host ms))
  /\ Index.default_assignments (trace_of (Index.createWorkerTimer host ms))
     = 0%nat
  /\ (forall r, outcome_of (Index.createWorkerTimer host ms) = Normal r ->
        r = length (Index.objects ms)
        /\ (r < length (Index.objects
                         (state_of (Index.createWorkerTimer host ms))))%nat).
Proof.
  rewrite createWorkerTimer_eq.
  destruct (outcome_of (CreateWorker.createWorker host Index._timerWorker
                          (Some CreateWorker.TypeModule) ms)) as [w | e];
    unfold state_of, trace_of, outcome_of; cbn [fst snd].
  - cbn [Index.defaultWorkerTimer]. split; [reflexivity |].
    split; [| split].
    + rewrite <- (state_eta ms) at 1. apply extends_append.
    + rewrite default_assignments_app, default_assignments_host. reflexivity.
    + intros r [= <-]. split; [reflexivity |]. cbn [Index.objects].
      rewrite length_app. cbn. lia.
  - split; [reflexivity |]. split; [apply extends_refl |].
    split; [apply default_assignments_host | intros r [=]].
Qed.

End IndexFacts.

Section IndexRun.

Import IndexTrace.

Lemma default_valid_extends ms ms' :
  default_valid ms -> extends ms ms' ->
  Index.defaultWorkerTimer ms' = Index.defaultWorkerTimer ms ->
  default_valid ms'.
Proof.
  intros Hv [Hlen _] Heq r Hr. rewrite Heq in Hr. specialize (Hv r Hr). lia.
Qed.

Lemma keeps_default_same {A : Type} (f : Index.M A) :
  (forall ms,
      Index.defaultWorkerTimer (state_of (f ms)) = Index.defaultWorkerTimer ms
      /\ extends ms (state_of (f ms))
      /\ Index.default_assignments (trace_of (f ms)) = 0%nat) ->
  keeps_default f.
Proof.
  intros H ms Hv. destruct (H ms) as (Hd & He & Hn). cbv zeta.
  split; [exact He |]. split; [exact (default_valid_extends _ _ Hv He Hd) |].
  rewrite Hd, Hn. split; [done | by left].
Qed.

Lemma method_keeps r c : keeps_default (Index.method r c).
Proof. apply keeps_default_same. intros ms. apply method_facts. Qed.

Lemma object_step_keeps r l : keeps_default (Index.object_step r l).
Proof. apply keeps_default_same. intros ms. apply object_step_facts. Qed.

Lemma createWorkerTimer_keeps host :
  keeps_default (Index.createWorkerTimer host).
Proof.
  apply keeps_default_same. intros ms.
  destruct (createWorkerTimer_facts host ms) as (? & ? & ? & _). done.
Qed.

Lemma getWorkerTimer_set host ms r :
  Index.defaultWorkerTimer ms = Some r ->
  Index.getWorkerTimer host ms = (Normal r, ms, []).
Proof. intros H. by rewrite getWorkerTimer_eq, H. Qed.

Lemma getWorkerTimer_keeps host : keeps_default (Index.getWorkerTimer host).
Proof.
  intros ms Hv. cbv zeta. rewrite getWorkerTimer_eq.
  destruct (Index.defaultWorkerTimer ms) as [r |] eqn:Hd.
  - unfold state_of, trace_of; cbn [fst snd].
    split; [apply extends_refl |]. split; [exact Hv |].
    split; [by rewrite Hd | discriminate].
  - destruct (createWorkerTimer_facts host ms) as (Hsame & Hext & Hn & Hr).
    destruct (Index.createWorkerTimer host ms) as [[[r | e] ms1] t];
      unfold state_of, trace_of, outcome_of in *; cbn [fst snd] in *.
    + destruct (Hr r eq_refl) as [-> Hlt].
      split; [| split; [| split; [discriminate |]]].
      * destruct Hext as [Hlen Hobj]. split; [exact Hlen | exact Hobj].
      * intros r' [= <-]. exact Hlt.
      * intros _. right. eexists. split; [reflexivity |].
        rewrite default_assignments_app, Hn. reflexivity.
    + split; [exact Hext |].
      split; [exact (default_valid_extends _ _ Hv Hext Hsame) |].
      split; [discriminate |]. intros _. left. by rewrite Hsame, Hd.
Qed.

Lemma keeps_default_bind {A B : Type} (f : Index.M A) (k : A -> Index.M B) :
  keeps_default f ->
  (forall a ms, Index.defaultWorkerTimer (state_of (k a ms))
                = Index.defaultWorkerTimer ms
                /\ extends ms (state_of (k a ms))
                /\ Index.default_assignments (trace_of (k a ms)) = 0%nat) ->
  keeps_default (bind f k).
Proof.
  intros Hf Hk ms Hv. specialize (Hf ms Hv). cbv zeta in *. unfold bind.
  destruct (f ms) as [[[a | e] ms1] t1];
    unfold state_of, trace_of in *; cbn [fst snd] in *; [| exact Hf].
  destruct (Hk a ms1) as (Hd & He & Hn).
  destruct (k a ms1) as [[r ms2] t2].
  unfold state_of, trace_of in *; cbn [fst snd] in *.
  destruct Hf as (He1 & Hv1 & Hsome & Hnone).
  rewrite default_assignments_app, Hn, Nat.add_0_r, Hd.
  split; [by eapply extends_trans |].
  split; [exact (default_valid_extends _ _ Hv1 He Hd) |]. done.
Qed.

Lemma bare_keeps host c : keeps_default (Index.bare host c).
Proof.
  destruct c; cbn [Index.bare];
    unfold Index.setTimeout, Index.setInterval, Index.clearTimeout,
      Index.clearInterval, Index.terminate;
    (apply keeps_default_bind; [apply getWorkerTimer_keeps |]);
    intros r ms; apply method_facts.
Qed.

Lemma handle_keeps i : keeps_default (Index.handle i).
Proof.
  destruct i as [host c | host | r l]; cbn [Index.handle].
  - intros ms Hv. pose proof (bare_keeps host c ms Hv) as H. cbv zeta in *.
    unfold bind, ret. destruct (Index.bare host c ms) as [[[a | e] ms1] t1];
      unfold state_of, trace_of in *; cbn [fst snd] in *;
      rewrite ?app_nil_r; exact H.
  - intros ms Hv. pose proof (createWorkerTimer_keeps host ms Hv) as H.
    cbv zeta in *. unfold bind, ret.
    destruct (Index.createWorkerTimer host ms) as [[[a | e] ms1] t1];
      unfold state_of, trace_of in *; cbn [fst snd] in *;
      rewrite ?app_nil_r; exact H.
  - apply object_step_keeps.
Qed.

Lemma default_valid_initial : default_valid Index.initial.
Proof. intros r H. discriminate H. Qed.

(** Along a run: a set module variable stays what it is and is never
    assigned again; an unset one is assigned at most once. *)
Lemma run_keeps inputs ms :
  default_valid ms ->
  let ms' := (Index.run inputs ms).1 in
  let n := Index.default_assignments (Index.run inputs ms).2 in
  extends ms ms' /\ default_valid ms'
  /\ (forall r, Index.defaultWorkerTimer ms = Some r ->
        Index.defaultWorkerTimer ms' = Some r /\ n = 0%nat)
  /\ (n <= 1)%nat.
Proof.
  revert ms. induction inputs as [| i inputs IH]; intros ms Hv; cbv zeta.
  - cbn. split; [apply extends_refl |]. split; [exact Hv |].
    split; [done | lia].
  - cbn [Index.run]. pose proof (handle_keeps i ms Hv) as Hi. cbv zeta in Hi.
    destruct (Index.handle i ms) as [[o ms1] t1].
    unfold state_of, trace_of in Hi; cbn [fst snd] in Hi.
    destruct Hi as (He1 & Hv1 & Hsome1 & Hnone1).
    specialize (IH ms1 Hv1). cbv zeta in IH.
    destruct (Index.run inputs ms1) as [ms2 t2]. cbn [fst snd] in *.
    destruct IH as (He2 & Hv2 & Hsome2 & Hle2).
    rewrite default_assignments_app.
    split; [by eapply extends_trans |]. split; [exact Hv2 |]. split.
    + intros r Hr. destruct (Hsome1 r Hr) as [Hr1 ->].
      destruct (Hsome2 r Hr1) as [Hr2 ->]. done.
    + destruct (Index.defaultWorkerTimer ms) as [r |] eqn:Hd.
      * destruct (Hsome1 r eq_refl) as [Hr1 ->].
        destruct (Hsome2 r Hr1) as [_ ->]. lia.
      * destruct (Hnone1 eq_refl) as [[_ ->] | (r & Hr1 & ->)]; [lia |].
        destruct (Hsome2 r Hr1) as [_ ->]. lia.
Qed.

End IndexRun.

Lemma bare_default_set host c ms r :
  Index.defaultWorkerTimer ms = Some r ->
  Index.bare host c ms = Index.method r c ms.
Proof.
  intros Hd. rewrite bare_eq, (getWorkerTimer_set host ms r Hd).
  by destruct (Index.method r c ms) as [[res ms2] t2].
Qed.

(** A bare call on a module without default instance, when the worker
    can be created. *)
Lemma bare_creates host c ms w :
  Index.defaultWorkerTimer ms = None ->
  outcome_of (CreateWorker.createWorker host Index._timerWorker
                (Some CreateWorker.TypeModule) ms) = Normal w ->
  let r := length (Index.objects ms) in
  let hostcalls := trace_of (CreateWorker.createWorker host Index._timerWorker
                               (Some CreateWorker.TypeModule) ms) in
  let done := MainSide.call c MainSide.initial in
  Index.bare host c ms
  = (outcome_of done,
     Index.MkState (Some r)
       (Index.objects ms
        ++ [Index.MkWorkerTimer w
              (Protocol.after_main Protocol.initial (state_of done)
                 (trace_of done))]),
     (Index.EvHost <$> hostcalls)
     ++ [Index.EvCreated r w; Index.EvDefault r]
     ++ (Index.EvOn r <$> trace_of done)).
Proof.
  intros Hd Hw r hostcalls done.
  rewrite bare_eq, getWorkerTimer_eq, Hd.
  pose proof (createWorkerTimer_eq host ms) as Hc. cbv zeta in Hc.
  rewrite Hw in Hc. rewrite Hc. fold r hostcalls.
  unfold Index.method. cbn [Index.objects Index.defaultWorkerTimer].
  rewrite (list_lookup_middle _ [] _ r) by reflexivity.
  cbn [Index.wt_system Index.wt_worker Protocol.main Protocol.initial].
  fold done. destruct done as [[res m] t].
  unfold outcome_of, state_of, trace_of; cbn [fst snd].
  f_equal; [f_equal |].
  - f_equal. replace r with (length (Index.objects ms) + 0)%nat by lia.
    by rewrite insert_app_r.
  - by rewrite <- !app_assoc.
Qed.

Lemma after_main_terminated s m t :
  Protocol.terminated s = true ->
  Protocol.terminated (Protocol.after_main s m t) = true.
Proof. intros H. cbn. by rewrite H. Qed.

(** C10, as the code has it. Over any sequence of bare calls, explicit
    [createWorkerTimer()] calls and steps of the objects:
    [defaultWorkerTimer] is assigned at most once; once it is set, no
    input changes it or assigns it again, and the object it names stays
    an object around the same worker; a bare call then is exactly the
    method call on that object. While it is unset, a bare call during
    which the worker can be created makes one new object, assigns it to
    [defaultWorkerTimer] and runs the method on it. In particular a bare
    [terminate()] on a fresh module whose worker can be created creates
    the worker and the object, sets the default and terminates that
    object; every bare call after it is the method call on that
    terminated object, which stays terminated. *)
Theorem default_instance_created_once :
  forall inputs : list Index.Input,
    let ms := (Index.run inputs Index.initial).1 in
    let T := (Index.run inputs Index.initial).2 in
    (Index.default_assignments T <= 1)%nat
    /\ (forall (r : nat) (i : Index.Input),
          Index.defaultWorkerTimer ms = Some r ->
          Index.defaultWorkerTimer (state_of (Index.handle i ms)) = Some r
          /\ Index.default_assignments (trace_of (Index.handle i ms)) = 0%nat
          /\ exists o o',
               Index.objects ms !! r = Some o
               /\ Index.objects (state_of (Index.handle i ms)) !! r = Some o'
               /\ Index.wt_worker o' = Index.wt_worker o)
    /\ (forall (r : nat) (host : CreateWorker.Host) (c : MainSide.ApiCall),
          Index.defaultWorkerTimer ms = Some r ->
          Index.bare host c ms = Index.method r c ms)
    /\ (forall (host : CreateWorker.Host) (c : MainSide.ApiCall)
               (w : CreateWorker.WorkerRef),
          Index.defaultWorkerTimer ms = None ->
          outcome_of (CreateWorker.createWorker host Index._timerWorker
                        (Some CreateWorker.TypeModule) ms) = Normal w ->
          let r := length (Index.objects ms) in
          let done := MainSide.call c MainSide.initial in
          Index.bare host c ms
          = (outcome_of done,
             Index.MkState (Some r)
               (Index.objects ms
                ++ [Index.MkWorkerTimer w
                      (Protocol.after_main Protocol.initial (state_of done)
                         (trace_of done))]),
             (Index.EvHost
                <$> trace_of (CreateWorker.createWorker host Index._timerWorker
                                (Some CreateWorker.TypeModule) ms))
             ++ [Index.EvCreated r w; Index.EvDefault r]
             ++ (Index.EvOn r <$> trace_of done)))
    /\ (forall (host : CreateWorker.Host) (w : CreateWorker.WorkerRef),
          outcome_of (CreateWorker.createWorker host Index._timerWorker
                        (Some CreateWorker.TypeModule) Index.initial)
          = Normal w ->
          let first := Index.terminate host Index.initial in
          state_of first
          = Index.MkState (Some 0%nat)
              [Index.MkWorkerTimer w
                 (Protocol.MkSystem MainSide.initial WorkerSide.initial
                    [] [] true)]
          /\ trace_of first
             = (Index.EvHost
                  <$> trace_of (CreateWorker.createWorker host
                                  Index._timerWorker
                                  (Some CreateWorker.TypeModule) Index.initial))
               ++ [Index.EvCreated 0%nat w; Index.EvDefault 0%nat;
                   Index.EvOn 0%nat MainSide.EvTerminate]
          /\ forall (host' : CreateWorker.Host) (c : MainSide.ApiCall),
               Index.bare host' c (state_of first)
               = Index.method 0%nat c (state_of first)
               /\ Index.defaultWorkerTimer
                    (state_of (Index.bare host' c (state_of first)))
                  = Some 0%nat
               /\ IndexTrace.default_terminated
                    (state_of (Index.bare host' c (state_of first)))
                  = Some true).
Proof.
  intros inputs ms T.
  pose proof (run_keeps inputs Index.initial default_valid_initial)
    as (_ & Hv & _ & Hle).
  cbv zeta in Hv, Hle. fold ms in Hv. fold T in Hle.
  split; [exact Hle |]. split; [| split; [| split]].
  - intros r i Hr.
    pose proof (handle_keeps i ms Hv) as (Hext & _ & Hsome & _).
    destruct (Hsome r Hr) as [Hr' Hn]. split; [exact Hr' |].
    split; [exact Hn |].
    destruct (lookup_lt_is_Some_2 (Index.objects ms) r (Hv r Hr)) as [o Ho].
    destruct (proj2 Hext r o Ho) as (o' & Ho' & Hw).
    by exists o, o'.
  - intros r host c Hr. by apply bare_default_set.
  - intros host c w Hnone Hw. by apply bare_creates.
  - intros host w Hw first.
    pose proof (bare_creates host MainSide.Call_terminate Index.initial w
                  eq_refl Hw) as Hfirst.
    cbv zeta in Hfirst.
    change (Index.bare host MainSide.Call_terminate Index.initial)
      with first in Hfirst.
    assert (Hst : state_of first
                  = Index.MkState (Some 0%nat)
                      [Index.MkWorkerTimer w
                         (Protocol.MkSystem MainSide.initial
                            WorkerSide.initial [] [] true)])
      by (rewrite Hfirst; reflexivity).
    split; [exact Hst |]. split; [by rewrite Hfirst |].
    intros host' c. rewrite Hst.
    set (ms1 := Index.MkState (Some 0%nat)
                  [Index.MkWorkerTimer w
                     (Protocol.MkSystem MainSide.initial WorkerSide.initial
                        [] [] true)]).
    rewrite (bare_default_set host' c ms1 0%nat eq_refl).
    split; [reflexivity |]. subst ms1.
    unfold Index.method. cbn [Index.objects lookup list_lookup].
    cbn [Index.wt_system Index.wt_worker Protocol.main].
    destruct (MainSide.call c MainSide.initial) as [[res m] t].
    unfold state_of; cbn [fst snd]. done.
Qed.

Lemma default_instance_created_once_witness :
  Index.bare host_data_url_blocked (MainSide.Call_clearTimeout 3)
    (state_of (Index.terminate host_ok Index.initial))
  = Index.method 0%nat (MainSide.Call_clearTimeout 3)
      (state_of (Index.terminate host_ok Index.initial))
  /\ IndexTrace.default_terminated
       (state_of (Index.bare host_data_url_blocked
                    (MainSide.Call_clearTimeout 3)
                    (state_of (Index.terminate host_ok Index.initial))))
     = Some true.
Proof.
  destruct (default_instance_created_once []) as (_ & _ & _ & _ & Hterm).
  destruct (Hterm host_ok 11%nat eq_refl) as (_ & _ & Hlater).
  destruct (Hlater host_data_url_blocked (MainSide.Call_clearTimeout 3))
    as (Hroute & _ & Hstill).
  split; [exact Hroute | exact Hstill].
Defined.

(** C10 as stated fails: the first bare call does not create the default
    instance when the worker cannot be created. The call throws, no
    object exists afterwards and [defaultWorkerTimer] is still unset; it
    is the next bare call, made when a worker can be created, that
    creates the default instance. *)
Lemma first_bare_call_creates_nothing_when_worker_fails :
  let first := Index.bare host_all_throw
                 (MainSide.Call_setTimeout 7%nat None []) Index.initial in
  let second := Index.bare host_ok
                  (MainSide.Call_setTimeout 7%nat None []) (state_of first) in
  outcome_of first = Throws 2%nat
  /\ Index.defaultWorkerTimer (state_of first) = None
  /\ Index.objects (state_of first) = []
  /\ Index.default_assignments (trace_of first) = 0%nat
  /\ outcome_of second = Normal (Some 0)
  /\ Index.defaultWorkerTimer (state_of second) = Some 0%nat
  /\ Index.default_assignments (trace_of second) = 1%nat.
Proof. vm_compute. repeat split. Qed.

(** ** Worker construction: object URLs and shared workers *)

Lemma createWorker_eq {S : Type} (host : CreateWorker.Host)
    (f : CreateWorker.Fn) (options : option CreateWorker.WorkerOptions)
    (s : S) :
  CreateWorker.createWorker host f options s
  = match CreateWorker.host_dataUrl host f with
    | Normal durl =>
        match CreateWorker.host_newWorker host durl options with
        | Normal w =>
            (Normal w, s,
             [CreateWorker.H_dataUrl f; CreateWorker.H_newWorker durl options])
        | Throws _ =>
            let '(r, _, t) :=
              CreateWorker.createWorkerWithBlob host f options s in
            (r, s,
             [CreateWorker.H_dataUrl f; CreateWorker.H_newWorker durl options]
             ++ t)
        end
    | Throws _ =>
        let '(r, _, t) := CreateWorker.createWorkerWithBlob host f options s in
        (r, s, [CreateWorker.H_dataUrl f] ++ t)
    end.
Proof.
  rewrite createWorker_cases, createWorkerWithDataUrl_eq.
  pose proof (createWorkerWithBlob_eq host f options s) as HB.
  destruct (CreateWorker.host_dataUrl host f) as [durl | e].
  - destruct (CreateWorker.host_newWorker host durl options) as [w | e];
      [reflexivity |].
    unfold outcome_of at 1, trace_of at 1; cbn [fst snd].
    destruct (CreateWorker.createWorkerWithBlob host f options s)
      as [[r s1] t1] eqn:Hblob.
    unfold outcome_of, state_of, trace_of; cbn [fst snd].
    assert (s1 = s) as ->; [| reflexivity].
    destruct (CreateWorker.host_objectUrl host f) as [url | e'];
      [destruct (CreateWorker.host_newWorker host url options) |];
      by injection HB as _ <- _.
  - unfold outcome_of at 1, trace_of at 1; cbn [fst snd].
    destruct (CreateWorker.createWorkerWithBlob host f options s)
      as [[r s1] t1] eqn:Hblob.
    unfold outcome_of, state_of, trace_of; cbn [fst snd].
    assert (s1 = s) as ->; [| reflexivity].
    destruct (CreateWorker.host_objectUrl host f) as [url | e'];
      [destruct (CreateWorker.host_newWorker host url options) |];
      by injection HB as _ <- _.
Qed.

(** X8. The blob strategy revokes the object URL it created exactly when
    the constructor returned a worker, and only after the constructor
    call. When the constructor throws on the object URL, [createWorker]
    throws that error and the URL it created is never revoked.
    [createWorker] revokes at most one URL, and never one it did not
    create in that call. *)
Theorem createWorker_revokes_iff_constructed :
  forall (S : Type) (host : CreateWorker.Host) (f : CreateWorker.Fn)
         (options : option CreateWorker.WorkerOptions) (s : S),
    let A := CreateWorker.createWorkerWithDataUrl host f options s in
    let R := CreateWorker.createWorker host f options s in
    (length (worker_revoked (trace_of R)) <= 1)%nat
    /\ (forall url, url ∈ worker_revoked (trace_of R) ->
          CreateWorker.host_objectUrl host f = Normal url
          /\ (exists e, outcome_of A = Throws e)
          /\ exists w, CreateWorker.host_newWorker host url options = Normal w
                       /\ outcome_of R = Normal w)
    /\ (forall e1 url w,
          outcome_of A = Throws e1 ->
          CreateWorker.host_objectUrl host f = Normal url ->
          CreateWorker.host_newWorker host url options = Normal w ->
          R = (Normal w, s,
               trace_of A
               ++ [CreateWorker.H_objectUrl f;
                   CreateWorker.H_newWorker url options;
                   CreateWorker.H_revokeObjectURL url]))
    /\ (forall e1 url e,
          outcome_of A = Throws e1 ->
          CreateWorker.host_objectUrl host f = Normal url ->
          CreateWorker.host_newWorker host url options = Throws e ->
          R = (Throws e, s,
               trace_of A
               ++ [CreateWorker.H_objectUrl f;
                   CreateWorker.H_newWorker url options])
          /\ worker_revoked (trace_of R) = []).
Proof.
  intros S host f options s A R. subst A R.
  rewrite createWorker_eq, createWorkerWithDataUrl_eq, createWorkerWithBlob_eq.
  destruct (CreateWorker.host_dataUrl host f) as [durl | e0].
  - destruct (CreateWorker.host_newWorker host durl options) as [w0 | e0]
      eqn:Hd.
    + unfold trace_of, outcome_of; cbn.
      split; [lia |]. split; [intros url Hin; by apply elem_of_nil in Hin |].
      split; intros; discriminate.
    + destruct (CreateWorker.host_objectUrl host f) as [url | e1].
      * destruct (CreateWorker.host_newWorker host url options) as [w | e]
          eqn:Hn; unfold trace_of, outcome_of; cbn.
        -- split; [lia |]. split; [| split].
           ++ intros url' Hin. apply list_elem_of_singleton in Hin as ->.
              split; [done |]. split; [by eexists |]. exists w. by rewrite Hn.
           ++ intros e1 url' w' _ [= <-] Hw. rewrite Hn in Hw.
              by injection Hw as <-.
           ++ intros e1 url' e _ [= <-] Hw. rewrite Hn in Hw. discriminate.
        -- split; [lia |].
           split; [intros url' Hin; by apply elem_of_nil in Hin |].
           split.
           ++ intros e1 url' w' _ [= <-] Hw. rewrite Hn in Hw. discriminate.
           ++ intros e1 url' e' _ [= <-] Hw. rewrite Hn in Hw.
              by injection Hw as <-.
      * unfold trace_of, outcome_of; cbn. split; [lia |].
        split; [intros url' Hin; by apply elem_of_nil in Hin |].
        split; intros; discriminate.
  - destruct (CreateWorker.host_objectUrl host f) as [url | e1].
    + destruct (CreateWorker.host_newWorker host url options) as [w | e]
        eqn:Hn; unfold trace_of, outcome_of; cbn.
      * split; [lia |]. split; [| split].
        -- intros url' Hin. apply list_elem_of_singleton in Hin as ->.
           split; [done |]. split; [by eexists |]. exists w. by rewrite Hn.
        -- intros e1 url' w' _ [= <-] Hw. rewrite Hn in Hw.
           by injection Hw as <-.
        -- intros e1 url' e _ [= <-] Hw. rewrite Hn in Hw. discriminate.
      * split; [lia |].
        split; [intros url' Hin; by apply elem_of_nil in Hin |].
        split.
        -- intros e1 url' w' _ [= <-] Hw. rewrite Hn in Hw. discriminate.
        -- intros e1 url' e' _ [= <-] Hw. rewrite Hn in Hw.
           by injection Hw as <-.
    + unfold trace_of, outcome_of; cbn. split; [lia |].
      split; [intros url' Hin; by apply elem_of_nil in Hin |].
      split; intros; discriminate.
Qed.

Lemma createWorker_revokes_iff_constructed_witness :
  CreateWorker.createWorker host_blob_rejected Index._timerWorker None tt
  = (Throws 8%nat, tt,
     [CreateWorker.H_dataUrl 0%nat; CreateWorker.H_objectUrl 0%nat;
      CreateWorker.H_newWorker 2%nat None])
  /\ CreateWorker.createWorker host_data_url_blocked Index._timerWorker None tt
     = (Normal 12%nat, tt,
        [CreateWorker.H_dataUrl 0%nat; CreateWorker.H_objectUrl 0%nat;
         CreateWorker.H_newWorker 2%nat None;
         CreateWorker.H_revokeObjectURL 2%nat]).
Proof.
  split.
  - destruct (createWorker_revokes_iff_constructed unit host_blob_rejected
                Index._timerWorker None tt) as (_ & _ & _ & Hleak).
    destruct (Hleak 7%nat 2%nat 8%nat eq_refl eq_refl eq_refl) as [HR _].
    exact HR.
  - destruct (createWorker_revokes_iff_constructed unit host_data_url_blocked
                Index._timerWorker None tt) as (_ & _ & Hrevoked & _).
    exact (Hrevoked 7%nat 2%nat 12%nat eq_refl eq_refl eq_refl).
Defined.

Section SharedWorkerFacts.

Context {S : Type} (host : CreateSharedWorker.Host).

Lemma createSharedWorkerWithDataUrl_eq (f : CreateWorker.Fn)
    (options : option CreateSharedWorker.SharedWorkerOptions) (s : S) :
  CreateSharedWorker.createSharedWorkerWithDataUrl host f options s
  = match CreateWorker.host_dataUrl (CreateSharedWorker.host_urls host) f with
    | Normal url =>
        (CreateSharedWorker.host_newSharedWorker host url options, s,
         [CreateSharedWorker.H_url (CreateWorker.H_dataUrl f);
          CreateSharedWorker.H_newSharedWorker url options])
    | Throws e =>
        (Throws e, s, [CreateSharedWorker.H_url (CreateWorker.H_dataUrl f)])
    end.
Proof.
  unfold CreateSharedWorker.createSharedWorkerWithDataUrl,
    CreateSharedWorker.new_SharedWorker, CreateWorker.functionToDataUrl,
    map_events, host_result, emit, bind.
  destruct (CreateWorker.host_dataUrl (CreateSharedWorker.host_urls host) f)
    as [url | e]; [| reflexivity].
  destruct (CreateSharedWorker.host_newSharedWorker host url options);
    reflexivity.
Qed.

Lemma createSharedWorkerWithBlob_eq (f : CreateWorker.Fn)
    (options : option CreateSharedWorker.SharedWorkerOptions) (s : S) :
  CreateSharedWorker.createSharedWorkerWithBlob host f options s
  = match CreateWorker.host_objectUrl (CreateSharedWorker.host_urls host) f with
    | Normal url =>
        match CreateSharedWorker.host_newSharedWorker host url options with
        | Normal w =>
            (Normal w, s,
             [CreateSharedWorker.H_url (CreateWorker.H_objectUrl f);
              CreateSharedWorker.H_newSharedWorker url options;
              CreateSharedWorker.H_url (CreateWorker.H_revokeObjectURL url)])
        | Throws e =>
            (Throws e, s,
             [CreateSharedWorker.H_url (CreateWorker.H_objectUrl f);
              CreateSharedWorker.H_newSharedWorker url options])
        end
    | Throws e =>
        (Throws e, s, [CreateSharedWorker.H_url (CreateWorker.H_objectUrl f)])
    end.
Proof.
  unfold CreateSharedWorker.createSharedWorkerWithBlob,
    CreateSharedWorker.new_SharedWorker, CreateWorker.functionToObjectUrl,
    CreateWorker.revokeObjectURL, map_events, host_result, emit, ret, bind.
  destruct (CreateWorker.host_objectUrl (CreateSharedWorker.host_urls host) f)
    as [url | e]; [| reflexivity].
  destruct (CreateSharedWorker.host_newSharedWorker host url options);
    reflexivity.
Qed.

Lemma createSharedWorker_cases (f : CreateWorker.Fn)
    (options : option CreateSharedWorker.SharedWorkerOptions) (s : S) :
  let A := CreateSharedWorker.createSharedWorkerWithDataUrl host f options s in
  let B := CreateSharedWorker.createSharedWorkerWithBlob host f options s in
  CreateSharedWorker.createSharedWorker host f options s
  = match outcome_of A with
    | Normal w => A
    | Throws _ => (outcome_of B, s, trace_of A ++ trace_of B)
    end.
Proof.
  intros A B. subst A B.
  unfold CreateSharedWorker.createSharedWorker, try_catch.
  rewrite createSharedWorkerWithDataUrl_eq.
  pose proof (createSharedWorkerWithBlob_eq f options s) as HB.
  assert (Hst : state_of
                  (CreateSharedWorker.createSharedWorkerWithBlob host f options s)
                = s).
  { rewrite HB.
    destruct (CreateWorker.host_objectUrl (CreateSharedWorker.host_urls host) f)
      as [url | e]; [| reflexivity].
    destruct (CreateSharedWorker.host_newSharedWorker host url options);
      reflexivity. }
  clear HB.
  destruct (CreateWorker.host_dataUrl (CreateSharedWorker.host_urls host) f)
    as [url | e];
    [destruct (CreateSharedWorker.host_newSharedWorker host url options);
       [reflexivity |] |];
    destruct (CreateSharedWorker.createSharedWorkerWithBlob host f options s)
      as [[r s1] t1];
    unfold state_of in Hst; cbn [fst snd] in Hst; subst s1; reflexivity.
Qed.

End SharedWorkerFacts.

(** X7. [createSharedWorker] has the fallback of [createWorker]: it runs
    the data-URL strategy first, runs the blob strategy if and only if
    the first throws, and then returns or throws what the blob strategy
    does. It calls the [SharedWorker] constructor at most twice, leaves
    the state alone, revokes an object URL only after a constructor call
    on that URL, and at most one. *)
Theorem createSharedWorker_fallback :
  forall (S : Type) (host : CreateSharedWorker.Host) (f : CreateWorker.Fn)
         (options : option CreateSharedWorker.SharedWorkerOptions) (s : S),
    let A := CreateSharedWorker.createSharedWorkerWithDataUrl host f options s in
    let B := CreateSharedWorker.createSharedWorkerWithBlob host f options s in
    let R := CreateSharedWorker.createSharedWorker host f options s in
    (exists rest, trace_of R = trace_of A ++ rest)
    /\ (CreateSharedWorker.uses_blob (trace_of R) = true
        <-> exists e, outcome_of A = Throws e)
    /\ (forall w, outcome_of A = Normal w -> R = A)
    /\ (forall e, outcome_of A = Throws e ->
          R = (outcome_of B, s, trace_of A ++ trace_of B))
    /\ state_of R = s
    /\ (length (CreateSharedWorker.constructed (trace_of R)) <= 2)%nat
    /\ (length (CreateSharedWorker.revoked (trace_of R)) <= 1)%nat
    /\ (forall url, url ∈ CreateSharedWorker.revoked (trace_of R) ->
          exists w,
            CreateSharedWorker.host_newSharedWorker host url options = Normal w
            /\ outcome_of R = Normal w
            /\ url ∈ CreateSharedWorker.constructed (trace_of R)).
Proof.
  intros S host f options s A B R. subst A B R.
  rewrite createSharedWorker_cases, createSharedWorkerWithDataUrl_eq,
    createSharedWorkerWithBlob_eq.
  destruct (CreateWorker.host_dataUrl (CreateSharedWorker.host_urls host) f)
    as [durl | e0];
    [destruct (CreateSharedWorker.host_newSharedWorker host durl options)
       as [w0 | e0] |];
    (destruct (CreateWorker.host_objectUrl (CreateSharedWorker.host_urls host) f)
       as [url | e1];
     [destruct (CreateSharedWorker.host_newSharedWorker host url options)
        as [w | e] eqn:Hn |]);
    unfold outcome_of, state_of, trace_of; cbn;
    (split; [by eexists |]);
    (split; [split; [try discriminate; intros _; by eexists
                    | try reflexivity; intros [? [=]]] |]);
    (split; [intros ? [=]; reflexivity || done |]);
    (split; [intros ? [=]; reflexivity || done |]);
    (split; [reflexivity |]); (split; [lia |]); (split; [lia |]);
    intros url' Hin;
    try (by apply elem_of_nil in Hin);
    apply list_elem_of_singleton in Hin as ->;
    exists w; (split; [exact Hn |]); (split; [reflexivity |]);
    set_solver.
Qed.

Lemma createSharedWorker_fallback_witness :
  outcome_of (CreateSharedWorker.createSharedWorker shared_host_blob_only
                Index._timerWorker None tt) = Normal 20%nat
  /\ CreateSharedWorker.revoked
       (trace_of (CreateSharedWorker.createSharedWorker shared_host_blob_only
                    Index._timerWorker None tt)) = [2%nat].
Proof.
  destruct (createSharedWorker_fallback unit shared_host_blob_only
              Index._timerWorker None tt)
    as (_ & _ & _ & Hblob & _).
  rewrite (Hblob 9%nat eq_refl). split; reflexivity.
Defined.

Example shared_blob_fallback :
  CreateSharedWorker.createSharedWorker shared_host_blob_only
    Index._timerWorker None tt
  = (Normal 20%nat, tt,
     [CreateSharedWorker.H_url (CreateWorker.H_dataUrl 0%nat);
      CreateSharedWorker.H_newSharedWorker 1%nat None;
      CreateSharedWorker.H_url (CreateWorker.H_objectUrl 0%nat);
      CreateSharedWorker.H_newSharedWorker 2%nat None;
      CreateSharedWorker.H_url (CreateWorker.H_revokeObjectURL 2%nat)]).
Proof. reflexivity. Qed.

(** ** Whole runs of the main side *)

Section RunFacts.

Import MainSide MainTrace.

Lemma replay_announced T x y :
  replay T x = Some y ->
  History.unposted x.2 ++ History.announced T
  = History.set_messages (posted T) ++ History.unposted y.2.
Proof.
  revert x. induction T as [| e T IH]; intros x H; cbn in H.
  - injection H as <-. cbn. by rewrite app_nil_r.
  - destruct (observe e x) as [z |] eqn:Hz; [| discriminate].
    specialize (IH z H). destruct x as [m p].
    observe_inv Hz; subst; cbn [fst snd History.unposted] in *;
      unfold History.announced, History.set_messages, posted in *;
      cbn [omap option_bind list_omap mbind List.filter
             Protocol.asks_for_timer app] in *;
      try exact IH.
    by rewrite IH.
Qed.

(** A transaction in the registry stays as it is until it is removed. *)
Lemma replay_keeps_transaction T x y id t :
  wfp x -> replay T x = Some y ->
  idMap x.1 !! id = Some t ->
  idMap y.1 !! id = Some t \/ retired id y.
Proof.
  revert x. induction T as [| e T IH]; intros x Hx H Hlook; cbn in H.
  - injection H as <-. by left.
  - destruct (observe e x) as [z |] eqn:Hz; [| discriminate].
    pose proof (observe_wfp _ _ _ Hx Hz) as Hwz.
    assert (Hstep : idMap z.1 !! id = Some t \/ retired id z).
    { destruct x as [m p]. destruct Hx as [[_ Hwf] _].
      cbn [fst snd] in Hwf, Hlook. destruct (Hwf _ _ Hlook) as [Hlt _].
      observe_inv Hz; subst; cbn [fst snd idMap]; try (by left).
      - destruct a as (-> & _ & _). left.
        rewrite lookup_insert_ne by lia. exact Hlook.
      - destruct (decide (id0 = id)) as [-> | Hne].
        + right. split; cbn [fst snd idMap seq];
            [apply lookup_delete_eq | lia].
        + left. by rewrite lookup_delete_ne.
      - destruct (decide (id0 = id)) as [-> | Hne].
        + right. split; cbn [fst snd idMap seq];
            [apply lookup_delete_eq | lia].
        + left. by rewrite lookup_delete_ne. }
    destruct Hstep as [Hkeep | Hret]; [by eapply IH |].
    right. by destruct (retired_stays _ _ _ _ Hret H).
Qed.

(** Every call of a callback uses the function and the arguments of a
    transaction stored earlier under the id. *)
Lemma replay_calls_stored T x y (pre : list Event) :
  replay T x = Some y ->
  (forall id t, idMap x.1 !! id = Some t -> In (EvSet id t) pre) ->
  forall id func args,
    In (EvCall id func args) T ->
    exists t, In (EvSet id t) (pre ++ T)
              /\ func = user_func (tx_func t) /\ args = tx_args t.
Proof.
  revert x pre. induction T as [| e T IH]; intros x pre H Hpre id func args Hin;
    [destruct Hin |].
  cbn in H. destruct (observe e x) as [z |] eqn:Hz; [| discriminate].
  assert (Hpre' : forall id t, idMap z.1 !! id = Some t ->
                               In (EvSet id t) (pre ++ [e])).
  { intros id' t' Hl. destruct x as [m p]. cbn [fst snd] in Hpre.
    observe_inv Hz; subst; cbn [fst snd idMap] in Hl;
      try (apply in_or_app; left; by apply Hpre).
    - apply lookup_insert_Some in Hl as [[<- <-] | [_ Hl]].
      + apply in_or_app. right. by left.
      + apply in_or_app. left. by apply Hpre.
    - apply lookup_delete_Some in Hl as [_ Hl].
      apply in_or_app. left. by apply Hpre.
    - apply lookup_delete_Some in Hl as [_ Hl].
      apply in_or_app. left. by apply Hpre. }
  destruct Hin as [-> | Hin].
  - destruct x as [m p]. cbn [fst snd] in Hpre.
    destruct p; cbn [observe] in Hz; try discriminate Hz.
    destruct (idMap m !! id) as [t |] eqn:Hl; [| discriminate Hz].
    case_decide as Hd; [| discriminate Hz]. destruct Hd as [-> ->].
    exists t. split; [| done]. apply in_or_app. left. by apply Hpre.
  - destruct (IH z (pre ++ [e]) H Hpre' id func args Hin) as (t & Ht & Hf).
    exists t. split; [| exact Hf]. by rewrite <- app_assoc in Ht.
Qed.

End RunFacts.

Section HistoryFacts.

Import MainSide MainTrace.

Lemma set_ids_set_messages q :
  set_ids (History.set_messages q) = set_ids q.
Proof.
  induction q as [| [id ty d | id k] q IH]; [done | | exact IH].
  change (id :: set_ids (History.set_messages q) = id :: set_ids q).
  by rewrite IH.
Qed.

Lemma announced_ids T : set_ids (History.announced T) = (History.sets T).*1.
Proof.
  induction T as [| e T IH]; [done |].
  destruct e; try exact IH.
  change (id :: set_ids (History.announced T) = id :: (History.sets T).*1).
  by rewrite IH.
Qed.

Lemma sets_elem T id t : (id, t) ∈ History.sets T <-> In (EvSet id t) T.
Proof.
  unfold History.sets. rewrite list_elem_of_omap. split.
  - intros (e & He & Heq). destruct e; try discriminate Heq.
    injection Heq as -> ->. by apply list_elem_of_In.
  - intros Hin. exists (EvSet id t). split; [by apply list_elem_of_In | done].
Qed.

(** What a whole run of the system stores and posts. *)
Lemma steps_history ls s T :
  Protocol.steps ls Protocol.initial = Some (s, T) ->
  History.set_messages (posted T) = History.announced T
  /\ (History.sets T).*1 = ids_from 0 (length (History.sets T))
  /\ returned T = (History.sets T).*1
  /\ seq (Protocol.main s) = Z.of_nat (length (History.sets T)).
Proof.
  intros Hsteps. pose proof (steps_replay _ _ _ _ Hsteps) as Hr.
  pose proof (replay_announced _ _ _ Hr) as Ha. cbn in Ha.
  rewrite app_nil_r in Ha.
  destruct (replay_set_ids _ _ _ (wfp_idle _ wf_initial) Hr) as [Hids Hn].
  destruct (replay_returned _ _ _ (wfp_idle _ wf_initial) Hr) as [Hret Hn'].
  unfold next_post in Hn, Hids. unfold next_return in Hn', Hret.
  cbn [fst snd seq initial Protocol.main Protocol.initial] in *.
  assert (Hkeys : set_ids (posted T) = (History.sets T).*1).
  { by rewrite <- announced_ids, Ha, set_ids_set_messages. }
  assert (Hlen : length (set_ids (posted T)) = length (History.sets T)).
  { by rewrite Hkeys, length_fmap. }
  assert (Hlen' : length (returned T) = length (History.sets T)) by lia.
  split; [done |]. split; [by rewrite <- Hkeys, Hids at 1; rewrite Hlen |].
  split; [| lia]. rewrite Hret, Hlen', <- Hkeys, Hids. by rewrite Hlen.
Qed.

Lemma NoDup_fst_unique {A B : Type} (l : list (A * B)) x y1 y2 :
  NoDup (l.*1) -> (x, y1) ∈ l -> (x, y2) ∈ l -> y1 = y2.
Proof.
  induction l as [| [a b] l IH]; intros Hnd H1 H2;
    [by apply elem_of_nil in H1 |].
  cbn in Hnd. apply NoDup_cons in Hnd as [Hnotin Hnd].
  apply elem_of_cons in H1 as [H1 | H1];
    apply elem_of_cons in H2 as [H2 | H2]; simplify_eq.
  - reflexivity.
  - exfalso. apply Hnotin. apply list_elem_of_fmap. by exists (a, y2).
  - exfalso. apply Hnotin. apply list_elem_of_fmap. by exists (a, y1).
  - by apply IH.
Qed.

(** Each id is stored once. *)
Lemma steps_set_once ls s T id t t' :
  Protocol.steps ls Protocol.initial = Some (s, T) ->
  In (EvSet id t) T -> In (EvSet id t') T -> t' = t.
Proof.
  intros Hsteps Ht Ht'. destruct (steps_history _ _ _ Hsteps) as (_ & Hk & _).
  assert (Hnd : NoDup (History.sets T).*1).
  { rewrite Hk. apply ids_from_NoDup. }
  apply sets_elem in Ht, Ht'.
  exact (NoDup_fst_unique _ _ _ _ Hnd Ht' Ht).
Qed.

End HistoryFacts.

Example interval_cancelled_outcome :
  Protocol.steps interval_cancelled Protocol.initial
  = Some (interval_cancelled_state, interval_cancelled_trace).
Proof. vm_compute. reflexivity. Qed.

Lemma replay_sets_wf T x y id t :
  MainTrace.replay T x = Some y -> In (MainSide.EvSet id t) T ->
  MainSide.tx_id t = id /\ MainTrace.func_matches t.
Proof.
  revert x. induction T as [| e T IH]; intros x H Hin; [destruct Hin |].
  cbn in H. destruct (MainTrace.observe e x) as [z |] eqn:Hz; [| discriminate].
  destruct Hin as [-> | Hin]; [| by eapply IH].
  destruct x as [m p]. destruct p; cbn [MainTrace.observe] in Hz;
    try discriminate Hz.
  case_decide as Hd; [| discriminate Hz]. by destruct Hd as (_ & ? & ?).
Qed.

(** X5. Over any run of the system, the [SetTimerMessage]s posted to the
    worker are, in order, exactly the announcements of the transactions
    stored: one message per stored transaction, with its id, type and
    duration, and no other. Their ids are the ids returned, 0, 1, 2, ...,
    so that no id is ever scheduled twice on the worker. *)
Theorem stored_requests_posted_once :
  forall (ls : list Protocol.Label) (s : Protocol.System)
         (T : list MainSide.Event),
    Protocol.steps ls Protocol.initial = Some (s, T) ->
    History.set_messages (MainSide.posted T) = History.announced T
    /\ MainTrace.set_ids (MainSide.posted T) = MainSide.returned T
    /\ MainSide.returned T
       = MainTrace.ids_from 0 (length (MainSide.returned T))
    /\ NoDup (MainTrace.set_ids (MainSide.posted T)).
Proof.
  intros ls s T Hsteps.
  destruct (steps_history _ _ _ Hsteps) as (Ha & Hk & Hret & _).
  assert (Hids : MainTrace.set_ids (MainSide.posted T) = MainSide.returned T).
  { by rewrite <- set_ids_set_messages, Ha, announced_ids, Hret. }
  split; [exact Ha |]. split; [exact Hids |].
  assert (Hr : MainSide.returned T
               = MainTrace.ids_from 0 (length (MainSide.returned T))).
  { rewrite Hret at 1. rewrite Hk. by rewrite Hret, length_fmap. }
  split; [exact Hr |]. rewrite Hids, Hr. apply ids_from_NoDup.
Qed.

Lemma stored_requests_posted_once_witness :
  History.set_messages (MainSide.posted interval_cancelled_trace)
  = [SetTimerMessage 0 T_setInterval 1000].
Proof.
  destruct (stored_requests_posted_once interval_cancelled
              interval_cancelled_state interval_cancelled_trace)
    as (Hposted & _).
  - vm_compute. reflexivity.
  - exact Hposted.
Defined.

(** X10. Over any run of the system, whenever a user callback is called
    on behalf of an id, it is the function given to the scheduling call
    that returned that id, called with the arguments given to that call:
    the id was returned, exactly one transaction was ever stored under
    it, and the call uses that transaction's function and arguments. *)
Theorem callbacks_called_as_stored :
  forall (ls : list Protocol.Label) (s : Protocol.System)
         (T : list MainSide.Event) (id : TimerId) (func : TimerHandler)
         (args : list Value),
    Protocol.steps ls Protocol.initial = Some (s, T) ->
    In (MainSide.EvCall id func args) T ->
    id ∈ MainSide.returned T
    /\ exists t,
         In (MainSide.EvSet id t) T
         /\ MainSide.tx_id t = id
         /\ func = MainTrace.user_func (MainSide.tx_func t)
         /\ args = MainSide.tx_args t
         /\ forall t', In (MainSide.EvSet id t') T -> t' = t.
Proof.
  intros ls s T id func args Hsteps Hcall.
  pose proof (steps_replay _ _ _ _ Hsteps) as Hr.
  destruct (replay_calls_stored T _ _ [] Hr) with id func args
    as (t & Ht & Hf & Ha); [| exact Hcall |].
  { intros id' t' Hl. cbn in Hl. by rewrite lookup_empty in Hl. }
  cbn [app] in Ht.
  destruct (steps_history _ _ _ Hsteps) as (_ & _ & Hret & _).
  split.
  - rewrite Hret. apply list_elem_of_fmap. exists (id, t).
    split; [done | by apply sets_elem].
  - exists t. split; [exact Ht |].
    split; [by destruct (replay_sets_wf _ _ _ _ _ Hr Ht) |].
    split; [exact Hf |]. split; [exact Ha |].
    intros t' Ht'. by eapply steps_set_once.
Qed.

Lemma callbacks_called_as_stored_witness :
  exists t,
    In (MainSide.EvSet 0 t) interval_cancelled_trace
    /\ 7%nat = MainTrace.user_func (MainSide.tx_func t)
    /\ [3] = MainSide.tx_args t.
Proof.
  destruct (callbacks_called_as_stored interval_cancelled
              interval_cancelled_state interval_cancelled_trace 0 7%nat [3])
    as (_ & t & Ht & _ & Hf & Ha & _).
  - vm_compute. reflexivity.
  - vm_compute. tauto.
  - exists t. done.
Defined.

(** X1. Over any run of the system, once a cancel call is made for an id
    that a scheduling call has returned, the callback of that id is
    never called again, whatever its kind, however often it was called
    before and whatever messages are still on their way; at the end of
    the run the registry has no transaction for the id. *)
Theorem cancel_stops_callback :
  forall (ls : list Protocol.Label) (s : Protocol.System)
         (T T1 T3 : list MainSide.Event) (id : TimerId) (k : ClearType),
    Protocol.steps ls Protocol.initial = Some (s, T) ->
    T = T1 ++ MainSide.EvPost (ClearTimerMessage id k) :: T3 ->
    id ∈ MainSide.returned T1 ->
    MainTrace.never_called id T3
    /\ MainSide.idMap (Protocol.main s) !! id = None.
Proof.
  intros ls s T T1 T3 id k Hsteps -> Hin.
  pose proof (steps_replay _ _ _ _ Hsteps) as Hr.
  rewrite replay_app in Hr.
  destruct (MainTrace.replay T1 _) as [x1 |] eqn:H1; [| discriminate].
  pose proof (wfp_idle _ wf_initial) as Hx0.
  destruct (replay_returned _ _ _ Hx0 H1) as [Hret Hnext].
  rewrite Hret in Hin. apply ids_from_elem in Hin.
  destruct (clear_post_then_delete _ _ _ _ _ Hr eq_refl)
    as (T3' & -> & Hidle & H3).
  destruct x1 as [m1 p1]. cbn [fst snd] in Hidle, H3. subst p1.
  unfold MainTrace.next_return in Hnext, Hin. cbn [fst snd] in Hnext, Hin.
  assert (Hretired : MainTrace.retired id
            (MainSide.MkState (delete id (MainSide.idMap m1))
               (MainSide.seq m1), MainTrace.Idle)).
  { split; cbn [fst snd MainSide.idMap MainSide.seq];
      [apply lookup_delete_eq | lia]. }
  destruct (retired_stays _ _ _ _ Hretired H3) as [Hnever [Hnone _]].
  split; [| exact Hnone]. constructor; [reflexivity | exact Hnever].
Qed.

Lemma cancel_stops_callback_witness :
  MainTrace.never_called 0 [MainSide.EvDelete 0]
  /\ MainSide.idMap (Protocol.main interval_cancelled_state) !! 0 = None.
Proof.
  apply (cancel_stops_callback interval_cancelled interval_cancelled_state
           interval_cancelled_trace
           [MainSide.EvSet 0 (MainSide.Transaction 0 T_setInterval
                                (MainSide.Plain 7%nat) 1000 [3]);
            MainSide.EvPost (SetTimerMessage 0 T_setInterval 1000);
            MainSide.EvReturn 0;
            MainSide.EvCall 0 7%nat [3]]
           [MainSide.EvDelete 0] 0 T_clearInterval).
  - vm_compute. reflexivity.
  - reflexivity.
  - vm_compute. left.
Defined.

(** X3. Between any two states of a run of the system the counter never
    decreases, a transaction that is in the registry in both is the same
    transaction, and an id that was handed out and has no transaction
    never gets one again, nor is its callback called again. A
    transaction that appears is stored under an id that had not been
    handed out. *)
Theorem transactions_never_change :
  forall (ls1 ls2 : list Protocol.Label) (s1 s2 : Protocol.System)
         (T1 T2 : list MainSide.Event) (id : TimerId),
    Protocol.steps ls1 Protocol.initial = Some (s1, T1) ->
    Protocol.steps ls2 s1 = Some (s2, T2) ->
    MainSide.seq (Protocol.main s1) <= MainSide.seq (Protocol.main s2)
    /\ (forall t t',
          MainSide.idMap (Protocol.main s1) !! id = Some t ->
          MainSide.idMap (Protocol.main s2) !! id = Some t' -> t' = t)
    /\ (id < MainSide.seq (Protocol.main s1) ->
        MainSide.idMap (Protocol.main s1) !! id = None ->
        MainSide.idMap (Protocol.main s2) !! id = None
        /\ MainTrace.never_called id T2)
    /\ (forall t',
          MainSide.idMap (Protocol.main s1) !! id = None ->
          MainSide.idMap (Protocol.main s2) !! id = Some t' ->
          MainSide.seq (Protocol.main s1) <= id).
Proof.
  intros ls1 ls2 s1 s2 T1 T2 id H1 H2.
  pose proof (steps_wf _ _ _ _ H1 wf_initial) as Hwf.
  pose proof (wfp_idle _ Hwf) as Hx.
  pose proof (steps_replay _ _ _ _ H2) as Hr.
  pose proof (next_return_mono _ _ _ Hx Hr) as Hmono.
  unfold MainTrace.next_return in Hmono. cbn [fst snd] in Hmono.
  assert (Hgone : id < MainSide.seq (Protocol.main s1) ->
                  MainSide.idMap (Protocol.main s1) !! id = None ->
                  MainSide.idMap (Protocol.main s2) !! id = None
                  /\ MainTrace.never_called id T2).
  { intros Hlt Hnone.
    destruct (retired_stays id T2 _ _ (conj Hnone Hlt : MainTrace.retired id (Protocol.main s1, MainTrace.Idle)) Hr) as [Hn [Hl _]].
    by split. }
  split; [exact Hmono |]. split; [| split; [exact Hgone |]].
  - intros t t' Ht Ht'.
    destruct (replay_keeps_transaction _ _ _ id t Hx Hr Ht) as [Hk | [Hn _]];
      cbn [fst snd] in *; congruence.
  - intros t' Hnone Ht'.
    destruct (decide (id < MainSide.seq (Protocol.main s1))) as [Hlt |];
      [| lia].
    destruct (Hgone Hlt Hnone) as [Hn _]. congruence.
Qed.

Lemma transactions_never_change_witness :
  MainSide.idMap (Protocol.main interval_cancelled_then_timeout_state) !! 0
  = None
  /\ MainTrace.never_called 0 interval_cancelled_then_timeout_trace.
Proof.
  destruct (transactions_never_change interval_cancelled
              [Protocol.L_call (MainSide.Call_setTimeout 8%nat (Some 5) [])]
              interval_cancelled_state interval_cancelled_then_timeout_state
              interval_cancelled_trace interval_cancelled_then_timeout_trace
              0) as (_ & _ & Hgone & _).
  - vm_compute. reflexivity.
  - vm_compute. reflexivity.
  - apply Hgone; [vm_compute; reflexivity | reflexivity].
Defined.

(** ** One-shot accounting over runs *)

Section DeliveryFacts.

Import Delivery.

Lemma posted_app T1 T2 :
  MainSide.posted (T1 ++ T2) = MainSide.posted T1 ++ MainSide.posted T2.
Proof. apply omap_app. Qed.

Lemma count_sets_app id q1 q2 :
  count_sets id (q1 ++ q2) = (count_sets id q1 + count_sets id q2)%nat.
Proof.
  unfold count_sets, MainTrace.set_ids.
  by rewrite omap_app, List.filter_app, length_app.
Qed.

Lemma calls_app id T1 T2 :
  History.calls id (T1 ++ T2)
  = (History.calls id T1 + History.calls id T2)%nat.
Proof. unfold History.calls. by rewrite List.filter_app, length_app. Qed.

Lemma invokes_app id q1 q2 :
  invokes id (q1 ++ q2) = (invokes id q1 + invokes id q2)%nat.
Proof. unfold invokes. by rewrite List.filter_app, length_app. Qed.

(** The methods of the WorkerTimer call no user callback. *)
Lemma calls_call id c m :
  History.calls id (trace_of (MainSide.call c m)) = 0%nat.
Proof.
  rewrite call_eq. destruct c; rewrite ?setTimer_eq; reflexivity.
Qed.

Lemma calls_calls id cs m :
  History.calls id (trace_of (MainSide.calls cs m)) = 0%nat.
Proof.
  revert m. induction cs as [| c cs IH]; intros m; [reflexivity |].
  cbn [MainSide.calls]. unfold bind.
  pose proof (calls_call id c m) as Hc.
  destruct (call_normal c m) as [r Hr].
  destruct (MainSide.call c m) as [[o s1] t1].
  unfold outcome_of, trace_of in *; cbn [fst snd] in *. subst o.
  specialize (IH s1). destruct (MainSide.calls cs s1) as [[o2 s2] t2].
  cbn [fst snd] in *. rewrite calls_app. lia.
Qed.

(** Handling one notification calls at most the callback of its id,
    once. *)
Lemma calls_onmessage id u message m :
  (History.calls id (trace_of (MainSide.onmessage u message m))
   <= if Z.eqb (msg_id message) id then 1 else 0)%nat.
Proof.
  rewrite onmessage_eq.
  destruct (MainSide.idMap m !! msg_id message) as [t |]; [| cbn; lia].
  destruct (msg_type message); [| cbn; lia].
  assert (Hu : forall func,
            (History.calls id
               (trace_of (MainSide.call_user u (msg_id message) func
                            (MainSide.tx_args t) m))
             <= if Z.eqb (msg_id message) id then 1 else 0)%nat).
  { intros func. rewrite call_user_eq. unfold trace_of at 1; cbn [fst snd].
    change (History.calls id (?e :: ?T))
      with (length (if MainSide.called_for id e
                    then e :: List.filter (MainSide.called_for id) T
                    else List.filter (MainSide.called_for id) T)).
    pose proof (calls_calls id (MainSide.ur_calls u) m) as H0.
    unfold History.calls in H0. cbn [MainSide.called_for].
    destruct (Z.eqb_spec (msg_id message) id) as [-> | Hne].
    - rewrite bool_decide_eq_true_2 by done. cbn [length]. lia.
    - rewrite bool_decide_eq_false_2 by done. lia. }
  rewrite invoke_eq. destruct (MainSide.tx_func t) as [func i | func];
    [| apply Hu].
  specialize (Hu func).
  destruct (MainSide.call_user u (msg_id message) func (MainSide.tx_args t) m)
    as [[[[] | e] s1] t1]; unfold trace_of in *; cbn [fst snd] in *;
    [| exact Hu].
  rewrite calls_app. cbn. lia.
Qed.

Lemma delivery_initial : invariant Protocol.initial [].
Proof.
  split; [| split; [| split]].
  - intros m H. by apply elem_of_nil in H.
  - intros h nt H. cbn in H. by rewrite lookup_empty in H.
  - intros m H. by apply elem_of_nil in H.
  - intros id _. unfold pending, holds.
    change (WorkerSide.idMap (Protocol.worker Protocol.initial))
      with (∅ : gmap Z Z).
    rewrite lookup_empty. cbn. lia.
Qed.

(** A main-side turn with trace [t] that leaves the notifications [q]. *)
Lemma after_main_delivery s q m t T :
  invariant s T ->
  (forall x, x ∈ q -> x ∈ Protocol.to_main s) ->
  (forall id, (invokes id q + History.calls id t
               <= invokes id (Protocol.to_main s))%nat) ->
  invariant
    (Protocol.after_main
       (Protocol.MkSystem (Protocol.main s) (Protocol.worker s)
          (Protocol.to_worker s) q (Protocol.terminated s)) m t)
    (T ++ t).
Proof.
  intros (H1 & H2 & H3 & H4) Hq Hc.
  unfold invariant, Protocol.after_main.
  cbn [Protocol.main Protocol.worker Protocol.to_worker Protocol.to_main
       Protocol.terminated].
  rewrite posted_app. split; [| split; [| split]].
  - intros x Hx. apply elem_of_app in Hx as [Hx | Hx]; apply elem_of_app;
      [left; by apply H1 | by right].
  - intros h nt Hnt. apply elem_of_app. left. by eapply H2.
  - intros x Hx.
    assert (Hin : x ∈ Protocol.to_main s).
    { destruct (Protocol.has_terminate t);
        [by apply elem_of_nil in Hx | by apply Hq]. }
    destruct (H3 _ Hin) as (Hty & type & d & Hp).
    split; [exact Hty |]. exists type, d. apply elem_of_app. by left.
  - intros id Hos.
    assert (Hos' : one_shot id (MainSide.posted T)).
    { intros type d Hin. eapply Hos. apply elem_of_app. left. exact Hin. }
    specialize (H4 id Hos'). specialize (Hc id). unfold pending in *.
    cbn [Protocol.main Protocol.worker Protocol.to_worker Protocol.to_main].
    rewrite !count_sets_app, calls_app.
    destruct (Protocol.has_terminate t); cbn [invokes List.filter length];
      lia.
Qed.

Lemma holds_insert id id' h w t :
  (holds id (WorkerSide.MkState (<[id' := h]> (WorkerSide.idMap w)) t)
   <= (if Z.eqb id id' then 1 else 0) + holds id w)%nat.
Proof.
  unfold holds. cbn [WorkerSide.idMap].
  destruct (Z.eqb_spec id id') as [-> | Hne].
  - rewrite lookup_insert_eq. lia.
  - rewrite lookup_insert_ne by done. lia.
Qed.

Lemma holds_delete id id' w t :
  (holds id (WorkerSide.MkState (delete id' (WorkerSide.idMap w)) t)
   <= holds id w)%nat.
Proof.
  unfold holds. cbn [WorkerSide.idMap].
  destruct (decide (id = id')) as [-> | Hne].
  - rewrite lookup_delete_eq. lia.
  - rewrite lookup_delete_ne by done. lia.
Qed.

Lemma removed_timer h nt id w :
  (match WorkerSide.idMap w !! id with
   | Some n => delete n (WorkerSide.timers w)
   | None => WorkerSide.timers w
   end) !! h = Some nt ->
  WorkerSide.timers w !! h = Some nt.
Proof.
  destruct (WorkerSide.idMap w !! id); [| done].
  intros H. by apply lookup_delete_Some in H as [_ H].
Qed.

Lemma step_delivery l s s' t T :
  Lockstep.invariant s -> invariant s T ->
  Protocol.step l s = Some (s', t) -> invariant s' (T ++ t).
Proof.
  intros Hlock Hinv H.
  destruct l as [c | h | h | u]; cbn [Protocol.step] in H.
  - pose proof (fun id => calls_call id c (Protocol.main s)) as Hc.
    destruct (MainSide.call c (Protocol.main s)) as [[r m] t0].
    injection H as <- <-. unfold trace_of in Hc; cbn [fst snd] in Hc.
    pose proof (after_main_delivery s (Protocol.to_main s) m t0 T Hinv) as Ha.
    rewrite system_eta in Ha. apply Ha; [done |].
    intros id. rewrite Hc. lia.
  - destruct (Protocol.terminated s); [discriminate |].
    destruct (Protocol.to_worker s) as [| event q] eqn:Hq; [discriminate |].
    destruct (Protocol.asks_for_timer event && _); [discriminate |].
    destruct Hinv as (H1 & H2 & H3 & H4). rewrite Hq in H1.
    destruct event as [id0 type duration | id0 type].
    + rewrite worker_set_eq in H. injection H as <- <-.
      unfold invariant, Protocol.after_worker.
      cbn [Protocol.main Protocol.worker Protocol.to_worker Protocol.to_main
           WorkerSide.timers WorkerSide.posted omap].
      rewrite !app_nil_r. split; [| split; [| split]].
      * intros x Hx. apply H1. by right.
      * intros h' nt Hnt. apply lookup_insert_Some in Hnt as [[_ <-] | [_ Hnt]].
        -- unfold request_of. cbn. rewrite callback_for_id. apply H1. left.
        -- by eapply H2.
      * exact H3.
      * intros id Hos. specialize (H4 id Hos). unfold pending in *.
        cbn [Protocol.main Protocol.worker Protocol.to_worker
             Protocol.to_main].
        rewrite Hq in H4.
        match goal with
        | |- context [holds id ?w] =>
            assert (Hh : (holds id w
                          <= (if Z.eqb id id0 then 1 else 0)
                             + holds id (Protocol.worker s))%nat)
              by apply holds_insert
        end.
        unfold count_sets in H4 at 1.
        change (MainTrace.set_ids (SetTimerMessage id0 type duration :: q))
          with (id0 :: MainTrace.set_ids q) in H4.
        cbn [List.filter] in H4. fold (count_sets id q) in H4.
        destruct (Z.eqb id id0); cbn [length] in H4;
          fold (count_sets id q) in H4; lia.
    + rewrite worker_clear_eq in H. injection H as <- <-.
      unfold invariant, Protocol.after_worker.
      cbn [Protocol.main Protocol.worker Protocol.to_worker Protocol.to_main
           WorkerSide.timers WorkerSide.posted omap].
      rewrite !app_nil_r. split; [| split; [| split]].
      * intros x Hx. apply H1. by right.
      * intros h' nt Hnt. apply removed_timer in Hnt. by eapply H2.
      * exact H3.
      * intros id Hos. specialize (H4 id Hos). unfold pending in *.
        cbn [Protocol.main Protocol.worker Protocol.to_worker
             Protocol.to_main].
        rewrite Hq in H4.
        match goal with
        | |- context [holds id ?w] =>
            assert (Hh : (holds id w <= holds id (Protocol.worker s))%nat)
              by apply holds_delete
        end.
        change (count_sets id (ClearTimerMessage id0 type :: q))
          with (count_sets id q) in H4. lia.
  - destruct (Protocol.terminated s); [discriminate |].
    destruct (WorkerSide.timers (Protocol.worker s) !! h) as [nt |] eqn:Hnt;
      [| discriminate].
    destruct Hlock as (_ & Hw & _).
    pose proof (fire_eq h (Protocol.worker s) nt Hw Hnt) as Hfire.
    cbv zeta in Hfire. rewrite Hfire in H. clear Hfire.
    destruct Hinv as (H1 & H2 & H3 & H4).
    pose proof (H2 _ _ Hnt) as Hreq.
    destruct (proj2 Hw _ _ Hnt) as [Hentry _].
    set (id0 := WorkerSide.callback_id (WorkerSide.nt_callback nt)) in *.
    assert (Hmsg : forall x,
              x ∈ Protocol.to_main s ++ [FromWorker id0 T_invoke] ->
              msg_type x = T_invoke
              /\ exists type duration,
                   SetTimerMessage (msg_id x) type duration
                   ∈ MainSide.posted T).
    { intros x Hx. apply elem_of_app in Hx as [Hx | Hx]; [by apply H3 |].
      apply list_elem_of_singleton in Hx as ->. split; [reflexivity |].
      by exists (WorkerSide.nt_type nt), (WorkerSide.nt_duration nt). }
    destruct (WorkerSide.nt_type nt) eqn:Hty; injection H as <- <-;
      unfold invariant, Protocol.after_worker;
      cbn [Protocol.main Protocol.worker Protocol.to_worker Protocol.to_main
           WorkerSide.timers WorkerSide.posted omap list_omap];
      rewrite app_nil_r.
    + split; [exact H1 |]. split; [| split; [exact Hmsg |]].
      * intros h' nt' Hnt'. apply removed_timer in Hnt'. by eapply H2.
      * intros id Hos. specialize (H4 id Hos). unfold pending in *.
        cbn [Protocol.main Protocol.worker Protocol.to_worker
             Protocol.to_main].
        rewrite invokes_app.
        unfold holds in *. cbn [WorkerSide.idMap].
        unfold invokes at 2. cbn [List.filter msg_id].
        destruct (Z.eqb_spec id0 id) as [<- | Hne].
        -- rewrite lookup_delete_eq. rewrite Hentry in H4. cbn [length]. lia.
        -- rewrite lookup_delete_ne by done. cbn [length]. lia.
    + split; [exact H1 |]. split; [exact H2 |]. split; [exact Hmsg |].
      intros id Hos. specialize (H4 id Hos). unfold pending in *.
      cbn [Protocol.main Protocol.worker Protocol.to_worker
           Protocol.to_main].
      rewrite invokes_app. unfold invokes at 2. cbn [List.filter msg_id].
      destruct (Z.eqb_spec id0 id) as [<- | Hne]; [| cbn [length]; lia].
      exfalso. unfold request_of in Hreq. fold id0 in Hreq.
      rewrite Hty in Hreq. specialize (Hos _ _ Hreq). discriminate Hos.
  - destruct (Protocol.terminated s); [discriminate |].
    destruct (Protocol.to_main s) as [| message q] eqn:Hq; [discriminate |].
    pose proof (fun id => calls_onmessage id u message (Protocol.main s))
      as Hc.
    destruct (MainSide.onmessage u message (Protocol.main s)) as [[r m] t0].
    injection H as <- <-. unfold trace_of in Hc; cbn [fst snd] in Hc.
    refine (after_main_delivery s q m t0 T Hinv _ _).
    + intros x Hx. rewrite Hq. by right.
    + intros id. specialize (Hc id). rewrite Hq.
      unfold invokes at 2. cbn [List.filter].
      destruct (msg_id message =? id); cbn [length];
        fold (invokes id q); lia.
Qed.

Lemma steps_delivery ls s s' T0 T :
  Lockstep.invariant s -> invariant s T0 ->
  Protocol.steps ls s = Some (s', T) -> invariant s' (T0 ++ T).
Proof.
  revert s T0 T. induction ls as [| l ls IH]; intros s T0 T Hlock Hinv H;
    cbn in H.
  - injection H as <- <-. by rewrite app_nil_r.
  - destruct (Protocol.step l s) as [[s1 t1] |] eqn:Hstep; [| discriminate].
    destruct (Protocol.steps ls s1) as [[s2 t2] |] eqn:Hrest; [| discriminate].
    injection H as <- <-. rewrite app_assoc.
    eapply IH; [| | exact Hrest].
    + eapply step_invariant; eauto.
    + eapply step_delivery; eauto.
Qed.

Lemma run_delivery ls s T :
  Protocol.steps ls Protocol.initial = Some (s, T) -> invariant s T.
Proof.
  intros H.
  exact (steps_delivery ls _ _ [] T invariant_initial delivery_initial H).
Qed.

End DeliveryFacts.

Section DeliveryRuns.

Import Delivery.

Lemma announced_elem id type duration T :
  SetTimerMessage id type duration ∈ History.announced T ->
  exists t, In (MainSide.EvSet id t) T
            /\ MainSide.tx_type t = type /\ MainSide.tx_duration t = duration.
Proof.
  unfold History.announced. rewrite list_elem_of_omap.
  intros (e & He & Hm). destruct e; try discriminate Hm.
  injection Hm as <- <- <-. eexists. split; [| done].
  by apply list_elem_of_In.
Qed.

(** Every scheduling request posted in a run announces the one
    transaction stored under its id. *)
Lemma posted_request ls s T id type duration :
  Protocol.steps ls Protocol.initial = Some (s, T) ->
  SetTimerMessage id type duration ∈ MainSide.posted T ->
  exists t, In (MainSide.EvSet id t) T
            /\ MainSide.tx_id t = id
            /\ MainSide.tx_type t = type
            /\ MainSide.tx_duration t = duration
            /\ (forall t', In (MainSide.EvSet id t') T -> t' = t)
            /\ id ∈ MainSide.returned T
            /\ 0 <= id < MainSide.seq (Protocol.main s).
Proof.
  intros Hsteps Hin.
  destruct (steps_history _ _ _ Hsteps) as (Ha & Hk & Hret & Hseq).
  assert (Hin' : SetTimerMessage id type duration ∈ History.announced T).
  { rewrite <- Ha. unfold History.set_messages.
    apply list_elem_of_In, List.filter_In. split; [| reflexivity].
    by apply list_elem_of_In. }
  destruct (announced_elem _ _ _ _ Hin') as (t & Ht & Hty & Hd).
  pose proof (steps_replay _ _ _ _ Hsteps) as Hr.
  assert (Hid : id ∈ MainSide.returned T).
  { rewrite Hret. apply list_elem_of_fmap. exists (id, t).
    split; [done | by apply sets_elem]. }
  exists t. split; [exact Ht |].
  split; [by destruct (replay_sets_wf _ _ _ _ _ Hr Ht) |].
  split; [exact Hty |]. split; [exact Hd |].
  split; [intros t' Ht'; by eapply steps_set_once |].
  split; [exact Hid |].
  rewrite Hret, Hk in Hid. apply ids_from_elem in Hid. lia.
Qed.

Lemma filter_eqb_absent id l :
  id ∉ l -> List.filter (Z.eqb id) l = [].
Proof.
  induction l as [| a l IH]; intros Hn; [reflexivity |]. cbn.
  apply not_elem_of_cons in Hn as [Hne Hn].
  destruct (Z.eqb_spec id a); [done | by apply IH].
Qed.

Lemma filter_eqb_NoDup id l :
  NoDup l -> (length (List.filter (Z.eqb id) l) <= 1)%nat.
Proof.
  induction l as [| a l IH]; intros Hnd; cbn; [lia |].
  apply NoDup_cons in Hnd as [Hnotin Hnd].
  destruct (Z.eqb_spec id a) as [-> | Hne]; [| by apply IH].
  rewrite filter_eqb_absent by done. cbn. lia.
Qed.

End DeliveryRuns.

(** X2. Over any run of the system, the callback of a ['setTimeout'] is
    called at most once, whatever the schedule, and also when the
    callback throws and its transaction stays in the registry. More
    precisely, for an id stored by [setTimeout], the requests for it
    still in the queue, the worker's entry for it, the notifications for
    it on their way and the calls of its callback made so far number at
    most one together: once the callback has been called, nothing is
    left that could call it again. *)
Theorem timeout_callback_called_at_most_once :
  forall (ls : list Protocol.Label) (s : Protocol.System)
         (T : list MainSide.Event) (id : TimerId)
         (t : MainSide.TimerTransaction),
    Protocol.steps ls Protocol.initial = Some (s, T) ->
    In (MainSide.EvSet id t) T ->
    MainSide.tx_type t = T_setTimeout ->
    (History.calls id T <= 1)%nat
    /\ (Delivery.pending id s + History.calls id T <= 1)%nat
    /\ (History.calls id T = 1%nat ->
        WorkerSide.idMap (Protocol.worker s) !! id = None
        /\ Delivery.invokes id (Protocol.to_main s) = 0%nat
        /\ Delivery.count_sets id (Protocol.to_worker s) = 0%nat).
Proof.
  intros ls s T id t Hsteps Hset Hty.
  destruct (run_delivery _ _ _ Hsteps) as (_ & _ & _ & H4).
  assert (Hos : Delivery.one_shot id (MainSide.posted T)).
  { intros type d Hin.
    destruct (posted_request _ _ _ _ _ _ Hsteps Hin)
      as (t' & Ht' & _ & Hty' & _ & Hone & _).
    rewrite <- Hty', <- (Hone _ Hset). exact Hty. }
  specialize (H4 id Hos).
  assert (Hn : (Delivery.count_sets id (MainSide.posted T) <= 1)%nat).
  { apply filter_eqb_NoDup.
    destruct (steps_history _ _ _ Hsteps) as (Ha & Hk & _).
    rewrite <- set_ids_set_messages, Ha, announced_ids, Hk.
    apply ids_from_NoDup. }
  split; [lia |]. split; [lia |].
  intros Hone. unfold Delivery.pending, Delivery.holds in H4.
  destruct (WorkerSide.idMap (Protocol.worker s) !! id); [lia |].
  split; [reflexivity |]. lia.
Qed.

Lemma timeout_callback_called_at_most_once_witness :
  History.calls 0 timeout_throws_trace = 1%nat
  /\ MainSide.idMap (Protocol.main timeout_throws_state) !! 0
     = Some (MainSide.Transaction 0 T_setTimeout (MainSide.Wrapper 7%nat 0)
               0 [])
  /\ (Delivery.pending 0%Z timeout_throws_state
      + History.calls 0%Z timeout_throws_trace <= 1)%nat.
Proof.
  destruct (timeout_callback_called_at_most_once timeout_throws
              timeout_throws_state timeout_throws_trace 0
              (MainSide.Transaction 0 T_setTimeout (MainSide.Wrapper 7%nat 0)
                 0 []))
    as (_ & Hp & _).
  - vm_compute. reflexivity.
  - left. reflexivity.
  - reflexivity.
  - split; [reflexivity |]. split; [reflexivity | exact Hp].
Defined.

(** X4. In every state a run of the system reaches, every message on its
    way from the worker to the main side is an ['invoke'] notification,
    and its id is one that a scheduling call has returned, so that
    0 <= id < seq. The worker never sends a ['clear'] notification: the
    ['clear'] branch of the main listener is never taken. *)
Theorem worker_messages_are_invokes :
  forall (ls : list Protocol.Label) (s : Protocol.System)
         (T : list MainSide.Event) (m : MessageFromWorker),
    Protocol.steps ls Protocol.initial = Some (s, T) ->
    In m (Protocol.to_main s) ->
    msg_type m = T_invoke
    /\ msg_id m ∈ MainSide.returned T
    /\ 0 <= msg_id m < MainSide.seq (Protocol.main s).
Proof.
  intros ls s T m Hsteps Hin.
  destruct (run_delivery _ _ _ Hsteps) as (_ & _ & H3 & _).
  apply list_elem_of_In in Hin.
  destruct (H3 _ Hin) as (Hty & type & d & Hp).
  destruct (posted_request _ _ _ _ _ _ Hsteps Hp)
    as (t & _ & _ & _ & _ & _ & Hret & Hrange).
  by split.
Qed.

Lemma worker_messages_are_invokes_witness :
  msg_type (FromWorker 0 T_invoke) = T_invoke
  /\ 0 ∈ MainSide.returned interval_fired_twice_trace
  /\ 0 <= 0 < MainSide.seq (Protocol.main interval_fired_twice_state).
Proof.
  apply (worker_messages_are_invokes interval_fired_twice
           interval_fired_twice_state interval_fired_twice_trace
           (FromWorker 0 T_invoke)).
  - vm_compute. reflexivity.
  - left. reflexivity.
Defined.

(** X12. In every state a run of the system reaches, every active native
    timer of the worker was asked for by a scheduling call of the main
    side: exactly one transaction was ever stored under the id its
    callback carries, the timer has that transaction's type and
    duration, its callback is the one the worker builds for that type,
    and the worker's [idMap] names the timer under that id. *)
Theorem native_timer_matches_request :
  forall (ls : list Protocol.Label) (s : Protocol.System)
         (T : list MainSide.Event) (h : Z) (nt : WorkerSide.NativeTimer),
    Protocol.steps ls Protocol.initial = Some (s, T) ->
    WorkerSide.timers (Protocol.worker s) !! h = Some nt ->
    let id := WorkerSide.callback_id (WorkerSide.nt_callback nt) in
    WorkerSide.idMap (Protocol.worker s) !! id = Some h
    /\ WorkerSide.nt_callback nt
       = Lockstep.callback_for (WorkerSide.nt_type nt) id
    /\ exists t,
         In (MainSide.EvSet id t) T
         /\ MainSide.tx_id t = id
         /\ MainSide.tx_type t = WorkerSide.nt_type nt
         /\ MainSide.tx_duration t = WorkerSide.nt_duration nt
         /\ forall t', In (MainSide.EvSet id t') T -> t' = t.
Proof.
  intros ls s T h nt Hsteps Hnt id.
  destruct (run_delivery _ _ _ Hsteps) as (_ & H2 & _).
  pose proof (steps_invariant _ _ _ _ invariant_initial Hsteps)
    as (_ & [_ W2] & _).
  destruct (W2 _ _ Hnt) as [Hentry Hcb].
  split; [exact Hentry |]. split; [exact Hcb |].
  destruct (posted_request _ _ _ _ _ _ Hsteps (H2 _ _ Hnt))
    as (t & Ht & Hid & Hty & Hd & Hone & _).
  exists t. done.
Qed.

Lemma native_timer_matches_request_witness :
  exists t,
    In (MainSide.EvSet 0 t) interval_fired_twice_trace
    /\ MainSide.tx_type t = T_setInterval
    /\ MainSide.tx_duration t = 1000.
Proof.
  destruct (native_timer_matches_request interval_fired_twice
              interval_fired_twice_state interval_fired_twice_trace 1
              (WorkerSide.MkNativeTimer T_setInterval
                 (WorkerSide.InvokeOnly 0) 1000))
    as (_ & _ & t & Ht & _ & Hty & Hd & _).
  - vm_compute. reflexivity.
  - reflexivity.
  - exists t. done.
Defined.

(** ** The worker's side of a cancel *)

Section WorkerCancel.

Import Lockstep.

Lemma handles_for_empty id w :
  (forall h nt, WorkerSide.timers w !! h = Some nt ->
                WorkerSide.callback_id (WorkerSide.nt_callback nt) <> id) ->
  WorkerSide.handles_for id w = [].
Proof.
  intros H. apply elem_of_nil_inv. intros h Hin.
  apply handles_for_elem in Hin as (nt & Hnt & Hid). by eapply H.
Qed.

(** Removing the entry of [id] and its timer from a well-formed worker
    leaves no timer for [id] and the timers of the other ids alone. *)
Lemma worker_remove_handles id w :
  worker_wf w ->
  let w' := WorkerSide.MkState
              (delete id (WorkerSide.idMap w))
              (match WorkerSide.idMap w !! id with
               | Some n => delete n (WorkerSide.timers w)
               | None => WorkerSide.timers w
               end) in
  WorkerSide.handles_for id w' = []
  /\ (forall id', id' <> id ->
        WorkerSide.handles_for id' w' = WorkerSide.handles_for id' w)
  /\ (WorkerSide.idMap w !! id = None -> w' = w).
Proof.
  intros [W1 W2] w'. subst w'. split; [| split].
  - apply handles_for_empty. cbn [WorkerSide.timers]. intros h nt Hnt Hid.
    assert (Hold : WorkerSide.timers w !! h = Some nt)
      by by eapply removed_timer.
    destruct (W2 _ _ Hold) as [Hentry _]. rewrite Hid in Hentry.
    rewrite Hentry in Hnt. by rewrite lookup_delete_eq in Hnt.
  - intros id' Hne. unfold WorkerSide.handles_for. cbn [WorkerSide.timers].
    destruct (WorkerSide.idMap w !! id) as [n |] eqn:Hn; [| reflexivity].
    rewrite map_filter_delete. rewrite delete_id; [reflexivity |].
    apply map_lookup_filter_None. right. intros nt Hnt Hid. cbn in Hid.
    destruct (W1 _ _ Hn) as (nt' & Hnt' & Hid'). congruence.
  - intros Hnone. rewrite Hnone. rewrite delete_id by done.
    by destruct w.
Qed.

End WorkerCancel.

(** X6. In every state a run of the system reaches in which the oldest
    message to the worker is a cancel for [id] (of either kind), the
    worker's listener run on that message, whatever handle the host has
    ready, returns normally and posts nothing. It leaves the worker with
    no entry and no active native timer for [id]; the entries and the
    timers of all other ids are as they were; and when the worker had no
    entry for [id] (the timer fired already, or was cancelled, or never
    existed) its state does not change at all. The delivery happens
    exactly when the worker has not been terminated: then it is a step
    of the system that takes the message off the queue and leaves the
    main side and the notifications on their way alone; a terminated
    worker handles nothing, and the cancel stays in the queue. *)
Theorem worker_cancel_removes_timer :
  forall (ls : list Protocol.Label) (s : Protocol.System)
         (T : list MainSide.Event) (id : TimerId) (k : ClearType)
         (q : list MessageToWorker) (h : Z),
    Protocol.steps ls Protocol.initial = Some (s, T) ->
    Protocol.to_worker s = ClearTimerMessage id k :: q ->
    let R := WorkerSide.onmessage h (ClearTimerMessage id k)
               (Protocol.worker s) in
    let w' := state_of R in
    outcome_of R = Normal tt
    /\ WorkerSide.posted (trace_of R) = []
    /\ WorkerSide.idMap w' !! id = None
    /\ WorkerSide.handles_for id w' = []
    /\ (forall id', id' <> id ->
          WorkerSide.idMap w' !! id' = WorkerSide.idMap (Protocol.worker s) !! id'
          /\ WorkerSide.handles_for id' w'
             = WorkerSide.handles_for id' (Protocol.worker s))
    /\ (WorkerSide.idMap (Protocol.worker s) !! id = None ->
        w' = Protocol.worker s)
    /\ (Protocol.terminated s = false ->
        exists s',
          Protocol.step (Protocol.L_worker_receive h) s = Some (s', [])
          /\ Protocol.worker s' = w'
          /\ Protocol.main s' = Protocol.main s
          /\ Protocol.to_worker s' = q
          /\ Protocol.to_main s' = Protocol.to_main s
          /\ Protocol.terminated s' = false)
    /\ (Protocol.terminated s = true ->
        Protocol.step (Protocol.L_worker_receive h) s = None).
Proof.
  intros ls s T id k q h Hsteps Hq R w'.
  pose proof (steps_invariant _ _ _ _ invariant_initial Hsteps)
    as (_ & Hw & _).
  destruct (worker_remove_handles id _ Hw) as (Hnone & Hother & Hsame).
  subst w' R. rewrite worker_clear_eq.
  unfold outcome_of, state_of, trace_of; cbn [fst snd].
  split; [reflexivity |]. split; [reflexivity |].
  split; [apply lookup_delete_eq |]. split; [exact Hnone |].
  split; [| split; [exact Hsame |]].
  - intros id' Hne. split; [by apply lookup_delete_ne | by apply Hother].
  - split.
    + intros Hterm. eexists. split.
      * cbn [Protocol.step]. rewrite Hterm, Hq.
        cbn [Protocol.asks_for_timer andb]. rewrite worker_clear_eq.
        reflexivity.
      * unfold Protocol.after_worker.
        cbn [Protocol.main Protocol.worker Protocol.to_worker
             Protocol.to_main Protocol.terminated
             WorkerSide.posted omap list_omap].
        rewrite app_nil_r. by repeat split.
    + intros Hterm. cbn [Protocol.step]. by rewrite Hterm.
Qed.

Lemma worker_cancel_removes_timer_witness :
  (exists s',
     Protocol.step (Protocol.L_worker_receive 5) interval_cancelled_state
     = Some (s', [])
     /\ WorkerSide.handles_for 0 (Protocol.worker s') = [])
  /\ Protocol.step (Protocol.L_worker_receive 5) terminated_then_cancelled_state
     = None.
Proof.
  split.
  - destruct (worker_cancel_removes_timer interval_cancelled
                interval_cancelled_state interval_cancelled_trace 0
                T_clearInterval [] 5)
      as (_ & _ & _ & Hnone & _ & _ & Hstep & _).
    + vm_compute. reflexivity.
    + reflexivity.
    + destruct (Hstep eq_refl) as (s' & Hs' & Hw' & _).
      exists s'. split; [exact Hs' |]. rewrite Hw'. exact Hnone.
  - destruct (worker_cancel_removes_timer terminated_then_cancelled
                terminated_then_cancelled_state
                terminated_then_cancelled_trace 0
                T_clearTimeout [] 5)
      as (_ & _ & _ & _ & _ & _ & _ & Hstop).
    + vm_compute. reflexivity.
    + reflexivity.
    + apply Hstop. reflexivity.
Defined.

(** ** Each object runs its own protocol *)

Section ObjectsFacts.

Import Objects.

Lemma steps_snoc ls l s s1 T1 s2 t :
  Protocol.steps ls s = Some (s1, T1) ->
  Protocol.step l s1 = Some (s2, t) ->
  Protocol.steps (ls ++ [l]) s = Some (s2, T1 ++ t).
Proof.
  revert s T1. induction ls as [| l0 ls IH]; intros s T1 H Hstep; cbn in H.
  - injection H as <- <-. cbn. rewrite Hstep. by rewrite app_nil_r.
  - cbn. destruct (Protocol.step l0 s) as [[s0 t0] |]; [| discriminate].
    destruct (Protocol.steps ls s0) as [[s3 t3] |] eqn:Hrest; [| discriminate].
    injection H as <- <-. rewrite (IH _ _ Hrest Hstep).
    by rewrite app_assoc.
Qed.

Lemma on_app r T1 T2 : on r (T1 ++ T2) = on r T1 ++ on r T2.
Proof. apply omap_app. Qed.

Lemma on_host r (t : list CreateWorker.HostCall) :
  on r (Index.EvHost <$> t) = [].
Proof. induction t as [| e t IH]; [done | exact IH]. Qed.

Lemma on_same r (t : list MainSide.Event) : on r (Index.EvOn r <$> t) = t.
Proof.
  induction t as [| e t IH]; [done |]. cbn. rewrite Nat.eqb_refl. cbn.
  f_equal. exact IH.
Qed.

Lemma on_other r r' (t : list MainSide.Event) :
  r' <> r -> on r (Index.EvOn r' <$> t) = [].
Proof.
  intros Hne. induction t as [| e t IH]; [done |]. cbn.
  destruct (Nat.eqb_spec r' r); [done | exact IH].
Qed.

(** A step of one object. *)
Lemma tracked_step ms T d r o l sys t :
  tracked ms T -> Index.objects ms !! r = Some o ->
  Protocol.step l (Index.wt_system o) = Some (sys, t) ->
  tracked
    (Index.MkState d
       (<[r := Index.MkWorkerTimer (Index.wt_worker o) sys]>
          (Index.objects ms)))
    (T ++ (Index.EvOn r <$> t)).
Proof.
  intros [Hobj Hnew] Ho Hstep. split; cbn [Index.objects].
  - intros r' o' Ho'. rewrite on_app.
    destruct (decide (r = r')) as [<- | Hne].
    + rewrite list_lookup_insert_eq in Ho' by by eapply lookup_lt_Some.
      injection Ho' as <-. cbn [Index.wt_system]. rewrite on_same.
      destruct (Hobj _ _ Ho) as [ls Hls]. exists (ls ++ [l]).
      by eapply steps_snoc.
    + rewrite list_lookup_insert_ne in Ho' by done.
      rewrite on_other by done. rewrite app_nil_r. by apply Hobj.
  - intros r' Hle. rewrite length_insert in Hle. rewrite on_app.
    rewrite (Hnew _ Hle). apply on_other. intros ->.
    apply lookup_lt_Some in Ho. lia.
Qed.

(** Events of the module that belong to no object. *)
Lemma tracked_quiet ms T d t :
  tracked ms T -> (forall r, on r t = []) ->
  tracked (Index.MkState d (Index.objects ms)) (T ++ t).
Proof.
  intros [Hobj Hnew] Hq. split; cbn [Index.objects].
  - intros r o Ho. rewrite on_app, Hq, app_nil_r. by apply Hobj.
  - intros r Hle. by rewrite on_app, Hq, app_nil_r, Hnew.
Qed.

(** A new object. *)
Lemma tracked_create ms T d w t :
  tracked ms T -> (forall r, on r t = []) ->
  tracked
    (Index.MkState d
       (Index.objects ms ++ [Index.MkWorkerTimer w Protocol.initial]))
    (T ++ t).
Proof.
  intros [Hobj Hnew] Hq. split; cbn [Index.objects].
  - intros r o Ho. rewrite on_app, Hq, app_nil_r.
    apply lookup_app_Some in Ho as [Ho | [Hle Ho]]; [by apply Hobj |].
    rewrite (Hnew _ Hle).
    destruct (r - length (Index.objects ms))%nat as [| n];
      [| destruct n; discriminate Ho].
    injection Ho as <-. by exists [].
  - intros r Hle. rewrite length_app in Hle. cbn in Hle.
    rewrite on_app, Hq, app_nil_r. apply Hnew. lia.
Qed.

Lemma tracked_eta ms T :
  tracked ms T ->
  tracked (Index.MkState (Index.defaultWorkerTimer ms) (Index.objects ms)) T.
Proof. by rewrite state_eta. Qed.

Lemma object_step_tracks r l : tracks (Index.object_step r l).
Proof.
  intros ms T Htr. unfold Index.object_step.
  destruct (Index.objects ms !! r) as [o |] eqn:Ho;
    [destruct (Protocol.step l (Index.wt_system o)) as [[sys t] |] eqn:Hstep |];
    unfold state_of, trace_of; cbn [fst snd]; rewrite ?app_nil_r;
    [by eapply tracked_step | exact Htr | exact Htr].
Qed.

Lemma method_tracks r c : tracks (Index.method r c).
Proof.
  intros ms T Htr. unfold Index.method.
  destruct (Index.objects ms !! r) as [o |] eqn:Ho.
  - assert (Hstep : Protocol.step (Protocol.L_call c) (Index.wt_system o)
                    = let '(_, m, t) :=
                        MainSide.call c (Protocol.main (Index.wt_system o)) in
                      Some (Protocol.after_main (Index.wt_system o) m t, t))
      by reflexivity.
    destruct (MainSide.call c (Protocol.main (Index.wt_system o)))
      as [[res m] t].
    unfold state_of, trace_of; cbn [fst snd]. by eapply tracked_step.
  - unfold state_of, trace_of; cbn [fst snd]. by rewrite app_nil_r.
Qed.

Lemma on_created r t r0 w :
  on r ((Index.EvHost <$> t) ++ [Index.EvCreated r0 w]) = [].
Proof. by rewrite on_app, on_host. Qed.

Lemma createWorkerTimer_tracks host : tracks (Index.createWorkerTimer host).
Proof.
  intros ms T Htr. rewrite createWorkerTimer_eq.
  destruct (outcome_of (CreateWorker.createWorker host Index._timerWorker
                          (Some CreateWorker.TypeModule) ms)) as [w | e];
    unfold state_of, trace_of; cbn [fst snd].
  - apply tracked_create; [exact Htr |]. intros r. apply on_created.
  - rewrite <- (state_eta ms). apply tracked_quiet; [exact Htr |].
    intros r. apply on_host.
Qed.

Lemma getWorkerTimer_tracks host : tracks (Index.getWorkerTimer host).
Proof.
  intros ms T Htr. rewrite getWorkerTimer_eq.
  destruct (Index.defaultWorkerTimer ms) as [r |].
  - unfold state_of, trace_of; cbn [fst snd]. by rewrite app_nil_r.
  - pose proof (createWorkerTimer_tracks host ms T Htr) as Hc.
    destruct (Index.createWorkerTimer host ms) as [[[r | e] ms1] t];
      unfold state_of, trace_of in *; cbn [fst snd] in *; [| exact Hc].
    rewrite app_assoc. by apply tracked_quiet.
Qed.

Lemma bare_tracks host c : tracks (Index.bare host c).
Proof.
  intros ms T Htr. rewrite bare_eq.
  pose proof (getWorkerTimer_tracks host ms T Htr) as Hg.
  destruct (Index.getWorkerTimer host ms) as [[[r | e] ms1] t1];
    unfold state_of, trace_of in Hg; cbn [fst snd] in Hg;
    [| exact Hg].
  pose proof (method_tracks r c ms1 _ Hg) as Hm.
  destruct (Index.method r c ms1) as [[res ms2] t2].
  unfold state_of, trace_of in *; cbn [fst snd] in *.
  by rewrite app_assoc.
Qed.

Lemma handle_tracks i : tracks (Index.handle i).
Proof.
  destruct i as [host c | host | r l]; cbn [Index.handle].
  - intros ms T Htr. pose proof (bare_tracks host c ms T Htr) as H.
    unfold bind, ret. destruct (Index.bare host c ms) as [[[a | e] ms1] t1];
      unfold state_of, trace_of in *; cbn [fst snd] in *;
      rewrite ?app_nil_r; exact H.
  - intros ms T Htr. pose proof (createWorkerTimer_tracks host ms T Htr) as H.
    unfold bind, ret.
    destruct (Index.createWorkerTimer host ms) as [[[a | e] ms1] t1];
      unfold state_of, trace_of in *; cbn [fst snd] in *;
      rewrite ?app_nil_r; exact H.
  - apply object_step_tracks.
Qed.

Lemma run_tracked inputs ms T :
  tracked ms T ->
  tracked (Index.run inputs ms).1 (T ++ (Index.run inputs ms).2).
Proof.
  revert ms T. induction inputs as [| i inputs IH]; intros ms T Htr.
  - cbn. by rewrite app_nil_r.
  - cbn [Index.run]. pose proof (handle_tracks i ms T Htr) as Hi.
    destruct (Index.handle i ms) as [[o ms1] t1].
    unfold state_of, trace_of in Hi; cbn [fst snd] in Hi.
    specialize (IH ms1 _ Hi).
    destruct (Index.run inputs ms1) as [ms2 t2]. cbn [fst snd] in *.
    by rewrite app_assoc.
Qed.

Lemma tracked_initial : tracked Index.initial [].
Proof. split; [intros r o H; by destruct r | done]. Qed.

End ObjectsFacts.

(** X9. Whatever is done with the module (bare calls, explicit
    [createWorkerTimer()] calls, steps of any of the objects, in any
    order), every WorkerTimer object is in a state that its own protocol
    reaches from the initial state by the events the module's trace
    records for that object: no object is affected by what happens to
    another. In particular each object numbers its timers on its own:
    the ids an object has returned are 0, 1, 2, ... up to its counter,
    so that ids are unique per WorkerTimer and not across
    WorkerTimers. *)
Theorem objects_run_independently :
  forall (inputs : list Index.Input) (r : nat),
    let ms := (Index.run inputs Index.initial).1 in
    let T := (Index.run inputs Index.initial).2 in
    (r < length (Index.objects ms))%nat ->
    exists o ls,
      Index.objects ms !! r = Some o
      /\ Protocol.steps ls Protocol.initial
         = Some (Index.wt_system o, Objects.on r T)
      /\ MainSide.returned (Objects.on r T)
         = MainTrace.ids_from 0
             (length (MainSide.returned (Objects.on r T)))
      /\ MainSide.seq (Protocol.main (Index.wt_system o))
         = Z.of_nat (length (MainSide.returned (Objects.on r T))).
Proof.
  intros inputs r ms T Hr.
  destruct (run_tracked inputs Index.initial [] tracked_initial) as [Hobj _].
  fold ms in Hobj. cbn [app] in Hobj. fold T in Hobj.
  destruct (lookup_lt_is_Some_2 _ _ Hr) as [o Ho].
  destruct (Hobj _ _ Ho) as [ls Hls].
  exists o, ls. split; [exact Ho |]. split; [exact Hls |].
  destruct (steps_history _ _ _ Hls) as (_ & Hk & Hret & Hseq).
  split.
  - rewrite Hret at 1. rewrite Hk. by rewrite Hret, length_fmap.
  - by rewrite Hseq, Hret, length_fmap.
Qed.

Lemma objects_run_independently_witness :
  MainSide.returned
    (Objects.on 0 (Index.run two_objects Index.initial).2) = [0]
  /\ MainSide.returned
       (Objects.on 1 (Index.run two_objects Index.initial).2) = [0].
Proof.
  destruct (objects_run_independently two_objects 1)
    as (o & ls & _ & _ & Hret & _).
  - vm_compute. lia.
  - split; [reflexivity |]. rewrite Hret. reflexivity.
Defined.

(** ** The earlier version never releases a transaction by itself *)

Section LegacyFacts.

Import Legacy.

Lemma ids_from_app a n1 n2 :
  MainTrace.ids_from a (n1 + n2)
  = MainTrace.ids_from a n1 ++ MainTrace.ids_from (a + Z.of_nat n1) n2.
Proof.
  revert a. induction n1 as [| n1 IH]; intros a.
  - cbn. by rewrite Z.add_0_r.
  - cbn [Nat.add MainTrace.ids_from app]. rewrite IH.
    replace (a + 1 + Z.of_nat n1) with (a + Z.of_nat (S n1)) by lia.
    reflexivity.
Qed.

Lemma legacy_returned_app t1 t2 :
  returned (t1 ++ t2) = returned t1 ++ returned t2.
Proof. apply omap_app. Qed.

Lemma legacy_setTimer_eq type func duration args m :
  setTimer type func duration args m
  = (Normal (seq m),
     MkState (<[seq m := Transaction (seq m) type func duration args]>
                (idMap m)) (seq m + 1),
     [EvSet (seq m) (Transaction (seq m) type func duration args);
      EvPost (SetTimerMessage (seq m) type duration);
      EvReturn (seq m)]).
Proof. reflexivity. Qed.

Lemma grown_refl m : keeps m -> grown m [] m.
Proof. intros H. split; [exact H |]. cbn. split; [lia | reflexivity]. Qed.

Lemma grown_trans m t1 m1 t2 m2 :
  grown m t1 m1 -> grown m1 t2 m2 -> grown m (t1 ++ t2) m2.
Proof.
  intros (_ & Hs1 & Hr1) (Hk2 & Hs2 & Hr2). split; [exact Hk2 |].
  rewrite legacy_returned_app, length_app, ids_from_app.
  split; [lia |]. rewrite <- Hr1, <- Hs1, <- Hr2. reflexivity.
Qed.

Lemma legacy_setTimer_grown type func duration args m :
  keeps m ->
  grown m (trace_of (setTimer type func duration args m))
    (state_of (setTimer type func duration args m)).
Proof.
  intros [H0 Hk]. rewrite legacy_setTimer_eq.
  unfold trace_of, state_of; cbn [fst snd].
  split; [| cbn; split; [lia | reflexivity]].
  split; cbn [seq idMap]; [lia |]. intros id Hid.
  destruct (decide (id = seq m)) as [-> | Hne].
  - rewrite lookup_insert_eq. by eexists.
  - rewrite lookup_insert_ne by done. apply Hk. lia.
Qed.

Lemma legacy_call_grown c m :
  no_cancel c = true -> keeps m ->
  grown m (trace_of (call c m)) (state_of (call c m)).
Proof.
  intros Hc Hk. destruct c as [f d a | f d a | i | i |];
    try discriminate Hc; cbn [call]; unfold bind.
  - pose proof (legacy_setTimer_grown T_setTimeout f d a m Hk) as H.
    rewrite legacy_setTimer_eq in *.
    unfold trace_of, state_of in *; cbn [fst snd ret] in *.
    by rewrite app_nil_r.
  - pose proof (legacy_setTimer_grown T_setInterval f d a m Hk) as H.
    rewrite legacy_setTimer_eq in *.
    unfold trace_of, state_of in *; cbn [fst snd ret] in *.
    by rewrite app_nil_r.
  - cbn. split; [exact Hk |]. cbn. split; [lia | reflexivity].
Qed.

Lemma legacy_calls_grown cs m :
  forallb no_cancel cs = true -> keeps m ->
  grown m (trace_of (calls cs m)) (state_of (calls cs m)).
Proof.
  revert m. induction cs as [| c cs IH]; intros m Hcs Hk;
    [by apply grown_refl |].
  cbn [forallb] in Hcs. apply andb_true_iff in Hcs as [Hc Hcs].
  pose proof (legacy_call_grown c m Hc Hk) as H1.
  cbn [calls]. unfold bind.
  destruct (call c m) as [[[r | e] s1] t1];
    unfold trace_of, state_of in *; cbn [fst snd] in *; [| exact H1].
  specialize (IH s1 Hcs (proj1 H1)).
  destruct (calls cs s1) as [[o2 s2] t2]. cbn [fst snd] in *.
  by eapply grown_trans.
Qed.

Lemma legacy_call_user_grown u id func args m :
  forallb no_cancel (ur_calls u) = true -> keeps m ->
  grown m (trace_of (call_user u id func args m))
    (state_of (call_user u id func args m)).
Proof.
  intros Hcs Hk. pose proof (legacy_calls_grown _ m Hcs Hk) as H.
  unfold call_user, bind, emit.
  destruct (calls (ur_calls u) m) as [[[[] | e] s1] t1];
    unfold trace_of, state_of in *; cbn [fst snd] in *; [| exact H].
  destruct (ur_throws u); cbn [fst snd throw ret];
    rewrite ?app_nil_r; exact H.
Qed.

Lemma legacy_onmessage_eq u message m :
  onmessage u message m
  = match idMap m !! msg_id message with
    | None => (Normal tt, m, [])
    | Some t =>
        match msg_type message with
        | T_invoke =>
            call_user u (msg_id message) (tx_func t) (tx_args t) m
        | T_clear => idMap_delete (msg_id message) m
        end
    end.
Proof.
  unfold onmessage, idMap_get, gets, bind at 1.
  destruct (idMap m !! msg_id message) as [t |]; [| reflexivity].
  destruct (msg_type message).
  - destruct (call_user u (msg_id message) (tx_func t) (tx_args t) m)
      as [[r s1] t1]. reflexivity.
  - reflexivity.
Qed.

Lemma legacy_handle_grown i m :
  grows_only i = true -> keeps m ->
  grown m (trace_of (handle i m)) (state_of (handle i m)).
Proof.
  intros Hi Hk. destruct i as [c | u message]; cbn [grows_only handle] in *.
  - pose proof (legacy_call_grown c m Hi Hk) as H. unfold bind, ret.
    destruct (call c m) as [[[r | e] s1] t1];
      unfold trace_of, state_of in *; cbn [fst snd] in *;
      rewrite ?app_nil_r; exact H.
  - apply andb_true_iff in Hi as [Hcs Hty].
    rewrite legacy_onmessage_eq.
    destruct (idMap m !! msg_id message) as [t |];
      [| by apply grown_refl].
    destruct (msg_type message); [| discriminate Hty].
    by apply legacy_call_user_grown.
Qed.

Lemma legacy_run_grown inputs m :
  forallb grows_only inputs = true -> keeps m ->
  grown m (run inputs m).2 (run inputs m).1.
Proof.
  revert m. induction inputs as [| i inputs IH]; intros m Hin Hk;
    [by apply grown_refl |].
  cbn [forallb] in Hin. apply andb_true_iff in Hin as [Hi Hin].
  pose proof (legacy_handle_grown i m Hi Hk) as H1. cbn [run].
  destruct (handle i m) as [[o s1] t1].
  unfold trace_of, state_of in H1; cbn [fst snd] in H1.
  specialize (IH s1 Hin (proj1 H1)).
  destruct (run inputs s1) as [s2 t2]. cbn [fst snd] in *.
  by eapply grown_trans.
Qed.

Lemma legacy_keeps_initial : keeps initial.
Proof. split; [done |]. cbn. intros id H. lia. Qed.

End LegacyFacts.

(** X11. In the earlier version of [createWorkerTimer], whose [setTimer]
    stores the user's function itself, nothing but a cancel removes a
    transaction: over any run in which nothing is cancelled (calls that
    are not cancels, and ['invoke'] notifications delivered to callbacks
    that cancel nothing, whether they throw or not), the ids returned
    are 0, 1, 2, ... up to the counter, and every one of them still has
    its transaction at the end, however many notifications were
    delivered for it. A ['setTimeout'] that has fired stays in the
    registry. *)
Theorem legacy_fired_timeout_stays :
  forall inputs : list Legacy.Input,
    forallb Legacy.grows_only inputs = true ->
    let m := (Legacy.run inputs Legacy.initial).1 in
    let T := (Legacy.run inputs Legacy.initial).2 in
    Legacy.returned T
    = MainTrace.ids_from 0 (length (Legacy.returned T))
    /\ Legacy.seq m = Z.of_nat (length (Legacy.returned T))
    /\ forall id, id ∈ Legacy.returned T ->
         exists t, Legacy.idMap m !! id = Some t /\ Legacy.tx_id t = id.
Proof.
  intros inputs Hin m T.
  destruct (legacy_run_grown inputs Legacy.initial Hin legacy_keeps_initial)
    as ([_ Hk] & Hseq & Hret).
  fold m in Hk, Hseq. fold T in Hseq, Hret.
  change (Legacy.seq Legacy.initial) with 0 in *. rewrite Z.add_0_l in Hseq.
  split; [exact Hret |]. split; [exact Hseq |].
  intros id Hid. rewrite Hret in Hid. apply ids_from_elem in Hid.
  apply Hk. lia.
Qed.

Lemma legacy_fired_timeout_stays_witness :
  length (List.filter (Legacy.called_for 0)
            (Legacy.run legacy_timeout_fired Legacy.initial).2) = 2%nat
  /\ exists t,
       Legacy.idMap (Legacy.run legacy_timeout_fired Legacy.initial).1 !! 0
       = Some t /\ Legacy.tx_id t = 0.
Proof.
  destruct (legacy_fired_timeout_stays legacy_timeout_fired) as (_ & _ & Hk).
  - reflexivity.
  - split; [reflexivity |]. apply Hk. left.
Defined.
